(** * bdblib: a C++ convenience layer over Berkeley DB

    Shallow embedding of the wrapper classes [bdb::table], [bdb::index],
    [bdb::database], [bdb::sequence] and [bdb::recordset], and the
    properties of their error handling, cursors and joins.

    The wrapper only orchestrates calls of the storage engine and translates
    its status codes.  The engine itself is an external collaborator: the
    wrapper functions below are written against an interface ([Engine]) of the
    calls they issue, so that every statement about status translation holds
    for any engine.  A reference engine ([Ref]) implementing the documented
    behaviour of those calls is used where a property depends on what the
    engine stores. *)

From Stdlib Require Import ZArith Bool Lia.
From stdpp Require Import base list strings.

Local Open Scope Z_scope.

(** ** Handles, serialized values and status codes *)

(** Engine handles ([DB *], [DB_TXN *], [DBC *], [DB_SEQUENCE *], [DB_ENV *])
    are opaque to the wrapper; they are modelled as identifiers. *)
Abbreviation DB := nat.
Abbreviation DB_TXN := nat.
Abbreviation DBC := nat.
Abbreviation DB_SEQUENCE := nat.
Abbreviation DB_ENV := nat.

(** A [DBT] carries a byte sequence ([data], [size]); bdb.cc fills it from the
    [std::string] a message serializes to. *)
Abbreviation DBT := string.

(** bdb.h: exception codes. *)
Definition BDB_ERROR_UNKNOWN : Z := 1.
Definition BDB_ERROR_NOT_FOUND : Z := 2.
Definition BDB_ERROR_EXISTS : Z := 3.
Definition BDB_ERROR_FOREIGN_KEY : Z := 4.

(** <cerrno> values tested by the wrapper. *)
Definition ENOENT : Z := 2.
Definition EEXIST : Z := 17.
Definition EINVAL : Z := 22.

(** <db.h> is not part of the repository; the status codes below carry the
    values of Berkeley DB 4.8.  The proofs only use that they are non-zero,
    pairwise distinct and distinct from the errno values above. *)
Definition DB_FOREIGN_CONFLICT : Z := -30997.
Definition DB_KEYEXIST : Z := -30995.
Definition DB_NOTFOUND : Z := -30988.
Definition DB_DONOTINDEX : Z := -30998.

(** Flags of [DB->put]: [0] or [DB_NOOVERWRITE]. *)
Inductive put_flag := PUT_0 | DB_NOOVERWRITE.

(** Flags of [DBC->get] / [DBC->pget] used by the recordset; [GET_0] is the
    flag value [0] passed to a join cursor. *)
Inductive get_flag := GET_0 | DB_FIRST | DB_NEXT | DB_SET | DB_NEXT_DUP.

(** Flags of [open] calls: [DB_THREAD], optionally with
    [DB_CREATE | DB_EXCL] or [DB_CREATE]. *)
Record open_flags := OpenFlags {
  fl_thread : bool;
  fl_create : bool;
  fl_excl : bool
}.

(** ** Outcome of a wrapper call

    [Ok a]: normal return; [Throw e]: [throw exception(e)];
    [Undef]: the C++ code has undefined behaviour (dereference of a dangling
    pointer, [top()] or [pop()] of an empty [std::stack]). *)
Inductive result (A : Type) : Type :=
  | Ok (a : A)
  | Throw (error : Z)
  | Undef.
Arguments Ok {A} a.
Arguments Throw {A} error.
Arguments Undef {A}.

(** ** Serialization boundary (bdb.cc)

    [google::protobuf::Message] is external; a message type comes with
    [SerializeToString] and [ParseFromString]. *)
Class Message (M : Type) := {
  SerializeToString : M -> string;
  ParseFromString : string -> M
}.

(** [serialize]: the [DBT] receives a copy of the serialized string. *)
Definition serialize {M} `{Message M} (from : M) : DBT :=
  SerializeToString from.

(** [unserialize]: the target message is parsed from the [DBT]'s bytes. *)
Definition unserialize {M} `{Message M} (from : DBT) : M :=
  ParseFromString from.

(** Round trip of the serialization format on one message. *)
Definition roundtrips {M} `{Message M} (m : M) : Prop :=
  unserialize (serialize m) = m.

(** ** The engine calls issued by the wrapper

    Every call takes the engine state and returns the engine's status code
    (an [int], [0] on success), its out-parameters and the next engine state.
    [DB->get] and [DB->exists] are read-only probes. *)
Class Engine := {
  env : Type;
  (* DB *)
  DB_put : DB -> DB_TXN -> DBT -> DBT -> put_flag -> env -> Z * env;
  DB_get : DB -> DB_TXN -> DBT -> env -> Z * DBT;
  DB_exists : DB -> DB_TXN -> DBT -> env -> Z;
  (* cursors *)
  DB_cursor : DB -> DB_TXN -> env -> Z * option DBC * env;
  DB_join : DB -> list DBC -> env -> Z * option DBC * env;
  DBC_get : DBC -> get_flag -> env -> Z * (DBT * DBT) * env;
  DBC_pget : DBC -> DBT -> get_flag -> env -> Z * (DBT * DBT * DBT) * env;
  DBC_close : DBC -> env -> env;
  (* transactions *)
  txn_begin : DB_ENV -> option DB_TXN -> env -> Z * option DB_TXN * env;
  txn_commit : DB_TXN -> env -> Z * env;
  txn_abort : DB_TXN -> env -> Z * env;
  (* sequences *)
  db_sequence_create : DB -> env -> Z * option DB_SEQUENCE * env;
  seq_set_flags_INC : DB_SEQUENCE -> env -> Z * env;
  seq_set_cachesize : DB_SEQUENCE -> Z -> env -> Z * env;
  seq_initial_value : DB_SEQUENCE -> Z -> env -> Z * env;
  seq_open : DB_SEQUENCE -> DB_TXN -> DBT -> open_flags -> env -> Z * env;
  seq_get : DB_SEQUENCE -> DB_TXN -> Z -> env -> Z * Z * env;
  seq_close : DB_SEQUENCE -> env -> env
}.

(** ** bdb::database (database.cc) *)

(** The members the modelled operations read: the stack of active nested
    transactions ([std::stack<DB_TXN*>], head of the list = top) and the
    handle of the sequences database. *)
Record database := Database {
  m_env : DB_ENV;
  m_seq : DB;
  m_txns : list DB_TXN
}.

(** [m_txns.top()]; the stack is never empty on a constructed database (the
    constructor pushes the top-level transaction, commit and rollback refuse
    to pop it).  On an empty stack [top()] is undefined; the model reads the
    null handle. *)
Definition top (s : list DB_TXN) : DB_TXN := hd 0%nat s.

Definition set_txns (db : database) (s : list DB_TXN) : database :=
  {| m_env := m_env db; m_seq := m_seq db; m_txns := s |}.

Section Database.
Context `{E : Engine}.

(** [database::begin_transaction]; a null [txn] is the handle [0]. *)
Definition begin_transaction (db : database) (e : env)
  : result database * env :=
  let '(res, txn, e1) := txn_begin (m_env db) (Some (top (m_txns db))) e in
  if res =? 0 then
    (Ok (set_txns db (default 0%nat txn :: m_txns db)), e1)
  else
    match txn with
    | Some t => (Throw BDB_ERROR_UNKNOWN, snd (txn_abort t e1))
    | None => (Throw BDB_ERROR_UNKNOWN, e1)
    end.

(** [database::commit_transaction]: the exception is thrown after the
    transaction has been popped, so the database is returned in both
    outcomes. *)
Definition commit_transaction (db : database) (e : env)
  : result unit * database * env :=
  if (length (m_txns db) =? 1)%nat then
    (Throw BDB_ERROR_NOT_FOUND, db, e)
  else
    match m_txns db with
    | [] => (Undef, db, e)
    | txn :: rest =>
        let '(res, e1) := txn_commit txn e in
        if negb (res =? 0)
        then (Throw BDB_ERROR_UNKNOWN, set_txns db rest, e1)
        else (Ok tt, set_txns db rest, e1)
    end.

(** [database::rollback_transaction]. *)
Definition rollback_transaction (db : database) (e : env)
  : result unit * database * env :=
  if (length (m_txns db) =? 1)%nat then
    (Throw BDB_ERROR_NOT_FOUND, db, e)
  else
    match m_txns db with
    | [] => (Undef, db, e)
    | txn :: rest =>
        let '(res, e1) := txn_abort txn e in
        if negb (res =? 0)
        then (Throw BDB_ERROR_UNKNOWN, set_txns db rest, e1)
        else (Ok tt, set_txns db rest, e1)
    end.
End Database.

(** ** bdb::table (table.cc) and bdb::index (index.cc) *)

(** An open table; [m_database] is passed to each operation, which reads the
    current transaction from it. *)
Record table := Table {
  m_name : string;
  m_db : DB
}.

(** [class index : protected table]: an index is a table object. *)
Definition index := table.

Section Table.
Context `{E : Engine}.
Context {K D : Type} `{MK : Message K} `{MD : Message D}.

(** [table::exists]. *)
Definition table_exists (db : database) (t : table) (key : K) (e : env)
  : bool :=
  let k := serialize key in
  let res := DB_exists (m_db t) (top (m_txns db)) k e in
  (res =? 0).

(** [index::exists]. *)
Definition index_exists (db : database) (i : index) (key : K) (e : env)
  : bool :=
  let res := table_exists db i key e in
  res.

(** [table::insert]. *)
Definition table_insert (db : database) (t : table) (key : K) (data : D)
    (e : env) : result unit * env :=
  let k := serialize key in
  let d := serialize data in
  let '(res, e1) := DB_put (m_db t) (top (m_txns db)) k d DB_NOOVERWRITE e in
  if negb (res =? 0) then
    if res =? EINVAL then (Throw BDB_ERROR_EXISTS, e1)
    else if res =? DB_KEYEXIST then (Throw BDB_ERROR_EXISTS, e1)
    else if res =? DB_FOREIGN_CONFLICT then (Throw BDB_ERROR_FOREIGN_KEY, e1)
    else (Throw BDB_ERROR_UNKNOWN, e1)
  else (Ok tt, e1).

(** [table::update]. *)
Definition table_update (db : database) (t : table) (key : K) (data : D)
    (e : env) : result unit * env :=
  let k := serialize key in
  let d := serialize data in
  let res := DB_exists (m_db t) (top (m_txns db)) k e in
  if negb (res =? 0) then (Throw BDB_ERROR_NOT_FOUND, e)
  else
    let '(res, e1) := DB_put (m_db t) (top (m_txns db)) k d PUT_0 e in
    if negb (res =? 0) then
      if res =? DB_FOREIGN_CONFLICT then (Throw BDB_ERROR_FOREIGN_KEY, e1)
      else (Throw BDB_ERROR_UNKNOWN, e1)
    else (Ok tt, e1).

(** [table::select]; the out-parameter [data] is the returned message. *)
Definition table_select (db : database) (t : table) (key : K) (e : env)
  : result D :=
  let k := serialize key in
  let '(res, d) := DB_get (m_db t) (top (m_txns db)) k e in
  if negb (res =? 0) then
    if res =? DB_NOTFOUND then Throw BDB_ERROR_NOT_FOUND
    else Throw BDB_ERROR_UNKNOWN
  else Ok (unserialize d).
End Table.

(** ** bdb::recordset (recordset.cc) *)

(** Types of recordset. *)
Definition BDB_RS_TABLE : Z := 1.
Definition BDB_RS_DUPLICATES : Z := 2.
Definition BDB_RS_UNIQUE : Z := 3.
Definition BDB_RS_JOIN : Z := 4.

(** The members of a recordset; [None] is a null pointer. *)
Record recordset := Recordset {
  m_cursor : option DBC;
  m_key : option DBT;
  m_type : Z;
  m_isset : bool
}.

Definition set_isset (rs : recordset) (b : bool) : recordset :=
  {| m_cursor := m_cursor rs; m_key := m_key rs; m_type := m_type rs;
     m_isset := b |}.

(** Recordsets are objects shared by pointer: a [joinlist]
    ([vector<recordset*>]) holds addresses into the store of live recordsets,
    and the same address may occur more than once. *)
Abbreviation heap := (list recordset).
Abbreviation joinlist := (list nat).

Section Recordset.
Context `{E : Engine}.
Context {IK K D : Type} `{MIK : Message IK} `{MK : Message K} `{MD : Message D}.

(** The shared tail of the three cursor constructors: the failure branch
    closes a non-null cursor and throws. *)
Definition open_cursor (d : DB) (db : database) (key : option DBT) (type : Z)
    (e : env) : result recordset * env :=
  let '(res, cur, e1) := DB_cursor d (top (m_txns db)) e in
  if negb (res =? 0) then
    (Throw BDB_ERROR_UNKNOWN,
     match cur with Some c => DBC_close c e1 | None => e1 end)
  else
    (Ok {| m_cursor := cur; m_key := key; m_type := type; m_isset := false |},
     e1).

(** [recordset::recordset (table * tbl)]. *)
Definition recordset_table (db : database) (tbl : table) (e : env)
  : result recordset * env :=
  open_cursor (m_db tbl) db None BDB_RS_TABLE e.

(** [recordset::recordset (index * idx)]. *)
Definition recordset_index (db : database) (idx : index) (e : env)
  : result recordset * env :=
  open_cursor (m_db idx) db None BDB_RS_DUPLICATES e.

(** [recordset::recordset (index * idx, const Message * key)]: the search key
    is serialized once the cursor is open. *)
Definition recordset_index_key (db : database) (idx : index) (key : IK)
    (e : env) : result recordset * env :=
  open_cursor (m_db idx) db (Some (serialize key)) BDB_RS_UNIQUE e.

(** The loop of the join constructor over [list[0 .. count-1]] (here [lst]).  [isset] is
    the join's own [m_isset] (initialised to [true]), [curslist] the cursors
    collected so far.  A source without search key makes the constructor
    throw; the sources visited before it stay modified. *)
Fixpoint join_sources (lst : joinlist) (h : heap) (e : env) (isset : bool)
    (curslist : list DBC) : result (bool * list DBC) * heap * env :=
  match lst with
  | [] => (Ok (isset, curslist), h, e)
  | p :: rest =>
      match h !! p with
      | None => (Undef, h, e)
      | Some rs =>
          match m_key rs with
          | None => (Throw BDB_ERROR_UNKNOWN, h, e)
          | Some key =>
              match m_cursor rs with
              | None => (Undef, h, e)
              | Some c =>
                  let '(res, _, e1) := DBC_pget c key DB_SET e in
                  if res =? 0 then
                    join_sources rest (<[p := set_isset rs true]> h) e1
                                 isset (curslist ++ [c])
                  else
                    join_sources rest h e1 false (curslist ++ [c])
              end
          end
      end
  end.

(** [recordset::recordset (table * tbl, const joinlist & list)]. *)
Definition recordset_join (tbl : table) (lst : joinlist) (h : heap) (e : env)
  : result recordset * heap * env :=
  match join_sources lst h e true [] with
  | (Ok (isset, curslist), h1, e1) =>
      let '(res, cur, e2) := DB_join (m_db tbl) curslist e1 in
      if negb (res =? 0) then (Throw BDB_ERROR_UNKNOWN, h1, e2)
      else
        (Ok {| m_cursor := cur; m_key := None; m_type := BDB_RS_JOIN;
               m_isset := isset |}, h1, e2)
  | (Throw err, h1, e1) => (Throw err, h1, e1)
  | (Undef, h1, e1) => (Undef, h1, e1)
  end.

(** The engine call of [recordset::fetch], selected by [m_type]:
    [Ok None] when no call is made ([res] keeps its initial [DB_NOTFOUND]). *)
Definition fetch_call (rs : recordset) (e : env)
  : result (Z * (DBT * DBT) * env) :=
  if m_type rs =? BDB_RS_TABLE then
    match m_cursor rs with
    | Some c => Ok (DBC_get c (if negb (m_isset rs) then DB_FIRST else DB_NEXT) e)
    | None => Undef
    end
  else if m_type rs =? BDB_RS_DUPLICATES then
    match m_cursor rs with
    | Some c =>
        let '(res, (_, k, d), e1) :=
          DBC_pget c EmptyString
                   (if negb (m_isset rs) then DB_FIRST else DB_NEXT) e in
        Ok (res, (k, d), e1)
    | None => Undef
    end
  else if m_type rs =? BDB_RS_UNIQUE then
    match m_cursor rs, m_key rs with
    | Some c, Some key =>
        let '(res, (_, k, d), e1) :=
          DBC_pget c key (if negb (m_isset rs) then DB_SET else DB_NEXT_DUP) e in
        Ok (res, (k, d), e1)
    | _, _ => Undef
    end
  else if m_type rs =? BDB_RS_JOIN then
    if m_isset rs then
      match m_cursor rs with
      | Some c => Ok (DBC_get c GET_0 e)
      | None => Undef
      end
    else Ok (DB_NOTFOUND, (EmptyString, EmptyString), e)
  else Throw BDB_ERROR_UNKNOWN.

(** [recordset::fetch]: [Some (key, data)] stands for the return value [true]
    with both out-parameters filled, [None] for [false]. *)
Definition fetch (rs : recordset) (e : env)
  : result (option (K * D)) * recordset * env :=
  match fetch_call rs e with
  | Ok (res, (k, d), e1) =>
      if res =? 0
      then (Ok (Some (unserialize k, unserialize d)), set_isset rs true, e1)
      else (Ok None, rs, e1)
  | Throw err => (Throw err, rs, e)
  | Undef => (Undef, rs, e)
  end.

(** [recordset::rewind]. *)
Definition rewind (rs : recordset) : result recordset :=
  if m_type rs =? BDB_RS_JOIN then Throw BDB_ERROR_UNKNOWN
  else Ok (set_isset rs false).

(** [p->fetch(...)] on a recordset of the store. *)
Definition fetch_at (p : nat) (h : heap) (e : env)
  : result (option (K * D)) * heap * env :=
  match h !! p with
  | None => (Undef, h, e)
  | Some rs =>
      let '(r, rs1, e1) := fetch rs e in (r, <[p := rs1]> h, e1)
  end.

(** The outcomes of [n] successive calls of [fetch] on one recordset. *)
Fixpoint fetches (n : nat) (rs : recordset) (e : env)
  : list (result (option (K * D))) :=
  match n with
  | O => []
  | S n' => let '(r, rs1, e1) := fetch rs e in r :: fetches n' rs1 e1
  end.
End Recordset.

(** ** bdb::sequence (sequence.cc) *)

(** [m_database->m_seq], read by the sequence constructor. *)
Definition sequences_db (db : database) : DB := m_seq db.

(** [if (res == 0) res = call]: the next engine call is made only while the
    status is still [0]. *)
Definition and_then `{E : Engine} (res : Z) (call : env -> Z * env) (e : env)
  : Z * env :=
  if res =? 0 then call e else (res, e).

Module sequence.

(** The handle a sequence object owns ([None]: null pointer); the master
    database is passed to each operation. *)
Record t := Sequence { m_seq : option DB_SEQUENCE }.

Section Sequence.
Context `{E : Engine}.

(** [sequence::sequence]: increasing, cache size [0], initial value [1];
    the key of the sequence is its name. *)
Definition open (db : database) (name : string) (create : bool) (e : env)
  : result t * env :=
  let '(res, sq, e) := db_sequence_create (sequences_db db) e in
  match sq with
  | None =>
      if res =? 0 then (Undef, e)
      else if res =? ENOENT then (Throw BDB_ERROR_NOT_FOUND, e)
      else if res =? EEXIST then (Throw BDB_ERROR_EXISTS, e)
      else (Throw BDB_ERROR_UNKNOWN, e)
  | Some q =>
      let '(res, e) := and_then res (seq_set_flags_INC q) e in
      let '(res, e) := and_then res (seq_set_cachesize q 0) e in
      let '(res, e) := and_then res (seq_initial_value q 1) e in
      let flags := {| fl_thread := true; fl_create := create;
                      fl_excl := create |} in
      let '(res, e) :=
        and_then res (seq_open q (top (m_txns db)) name flags) e in
      if negb (res =? 0) then
        let e := seq_close q e in
        if res =? ENOENT then (Throw BDB_ERROR_NOT_FOUND, e)
        else if res =? EEXIST then (Throw BDB_ERROR_EXISTS, e)
        else (Throw BDB_ERROR_UNKNOWN, e)
      else (Ok {| m_seq := Some q |}, e)
  end.

(** [sequence::~sequence]. *)
Definition close (s : t) (e : env) : env :=
  match m_seq s with
  | Some q => seq_close q e
  | None => e
  end.

(** [sequence::id]; [db_seq_t] is [int64_t], the cast is the identity. *)
Definition id (db : database) (s : t) (e : env) : result Z * env :=
  match m_seq s with
  | None => (Undef, e)
  | Some q =>
      let '(res, v, e1) := seq_get q (top (m_txns db)) 1 e in
      if negb (res =? 0) then (Throw BDB_ERROR_UNKNOWN, e1)
      else (Ok v, e1)
  end.

(** [n] successive calls of [id]: their outcomes and the final state. *)
Fixpoint ids (n : nat) (db : database) (s : t) (e : env)
  : list (result Z) * env :=
  match n with
  | O => ([], e)
  | S n' =>
      let '(r, e1) := id db s e in
      let '(rs, e2) := ids n' db s e1 in
      (r :: rs, e2)
  end.
End Sequence.
End sequence.

(** * A reference engine

    Modelled from the spec: the storage engine behind the calls of [Engine]
    (Berkeley DB) is not part of the repository.  The model provides what the
    spec requires of such an engine (its sections 3 and 4), over one
    environment and one thread of control: tables with unique keys, indexes
    derived from their table by a projection function and consistent with it
    at every moment (duplicates sorted unless the index is unique),
    foreign-key constraints, cursors, natural joins of single-key cursors,
    nested transactions and persistent sequences; and it answers with the
    status codes the wrapper tests.  Keys compare as byte strings (the
    engine's default comparison). *)
Module Ref.

(** The callback of [DB->associate]: status and secondary key.  The engine
    indexes the record on status [0], skips it on [DB_DONOTINDEX] and fails
    the write with any other status. *)
Definition index_callback := DBT -> DBT -> Z * DBT.

(** The callback of [DB->associate_foreign] with [DB_FOREIGN_NULLIFY]: from
    the key and data of the referencing record and the foreign key, a
    status, the rewritten data and whether the data changed. *)
Definition nullify_callback := DBT -> DBT -> DBT -> Z * DBT * bool.

(** What the deletion of a key of the master table does to the records that
    reference it: it is refused, it deletes them, or it rewrites them. *)
Inductive foreign_mode :=
  | FOREIGN_ABORT
  | FOREIGN_CASCADE
  | FOREIGN_NULLIFY (f : nullify_callback).

(** An index: its table, its projection, whether its keys are unique, and
    its foreign key - the master table and the mode (the mode is read only
    where a master table is given). *)
Record secondary := Secondary {
  s_primary : DB;
  s_callback : index_callback;
  s_unique : bool;
  s_foreign : option DB;
  s_mode : foreign_mode
}.

(** An open database handle: a primary table with its records in key order,
    or a secondary index. *)
Inductive db_rec :=
  | Primary (records : list (DBT * DBT))
  | Index (s : secondary).

(** A cursor is positioned on the [n]-th duplicate of a key, or not yet
    positioned; a join cursor remembers its source cursors and how many
    candidates of the first source it has consumed. *)
Inductive cursor :=
  | Cursor (c_db : DB) (c_pos : option (DBT * nat))
  | JoinCursor (j_db : DB) (j_curs : list DBC) (j_pos : nat)
  | ClosedCursor.

Record seq_handle := SeqHandle {
  q_inc : bool;
  q_cachesize : Z;
  q_initial : Z;
  q_key : option DBT
}.

(** A transaction keeps what it has to restore on abort. *)
Record txn := Txn {
  t_live : bool;
  t_dbs : list db_rec;
  t_seqs : list (DBT * Z)
}.

Record state := State {
  dbs : list db_rec;
  seqs : list (DBT * Z);
  cursors : list cursor;
  txns : list txn;
  seq_handles : list seq_handle
}.

Definition set_dbs (st : state) (x : list db_rec) : state :=
  {| dbs := x; seqs := seqs st; cursors := cursors st; txns := txns st;
     seq_handles := seq_handles st |}.
Definition set_seqs (st : state) (x : list (DBT * Z)) : state :=
  {| dbs := dbs st; seqs := x; cursors := cursors st; txns := txns st;
     seq_handles := seq_handles st |}.
Definition set_cursors (st : state) (x : list cursor) : state :=
  {| dbs := dbs st; seqs := seqs st; cursors := x; txns := txns st;
     seq_handles := seq_handles st |}.
Definition set_txns (st : state) (x : list txn) : state :=
  {| dbs := dbs st; seqs := seqs st; cursors := cursors st; txns := x;
     seq_handles := seq_handles st |}.
Definition set_seq_handles (st : state) (x : list seq_handle) : state :=
  {| dbs := dbs st; seqs := seqs st; cursors := cursors st; txns := txns st;
     seq_handles := x |}.

(** *** Tables and indexes *)

Definition records_of (st : state) (d : DB) : list (DBT * DBT) :=
  match dbs st !! d with
  | Some (Primary r) => r
  | _ => []
  end.

(** Store [(k, d)] at its place in key order, replacing the record of [k]. *)
Fixpoint upsert (k d : DBT) (recs : list (DBT * DBT)) : list (DBT * DBT) :=
  match recs with
  | [] => [(k, d)]
  | (k', d') :: r =>
      if String.eqb k k' then (k, d) :: r
      else if String.ltb k k' then (k, d) :: (k', d') :: r
      else (k', d') :: upsert k d r
  end.

(** The secondary key of a stored record, if the index holds one. *)
Definition skey_of (s : secondary) (x : DBT * DBT) : option DBT :=
  let '(res, sk) := s_callback s x.1 x.2 in
  if res =? 0 then Some sk else None.

(** The primary records filed under key [sk] in database [d], in the order
    of their primary keys: the record itself in a table, the sorted
    duplicates of [sk] in an index. *)
Definition dups_of (st : state) (d : DB) (sk : DBT) : list (DBT * DBT) :=
  match dbs st !! d with
  | Some (Primary r) => filter (λ x, x.1 = sk) r
  | Some (Index s) =>
      filter (λ x, skey_of s x = Some sk) (records_of st (s_primary s))
  | None => []
  end.

Fixpoint insert_key (k : DBT) (keys : list DBT) : list DBT :=
  match keys with
  | [] => [k]
  | k' :: r =>
      if String.eqb k k' then keys
      else if String.ltb k k' then k :: keys
      else k' :: insert_key k r
  end.

(** The distinct keys of database [d] in key order. *)
Definition keys_of (st : state) (d : DB) : list DBT :=
  match dbs st !! d with
  | Some (Primary r) => r.*1
  | Some (Index s) =>
      foldr insert_key [] (omap (skey_of s) (records_of st (s_primary s)))
  | None => []
  end.

(** The indexes associated with table [p]. *)
Definition secondaries_of (st : state) (p : DB) : list secondary :=
  omap (λ r, match r with
             | Index s => if (s_primary s =? p)%nat then Some s else None
             | Primary _ => None
             end) (dbs st).

(** What index [s] answers to the write of [(k, d)] into its table holding
    [recs].  [EINVAL] when the index is unique and already files another
    record under the derived key. *)
Definition unique_status (recs : list (DBT * DBT)) (k d : DBT) (s : secondary)
  : Z :=
  match skey_of s (k, d) with
  | Some sk =>
      if s_unique s
         && bool_decide (Exists (λ x, x.1 ≠ k ∧ skey_of s x = Some sk) recs)
      then EINVAL else 0
  | None => 0
  end.

(** [DB_FOREIGN_CONFLICT] when the index holds a foreign key and the derived
    key is missing in the master table. *)
Definition foreign_status (st : state) (k d : DBT) (s : secondary) : Z :=
  match skey_of s (k, d), s_foreign s with
  | Some sk, Some m =>
      if bool_decide (sk ∈ (records_of st m).*1) then 0
      else DB_FOREIGN_CONFLICT
  | _, _ => 0
  end.

(** The status of the callback when it fails (the engine returns it from the
    call that initiated the callback); [DB_DONOTINDEX] is no failure. *)
Definition callback_status (k d : DBT) (s : secondary) : Z :=
  let res := (s_callback s k d).1 in
  if res =? DB_DONOTINDEX then 0 else res.

Definition first_failure (l : list Z) : Z :=
  default 0 (head (filter (λ r, r ≠ 0) l)).

(** What index [s] answers to the write of [(k, d)]: it derives its key by
    its callback, looks the key up in the master table when it holds a
    foreign key, and then files the record, which a unique index refuses. *)
Definition secondary_status (st : state) (recs : list (DBT * DBT))
    (k d : DBT) (s : secondary) : Z :=
  first_failure [callback_status k d s; foreign_status st k d s;
                 unique_status recs k d s].

(** Modelled from the spec: [DB->put], the engine's write.  With
    [DB_NOOVERWRITE] a present key is refused with [DB_KEYEXIST]; then the
    indexes of the table are consulted one after the other, the one
    associated last first, and the first that fails fails the write.  On
    success the record is stored and the indexes, being derived, follow. *)
Definition put (d : DB) (_ : DB_TXN) (k v : DBT) (fl : put_flag) (st : state)
  : Z * state :=
  match dbs st !! d with
  | Some (Primary recs) =>
      if match fl with
         | DB_NOOVERWRITE => bool_decide (k ∈ recs.*1)
         | PUT_0 => false
         end
      then (DB_KEYEXIST, st)
      else
        let res :=
          first_failure (secondary_status st recs k v
                           <$> reverse (secondaries_of st d)) in
        if negb (res =? 0) then (res, st)
        else (0, set_dbs st (<[d := Primary (upsert k v recs)]> (dbs st)))
  | _ => (EINVAL, st)
  end.

(** Modelled from the spec: [DB->get], the engine's read; on an index, the
    data of the first record filed under the key. *)
Definition get (d : DB) (_ : DB_TXN) (k : DBT) (st : state) : Z * DBT :=
  match dbs st !! d with
  | None => (EINVAL, EmptyString)
  | Some _ =>
      match dups_of st d k with
      | x :: _ => (0, x.2)
      | [] => (DB_NOTFOUND, EmptyString)
      end
  end.

(** Modelled from the spec: [DB->exists], the status of [DB->get] without
    the data. *)
Definition exists_ (d : DB) (t : DB_TXN) (k : DBT) (st : state) : Z :=
  (get d t k st).1.

(** *** Cursors *)

(** The key following [k] in [keys]. *)
Fixpoint next_key (keys : list DBT) (k : DBT) : option DBT :=
  match keys with
  | [] => None
  | k' :: r => if String.eqb k' k then head r else next_key r k
  end.

(** The secondary key, primary key and data at a position. *)
Definition entry (st : state) (d : DB) (pos : DBT * nat)
  : option (DBT * DBT * DBT) :=
  (λ x, (pos.1, x.1, x.2)) <$> dups_of st d pos.1 !! pos.2.

Definition first_pos (st : state) (d : DB) : option (DBT * nat) :=
  (λ k, (k, O)) <$> head (keys_of st d).

(** Where a cursor on [d] at [pos] moves under a flag; [None]: no such
    record. [DB_NEXT] on a cursor not yet positioned acts as [DB_FIRST]. *)
Definition move (st : state) (d : DB) (pos : option (DBT * nat)) (skey : DBT)
    (fl : get_flag) : option (DBT * nat) :=
  match fl, pos with
  | DB_FIRST, _ => first_pos st d
  | DB_NEXT, None => first_pos st d
  | DB_NEXT, Some (k, i) =>
      match dups_of st d k !! S i with
      | Some _ => Some (k, S i)
      | None => (λ k', (k', O)) <$> next_key (keys_of st d) k
      end
  | DB_SET, _ =>
      match dups_of st d skey with
      | _ :: _ => Some (skey, O)
      | [] => None
      end
  | DB_NEXT_DUP, Some (k, i) =>
      match dups_of st d k !! S i with
      | Some _ => Some (k, S i)
      | None => None
      end
  | _, _ => None
  end.

Definition no_entry : DBT * DBT * DBT := (EmptyString, EmptyString, EmptyString).

(** Modelled from the spec: [DBC->pget], the engine's cursor read; a failed
    call leaves the cursor where it was. *)
Definition pget (c : DBC) (skey : DBT) (fl : get_flag) (st : state)
  : Z * (DBT * DBT * DBT) * state :=
  match cursors st !! c with
  | Some (Cursor d pos) =>
      match fl, pos with
      | GET_0, _ | DB_NEXT_DUP, None => (EINVAL, no_entry, st)
      | _, _ =>
          match move st d pos skey fl with
          | Some pos' =>
              match entry st d pos' with
              | Some ent =>
                  (0, ent,
                   set_cursors st (<[c := Cursor d (Some pos')]> (cursors st)))
              | None => (DB_NOTFOUND, no_entry, st)
              end
          | None => (DB_NOTFOUND, no_entry, st)
          end
      end
  | _ => (EINVAL, no_entry, st)
  end.

(** The position of a source cursor of a join: index, key, offset. *)
Definition source (st : state) (c : DBC) : option (DB * DBT * nat) :=
  match cursors st !! c with
  | Some (Cursor d (Some (k, i))) => Some (d, k, i)
  | _ => None
  end.

(** Whether a candidate record is filed under the key of every other
    source. *)
Definition in_all (st : state) (others : list (DB * DBT * nat))
    (x : DBT * DBT) : bool :=
  forallb (λ s, bool_decide (x ∈ dups_of st s.1.1 s.1.2)) others.

(** The first candidate accepted by [ok], with the number of candidates
    skipped before it. *)
Fixpoint scan (ok : DBT * DBT -> bool) (cands : list (DBT * DBT))
  : option (nat * (DBT * DBT)) :=
  match cands with
  | [] => None
  | x :: r =>
      if ok x then Some (O, x)
      else (λ y, (S y.1, y.2)) <$> scan ok r
  end.

(** Modelled from the spec: [DBC->get] on a join cursor, the engine's
    natural join.  It iterates over the duplicates of the first source from
    its position on and probes the other sources, so that only records filed
    under the key of every source are returned; every source must be
    positioned. *)
Definition join_get (c : DBC) (jdb : DB) (curs : list DBC) (jpos : nat)
    (st : state) : Z * (DBT * DBT) * state :=
  match mapM (source st) curs with
  | Some ((d0, k0, i0) :: others) =>
      match scan (in_all st others)
                 (drop (i0 + jpos) (dups_of st d0 k0)) with
      | Some (n, x) =>
          (0, x,
           set_cursors st
             (<[c := JoinCursor jdb curs (jpos + n + 1)]> (cursors st)))
      | None => (DB_NOTFOUND, (EmptyString, EmptyString), st)
      end
  | _ => (EINVAL, (EmptyString, EmptyString), st)
  end.

(** Modelled from the spec: [DBC->get]. *)
Definition cget (c : DBC) (fl : get_flag) (st : state)
  : Z * (DBT * DBT) * state :=
  match cursors st !! c with
  | Some (JoinCursor jdb curs jpos) =>
      match fl with
      | GET_0 => join_get c jdb curs jpos st
      | _ => (EINVAL, (EmptyString, EmptyString), st)
      end
  | _ =>
      let '(res, (_, k, d), st1) := pget c EmptyString fl st in
      (res, (k, d), st1)
  end.

(** Modelled from the spec: [DB->cursor]. *)
Definition cursor_ (d : DB) (_ : DB_TXN) (st : state)
  : Z * option DBC * state :=
  match dbs st !! d with
  | Some _ =>
      (0, Some (length (cursors st)),
       set_cursors st (cursors st ++ [Cursor d None]))
  | None => (EINVAL, None, st)
  end.

(** Whether [c] is a cursor over an index of table [p]. *)
Definition is_index_cursor (st : state) (p : DB) (c : DBC) : bool :=
  match cursors st !! c with
  | Some (Cursor d _) =>
      match dbs st !! d with
      | Some (Index s) => (s_primary s =? p)%nat
      | _ => false
      end
  | _ => false
  end.

(** Modelled from the spec: [DB->join]; at least one cursor, all over
    indexes of the table. *)
Definition join (p : DB) (curs : list DBC) (st : state)
  : Z * option DBC * state :=
  match curs with
  | [] => (EINVAL, None, st)
  | _ :: _ =>
      if forallb (is_index_cursor st p) curs then
        (0, Some (length (cursors st)),
         set_cursors st (cursors st ++ [JoinCursor p curs O]))
      else (EINVAL, None, st)
  end.

Definition cclose (c : DBC) (st : state) : state :=
  set_cursors st (<[c := ClosedCursor]> (cursors st)).

(** *** Transactions

    Modelled from the spec: a transaction restores on abort what was stored
    when it began; commit keeps the writes. *)

Definition begin_ (_ : DB_ENV) (_ : option DB_TXN) (st : state)
  : Z * option DB_TXN * state :=
  (0, Some (length (txns st)),
   set_txns st (txns st ++ [Txn true (dbs st) (seqs st)])).

Definition resolve (t : DB_TXN) (st : state) : state :=
  set_txns st (alter (λ x, Txn false (t_dbs x) (t_seqs x)) t (txns st)).

Definition commit (t : DB_TXN) (st : state) : Z * state :=
  match txns st !! t with
  | Some x => if t_live x then (0, resolve t st) else (EINVAL, st)
  | None => (EINVAL, st)
  end.

Definition abort (t : DB_TXN) (st : state) : Z * state :=
  match txns st !! t with
  | Some x =>
      if t_live x
      then (0, resolve t (set_seqs (set_dbs st (t_dbs x)) (t_seqs x)))
      else (EINVAL, st)
  | None => (EINVAL, st)
  end.

(** *** Sequences *)

Definition INT64_MAX : Z := 9223372036854775807.

Definition sequence_create (_ : DB) (st : state)
  : Z * option DB_SEQUENCE * state :=
  (0, Some (length (seq_handles st)),
   set_seq_handles st (seq_handles st ++ [SeqHandle false 0 0 None])).

(** A setter of a handle not yet opened. *)
Definition configure (f : seq_handle -> seq_handle) (q : DB_SEQUENCE)
    (st : state) : Z * state :=
  match seq_handles st !! q with
  | Some h =>
      match q_key h with
      | None => (0, set_seq_handles st (<[q := f h]> (seq_handles st)))
      | Some _ => (EINVAL, st)
      end
  | None => (EINVAL, st)
  end.

Definition set_flags_INC :=
  configure (λ h, SeqHandle true (q_cachesize h) (q_initial h) (q_key h)).
Definition set_cachesize (q : DB_SEQUENCE) (n : Z) :=
  configure (λ h, SeqHandle (q_inc h) n (q_initial h) (q_key h)) q.
Definition initial_value (q : DB_SEQUENCE) (v : Z) :=
  configure (λ h, SeqHandle (q_inc h) (q_cachesize h) v (q_key h)) q.

Fixpoint assoc {A} (k : DBT) (l : list (DBT * A)) : option A :=
  match l with
  | [] => None
  | (k', v) :: r => if String.eqb k k' then Some v else assoc k r
  end.

Fixpoint assoc_set {A} (k : DBT) (v : A) (l : list (DBT * A))
  : list (DBT * A) :=
  match l with
  | [] => [(k, v)]
  | (k', v') :: r =>
      if String.eqb k k' then (k, v) :: r else (k', v') :: assoc_set k v r
  end.

(** Modelled from the spec: [DB_SEQUENCE->open]; the initial value is stored
    when the sequence is created and ignored when it exists.  A sequence that
    is created although it exists is refused with [EEXIST]; one that is
    opened although it does not exist is a key not found in the sequences
    database, [DB_NOTFOUND]. *)
Definition sopen (q : DB_SEQUENCE) (_ : DB_TXN) (key : DBT) (fl : open_flags)
    (st : state) : Z * state :=
  match seq_handles st !! q with
  | Some h =>
      let opened :=
        set_seq_handles st
          (<[q := SeqHandle (q_inc h) (q_cachesize h) (q_initial h) (Some key)]>
             (seq_handles st)) in
      match assoc key (seqs st) with
      | Some _ =>
          if fl_create fl && fl_excl fl then (EEXIST, st) else (0, opened)
      | None =>
          if fl_create fl
          then (0, set_seqs opened (assoc_set key (q_initial h) (seqs st)))
          else (DB_NOTFOUND, st)
      end
  | None => (EINVAL, st)
  end.

(** Modelled from the spec: [DB_SEQUENCE->get] under a transaction, refused
    on a handle with a cache; the stored value is returned and moves by
    [delta]; it does not wrap. *)
Definition sget (q : DB_SEQUENCE) (_ : DB_TXN) (delta : Z) (st : state)
  : Z * Z * state :=
  match seq_handles st !! q with
  | Some h =>
      match q_key h with
      | Some key =>
          match assoc key (seqs st) with
          | Some v =>
              if negb (q_cachesize h =? 0) || (delta <=? 0) then (EINVAL, 0, st)
              else if q_inc h then
                if INT64_MAX <? v + delta - 1 then (EINVAL, 0, st)
                else (0, v, set_seqs st (assoc_set key (v + delta) (seqs st)))
              else
                if v - delta + 1 <? - INT64_MAX - 1 then (EINVAL, 0, st)
                else (0, v, set_seqs st (assoc_set key (v - delta) (seqs st)))
          | None => (EINVAL, 0, st)
          end
      | None => (EINVAL, 0, st)
      end
  | None => (EINVAL, 0, st)
  end.

Definition sclose (q : DB_SEQUENCE) (st : state) : state :=
  set_seq_handles st
    (alter (λ h, SeqHandle (q_inc h) (q_cachesize h) (q_initial h) None) q
           (seq_handles st)).

(** *** What a write collides with *)

(** The key already has a record in table [d]. *)
Definition key_present (st : state) (d : DB) (k : DBT) : Prop :=
  k ∈ (records_of st d).*1.

(** Some unique index of table [d] already files another record under the
    key it derives from [(k, v)]. *)
Definition unique_collision (st : state) (d : DB) (k v : DBT) : Prop :=
  Exists (λ s, s_unique s = true /\
               exists sk, s_callback s k v = (0, sk) /\
                 Exists (λ x, x.1 ≠ k /\ skey_of s x = Some sk)
                        (records_of st d))
         (secondaries_of st d).

(** Some index of table [d] holding a foreign key derives from [(k, v)] a
    key its master table has no record of. *)
Definition foreign_conflict (st : state) (d : DB) (k v : DBT) : Prop :=
  Exists (λ s, exists sk m, skey_of s (k, v) = Some sk /\ s_foreign s = Some m
                            /\ sk ∉ (records_of st m).*1)
         (secondaries_of st d).

(** *** What cursors and recordsets range over *)

(** The records of database [d] in cursor order: key after key, the
    duplicates of each key in turn. *)
Definition contents (st : state) (d : DB) : list (DBT * DBT) :=
  flat_map (dups_of st d) (keys_of st d).

(** The records a table, index or single-key index recordset ranges over. *)
Definition range (st : state) (rs : recordset) : list (DBT * DBT) :=
  match m_cursor rs ≫= (cursors st !!.) with
  | Some (Cursor d _) =>
      if m_type rs =? BDB_RS_UNIQUE then
        match m_key rs with
        | Some key => dups_of st d key
        | None => []
        end
      else contents st d
  | _ => []
  end.

Definition range_at (st : state) (h : heap) (p : nat) : list (DBT * DBT) :=
  match h !! p with
  | Some rs => range st rs
  | None => []
  end.

(** The records of table [tbl] present in the range of every recordset of
    the list, in the order of the table. *)
Definition join_result (st : state) (tbl : table) (h : heap) (lst : joinlist)
  : list (DBT * DBT) :=
  filter (λ x, Forall (λ p, x ∈ range_at st h p) lst) (records_of st (m_db tbl)).

(** A member of a join list that is a single-key index recordset over an
    index of table [tbl]: its cursor, index and key. *)
Definition source_of (st : state) (tbl : DB) (h : heap) (p : nat)
  : option (DBC * DB * DBT) :=
  rs ← h !! p;
  c ← m_cursor rs;
  key ← m_key rs;
  match cursors st !! c with
  | Some (Cursor d _) =>
      match dbs st !! d with
      | Some (Index s) =>
          if (s_primary s =? tbl)%nat && (m_type rs =? BDB_RS_UNIQUE)
          then Some (c, d, key) else None
      | _ => None
      end
  | _ => None
  end.

(** Each recordset has a cursor of its own: members sharing a cursor are the
    same recordset, with the same key. *)
Definition own_cursors (srcs : list (DBC * DB * DBT)) : Prop :=
  forall s s', s ∈ srcs -> s' ∈ srcs -> s.1.1 = s'.1.1 -> s = s'.

(** Whether some record is filed under the key of a source. *)
Definition matched (st : state) (s : DBC * DB * DBT) : bool :=
  match dups_of st s.1.2 s.2 with
  | [] => false
  | _ :: _ => true
  end.

(** The effect of [pget] with [DB_SET] on the cursor of a source. *)
Definition seek (st : state) (s : DBC * DB * DBT) : state :=
  if matched st s then
    set_cursors st (<[s.1.1 := Cursor s.1.2 (Some (s.2, O))]> (cursors st))
  else st.

(** The database a cursor runs over. *)
Definition cursor_db (c : cursor) : option DB :=
  match c with
  | Cursor d _ => Some d
  | _ => None
  end.

(** Two states with the same databases and the same cursors up to their
    positions. *)
Definition same_shape (st st' : state) : Prop :=
  dbs st' = dbs st /\
  forall c, cursor_db <$> cursors st' !! c = cursor_db <$> cursors st !! c.

#[global] Instance engine : Engine := {|
  env := state;
  DB_put := put;
  DB_get := get;
  DB_exists := exists_;
  DB_cursor := cursor_;
  DB_join := join;
  DBC_get := cget;
  DBC_pget := pget;
  DBC_close := cclose;
  txn_begin := begin_;
  txn_commit := commit;
  txn_abort := abort;
  db_sequence_create := sequence_create;
  seq_set_flags_INC := set_flags_INC;
  seq_set_cachesize := set_cachesize;
  seq_initial_value := initial_value;
  seq_open := sopen;
  seq_get := sget;
  seq_close := sclose
|}.

End Ref.

(** * Specification vocabulary *)

(** Case analysis on the comparisons of a status [switch]. *)
Ltac status_cases :=
  repeat match goal with
  | |- context [Z.eqb ?a ?b] => destruct (Z.eqb_spec a b)
  | H : context [Z.eqb ?a ?b] |- _ => destruct (Z.eqb_spec a b)
  end; simpl in *.

(** A run on the scripted engine, once the answers it reads are known. *)
Ltac script_done :=
  vm_compute;
  split; [reflexivity |];
  split;
    [ let H := fresh in intros H; first [discriminate H | eauto]
    | let H := fresh in
      intros H; first [reflexivity | exfalso; apply H; reflexivity] ].

(** The seven parts of the outcome of [fetch] once its engine call is known. *)
Ltac fetch_outcome Hwf Hwf0 :=
  refine (conj (conj _ _) (conj _ (conj _ (conj _ (conj _ (conj _ _))))));
  simpl;
  [ discriminate
  | let Hn := fresh in intros Hn; exfalso; apply Hn; lia
  | eauto
  | first [apply Hwf | exact Hwf0]
  | first [auto; fail | discriminate]
  | let Hkd := fresh in intros ? Hkd; first [reflexivity | discriminate]
  | let Hno := fresh in
    intros Hno; first [reflexivity | exfalso; eapply Hno; reflexivity]
  | let Ht := fresh in let Hs := fresh in
    intros Ht Hs; first [reflexivity | congruence | lia] ].

(** The contract of the engine's store the round-trip properties rest on: a
    successful [put] makes the key present with the data just written. *)
Definition put_get_law (E : Engine) : Prop :=
  forall d t k v fl e e',
    DB_put d t k v fl e = (0, e') ->
    DB_get d t k e' = (0, v) /\ DB_exists d t k e' = 0.

(** What the four constructors establish and [fetch] and [rewind] keep: the
    cursor is open, and a search key is held exactly by the single-key index
    recordsets ([BDB_RS_UNIQUE]). *)
Definition wf_recordset (rs : recordset) : Prop :=
  is_Some (m_cursor rs) /\
  (is_Some (m_key rs) <-> m_type rs = BDB_RS_UNIQUE).

(** The members of a join list are live, well-formed recordsets. *)
Definition wf_joinlist (h : heap) (lst : joinlist) : Prop :=
  Forall (λ p, exists rs, h !! p = Some rs /\ wf_recordset rs) lst.

(** Some member of the list is not a single-key index recordset. *)
Definition has_other_kind (h : heap) (lst : joinlist) : Prop :=
  Exists (λ p, exists rs, h !! p = Some rs /\ m_type rs <> BDB_RS_UNIQUE) lst.

(** Two stores holding the same recordsets up to their [m_isset] flags. *)
Definition same_sources (h h' : heap) : Prop :=
  forall p, (λ rs, (m_cursor rs, m_key rs, m_type rs)) <$> h' !! p
            = (λ rs, (m_cursor rs, m_key rs, m_type rs)) <$> h !! p.

(** A message type that is its own serialization, for the scenarios. *)
#[global] Instance string_message : Message string :=
  {| SerializeToString := λ s, s; ParseFromString := λ s, s |}.

(** A fetched record as the caller receives it. *)
Definition unserialize_record {K D} `{Message K} `{Message D} (x : DBT * DBT)
  : K * D :=
  (unserialize x.1, unserialize x.2).

(** The outcomes of [n] successive fetches on a recordset that ranges over
    [l]: its records in turn, then [false] for ever. *)
Definition fetched {K D} `{Message K} `{Message D} (n : nat)
    (l : list (DBT * DBT)) : list (result (option (K * D))) :=
  ((λ x, Ok (Some (unserialize_record x))) <$> take n l)
  ++ replicate (n - length l) (Ok None).

(** The handle of a sequence opened by the wrapper: increasing, no cache. *)
Definition opened_as (st : Ref.state) (s : sequence.t) (name : DBT) : Prop :=
  exists q ini,
    sequence.m_seq s = Some q
    /\ Ref.seq_handles st !! q = Some (Ref.SeqHandle true 0 ini (Some name)).

(** ** The scenario of the test program (test.cc)

    Table [season], table [month] with the indexes [season] (foreign key to
    table [season], without cascade removal: [add_foreign (tseason, false)]
    of test 3), [days] and [ordnum] (unique).  A record of [month] is
    written here as the text "season,days,ordnum". *)
Module Scenario.

(** The [n]-th comma-separated field of a record. *)
Fixpoint field (n : nat) (s : string) : string :=
  match s with
  | EmptyString => EmptyString
  | String c r =>
      if Ascii.eqb c (Ascii.ascii_of_nat 44) then
        match n with
        | O => EmptyString
        | S n' => field n' r
        end
      else
        match n with
        | O => String c (field O r)
        | S _ => field n r
        end
  end.

Definition by_field (n : nat) : Ref.index_callback := λ _ d, (0, field n d).

(** An index callback that declines every record with the non-zero value
    [EINVAL]. *)
Definition declining : Ref.index_callback := λ _ _, (EINVAL, EmptyString).

Definition handles (months : list (DBT * DBT)) : list Ref.db_rec :=
  [Ref.Primary [("Autumn", ""); ("Spring", ""); ("Summer", "")];
   Ref.Primary months;
   Ref.Index (Ref.Secondary 1 (by_field 0) false (Some 0%nat)
                            Ref.FOREIGN_ABORT);
   Ref.Index (Ref.Secondary 1 (by_field 1) false None Ref.FOREIGN_ABORT);
   Ref.Index (Ref.Secondary 1 (by_field 2) true None Ref.FOREIGN_ABORT)
  ]%string.

Definition with_months (months : list (DBT * DBT)) : Ref.state :=
  Ref.State (handles months) [] [] [Ref.Txn true [] []] [].

Definition empty : Ref.state := with_months [].

Definition four_months : Ref.state :=
  with_months [("April", "Spring,30,4"); ("June", "Summer,30,6");
               ("November", "Autumn,30,11"); ("September", "Autumn,30,9")
              ]%string.

Definition db : database :=
  {| m_env := 0%nat; m_seq := 5%nat; m_txns := [0%nat] |}.
Definition tseason : table := Table "season" 0.
Definition tmonth : table := Table "month" 1.
Definition iseason : index := Table "season" 2.
Definition idays : index := Table "days" 3.
Definition iordnum : index := Table "ordnum" 4.

(** [four_months] with a cursor on [season = "Autumn"] and one on [days = d]
    opened, as by [recordset (index *, key)]. *)
Definition two_cursors : Ref.state :=
  Ref.set_cursors four_months [Ref.Cursor 2 None; Ref.Cursor 3 None].
Definition autumn : recordset :=
  {| m_cursor := Some 0%nat; m_key := Some "Autumn"%string;
     m_type := BDB_RS_UNIQUE; m_isset := false |}.
Definition days (d : string) : recordset :=
  {| m_cursor := Some 1%nat; m_key := Some d;
     m_type := BDB_RS_UNIQUE; m_isset := false |}.

(** The database with one nested transaction begun on [empty]. *)
Definition nested : database * Ref.state :=
  ({| m_env := 0%nat; m_seq := 5%nat; m_txns := [1%nat; 0%nat] |},
   (begin_transaction db empty).2).

(** The recordset of the thirty-day months after two fetches. *)
Definition days_30_fetched : recordset * Ref.state :=
  (set_isset (days "30"%string) true,
   Ref.set_cursors four_months
     [Ref.Cursor 2 None; Ref.Cursor 3 (Some ("30"%string, 1%nat))]).

(** A table with one index whose callback declines every record. *)
Definition declined : Ref.state :=
  Ref.State [Ref.Primary [];
             Ref.Index (Ref.Secondary 0 declining false None Ref.FOREIGN_ABORT)]
            [] [] [Ref.Txn true [] []] [].

(** The same table holding June, stored before the index was added. *)
Definition declined_stored : Ref.state :=
  Ref.State [Ref.Primary [("June", "Summer,30,6")]%string;
             Ref.Index (Ref.Secondary 0 declining false None Ref.FOREIGN_ABORT)]
            [] [] [Ref.Txn true [] []] [].

(** The sources of the join of autumn with the thirty-day months, and the
    join as constructed over them. *)
Definition sources : list (DBC * DB * DBT) :=
  [(0%nat, 2%nat, "Autumn"%string); (1%nat, 3%nat, "30"%string)].

Definition joined : recordset * heap * Ref.state :=
  ({| m_cursor := Some 2%nat; m_key := None; m_type := BDB_RS_JOIN;
      m_isset := true |},
   [set_isset autumn true; set_isset (days "30"%string) true],
   (recordset_join tmonth [0; 1]%nat [autumn; days "30"%string] two_cursors).2).

End Scenario.

(** * The rest of the wrapper

    The operations that open, register, close and delete, written against the
    engine calls they add to those of [Engine]. *)

(** The callbacks of bdb.h; a null function pointer is [None]. *)
Definition compare_callback := DBT -> DBT -> Z.
Definition index_callback := DBT -> DBT -> Z * DBT.
Definition nullify_callback := DBT -> DBT -> DBT -> Z * DBT * bool.

(** The flags of [DB->associate_foreign]. *)
Inductive foreign_flag :=
  | DB_FOREIGN_ABORT
  | DB_FOREIGN_CASCADE
  | DB_FOREIGN_NULLIFY.

(** The calls that delete a record and close handles.  The wrapper ignores
    what the close calls return. *)
Class EngineData `{E : Engine} := {
  DB_del : DB -> DB_TXN -> DBT -> env -> Z * env;
  DB_close : DB -> env -> env;
  env_close : DB_ENV -> env -> env
}.

(** The calls that create and open environments, databases and their
    associations.  [env_open] takes the home path and whether [DB_CREATE] is
    added to the subsystem flags. *)
Class EngineSchema `{E : Engine} := {
  db_env_create : env -> Z * option DB_ENV * env;
  env_set_alloc : DB_ENV -> env -> Z * env;
  env_open : DB_ENV -> string -> bool -> env -> Z * env;
  db_create : DB_ENV -> env -> Z * option DB * env;
  DB_get_env : DB -> env -> DB_ENV;
  DB_set_bt_compare : DB -> compare_callback -> env -> Z * env;
  DB_set_dup_compare : DB -> compare_callback -> env -> Z * env;
  DB_set_flags_DUPSORT : DB -> env -> Z * env;
  DB_open : DB -> DB_TXN -> string -> string -> open_flags -> env -> Z * env;
  DB_associate : DB -> DB_TXN -> DB -> index_callback -> env -> Z * env;
  DB_associate_foreign :
    DB -> DB -> option nullify_callback -> foreign_flag -> env -> Z * env
}.

(** The [switch (res)] of the constructors of database, table and sequence. *)
Definition open_error (res : Z) : Z :=
  if res =? ENOENT then BDB_ERROR_NOT_FOUND
  else if res =? EEXIST then BDB_ERROR_EXISTS
  else BDB_ERROR_UNKNOWN.

(** [table::get_filename] and [index::get_filename] (bdb.h). *)
Definition table_filename (name : string) : string := (name ++ ".db")%string.
Definition index_filename (name : string) : string := (name ++ ".ix")%string.

(** File and name of the sequences database (database.cc). *)
Definition SEQ_FILE : string := "__seq.db".
Definition SEQ_NAME : string := "__seq".

(** The members of a table beside its handle: the comparison function it was
    opened with and the indexes it owns. *)
Record table_object := TableObject {
  t_self : table;
  m_callback : option compare_callback;
  m_indexes : list index
}.

(** The members of a database beside those of [database]: the sequences and
    tables it owns. *)
Record database_object := DatabaseObject {
  d_self : database;
  m_sequences : list sequence.t;
  m_tables : list table_object
}.

Section Remove.
Context `{D : EngineData}.
Context {K : Type} `{MK : Message K}.

(** [table::remove]. *)
Definition table_remove (db : database) (t : table) (key : K) (e : env)
  : result unit * env :=
  let k := serialize key in
  let '(res, e1) := DB_del (m_db t) (top (m_txns db)) k e in
  if negb (res =? 0) then
    if res =? DB_NOTFOUND then (Throw BDB_ERROR_NOT_FOUND, e1)
    else if res =? DB_FOREIGN_CONFLICT then (Throw BDB_ERROR_FOREIGN_KEY, e1)
    else (Throw BDB_ERROR_UNKNOWN, e1)
  else (Ok tt, e1).

(** [recordset::~recordset]: the key is released and the cursor closed. *)
Definition recordset_close (rs : recordset) (e : env) : env :=
  match m_cursor rs with
  | Some c => DBC_close c e
  | None => e
  end.

(** [table::~table]: the indexes are deleted (each closes its handle), then
    the handle of the table is closed. *)
Definition table_close (t : table_object) (e : env) : env :=
  DB_close (m_db (t_self t))
           (foldl (λ e i, DB_close (m_db i) e) e (m_indexes t)).

(** The loop of [database::~database] over the stack: every transaction
    above the last one is popped and aborted; the last one and the state are
    returned.  On an empty stack [top()] is undefined ([None]). *)
Fixpoint abort_nested (txns : list DB_TXN) (e : env) : option (DB_TXN * env) :=
  match txns with
  | [] => None
  | [txn] => Some (txn, e)
  | txn :: rest => abort_nested rest (txn_abort txn e).2
  end.

(** [database::~database]. *)
Definition database_close (o : database_object) (e : env) : result unit * env :=
  match abort_nested (m_txns (d_self o)) e with
  | None => (Undef, e)
  | Some (txn, e) =>
      let e := foldl (λ e s, sequence.close s e) e (m_sequences o) in
      let e := foldl (λ e t, table_close t e) e (m_tables o) in
      let e := DB_close (m_seq (d_self o)) e in
      let e := (txn_commit txn e).2 in
      (Ok tt, env_close (m_env (d_self o)) e)
  end.
End Remove.

Section Schema.
Context `{E : Engine} `{D : !EngineData} `{S : !EngineSchema}.

(** [database::database]. *)
Definition database_open (home : string) (create : bool) (e : env)
  : result database * env :=
  let '(res, menv, e) := db_env_create e in
  match menv with
  | None =>
      if res =? 0 then (Undef, e) else (Throw (open_error res), e)
  | Some v =>
      let '(res, e) := and_then res (env_set_alloc v) e in
      let '(res, e) := and_then res (env_open v home create) e in
      let '(res, txn, e) :=
        if res =? 0 then txn_begin v None e else (res, None, e) in
      let '(res, mseq, e) :=
        if res =? 0 then db_create v e else (res, None, e) in
      let flags := {| fl_thread := true; fl_create := create;
                      fl_excl := create |} in
      match mseq with
      | None =>
          if res =? 0 then (Undef, e)
          else
            let e := match txn with
                     | Some t => (txn_abort t e).2
                     | None => e
                     end in
            (Throw (open_error res), env_close v e)
      | Some s =>
          let '(res, e) :=
            and_then res (DB_open s (default 0%nat txn) SEQ_FILE SEQ_NAME flags)
                     e in
          if negb (res =? 0) then
            let e := DB_close s e in
            let e := match txn with
                     | Some t => (txn_abort t e).2
                     | None => e
                     end in
            (Throw (open_error res), env_close v e)
          else
            (Ok {| m_env := v; m_seq := s; m_txns := [default 0%nat txn] |}, e)
      end
  end.

(** [table::table (database *, name, fn_cmp, create)]. *)
Definition table_open (db : database) (name : string)
    (fn_cmp : option compare_callback) (create : bool) (e : env)
  : result table * env :=
  let '(res, mdb, e) := db_create (m_env db) e in
  match mdb with
  | None =>
      if res =? 0 then (Undef, e) else (Throw (open_error res), e)
  | Some d =>
      let '(res, e) :=
        match fn_cmp with
        | Some f => and_then res (DB_set_bt_compare d f) e
        | None => (res, e)
        end in
      let flags := {| fl_thread := true; fl_create := create;
                      fl_excl := create |} in
      let '(res, e) :=
        and_then res
          (DB_open d (top (m_txns db)) (table_filename name) name flags) e in
      if negb (res =? 0) then (Throw (open_error res), DB_close d e)
      else (Ok {| m_name := name; m_db := d |}, e)
  end.

(** [index::index]: always with [DB_CREATE], never with [DB_EXCL]; sorted
    duplicates unless unique; then the association with the table.

    The constructor starts with [table (name)], so that an exception thrown
    by its body destroys the base object before it leaves the constructor:
    [table::~table] finds no indexes and closes [m_db] - the handle the
    failure branch has just closed, or the null handle when [db_create] gave
    none, which is undefined (as is the call on the null handle made when
    [db_create] answers [0] without a handle). *)
Definition index_open (db : database) (tbl : table) (name : string)
    (fn_idx : index_callback) (fn_cmp fn_dup : option compare_callback)
    (unique : bool) (e : env) : result index * env :=
  let '(res, mdb, e) := db_create (DB_get_env (m_db tbl) e) e in
  match mdb with
  | None => (Undef, e)
  | Some d =>
      let '(res, e) :=
        match fn_cmp with
        | Some f => and_then res (DB_set_bt_compare d f) e
        | None => (res, e)
        end in
      let '(res, e) :=
        if unique then (res, e)
        else
          let '(res, e) :=
            match fn_dup with
            | Some f => and_then res (DB_set_dup_compare d f) e
            | None => (res, e)
            end in
          and_then res (DB_set_flags_DUPSORT d) e in
      let flags := {| fl_thread := true; fl_create := true;
                      fl_excl := false |} in
      let '(res, e) :=
        and_then res
          (DB_open d (top (m_txns db)) (index_filename name) name flags) e in
      let '(res, e) :=
        and_then res (DB_associate (m_db tbl) (top (m_txns db)) d fn_idx) e in
      if negb (res =? 0) then
        let e := DB_close d e in
        (Throw BDB_ERROR_UNKNOWN, DB_close d e)
      else (Ok {| m_name := name; m_db := d |}, e)
  end.

(** [index::add_foreign (table *, bool cascade)]. *)
Definition add_foreign (i : index) (foreign : table) (cascade : bool) (e : env)
  : result unit * env :=
  let '(res, e1) :=
    DB_associate_foreign (m_db foreign) (m_db i) None
      (if cascade then DB_FOREIGN_CASCADE else DB_FOREIGN_ABORT) e in
  if negb (res =? 0) then (Throw BDB_ERROR_UNKNOWN, e1) else (Ok tt, e1).

(** [index::add_foreign (table *, nullify_callback)]. *)
Definition add_foreign_nullify (i : index) (foreign : table)
    (nullify : option nullify_callback) (e : env) : result unit * env :=
  let '(res, e1) :=
    DB_associate_foreign (m_db foreign) (m_db i) nullify DB_FOREIGN_NULLIFY e in
  if negb (res =? 0) then (Throw BDB_ERROR_UNKNOWN, e1) else (Ok tt, e1).

(** [table::add_index]: the index is registered once it is constructed; an
    exception of the constructor is passed on. *)
Definition add_index (db : database) (t : table_object) (name : string)
    (fn_idx : index_callback) (fn_cmp : option compare_callback)
    (unique : bool) (e : env) : result (index * table_object) * env :=
  match index_open db (t_self t) name fn_idx fn_cmp (m_callback t) unique e with
  | (Ok i, e1) =>
      (Ok (i, {| t_self := t_self t; m_callback := m_callback t;
                 m_indexes := m_indexes t ++ [i] |}), e1)
  | (Throw err, e1) => (Throw err, e1)
  | (Undef, e1) => (Undef, e1)
  end.

(** [database::add_table]. *)
Definition add_table (o : database_object) (name : string)
    (fn_cmp : option compare_callback) (create : bool) (e : env)
  : result (table_object * database_object) * env :=
  match table_open (d_self o) name fn_cmp create e with
  | (Ok t, e1) =>
      let t' := {| t_self := t; m_callback := fn_cmp; m_indexes := [] |} in
      (Ok (t', {| d_self := d_self o; m_sequences := m_sequences o;
                  m_tables := m_tables o ++ [t'] |}), e1)
  | (Throw err, e1) => (Throw err, e1)
  | (Undef, e1) => (Undef, e1)
  end.

(** [database::add_sequence]. *)
Definition add_sequence (o : database_object) (name : string) (create : bool)
    (e : env) : result (sequence.t * database_object) * env :=
  match sequence.open (d_self o) name create e with
  | (Ok s, e1) =>
      (Ok (s, {| d_self := d_self o; m_sequences := m_sequences o ++ [s];
                 m_tables := m_tables o |}), e1)
  | (Throw err, e1) => (Throw err, e1)
  | (Undef, e1) => (Undef, e1)
  end.
End Schema.

(** ** The reference engine: deleting and closing

    Modelled from the spec: [DB->del] and the close calls of the storage
    engine, which is not part of the repository.  Deleting a key of a table
    first deals with the records that reference the key through an index
    holding a foreign key on the table, according to the mode of the foreign
    key (spec 4.2, 4.3): the delete is refused with [DB_FOREIGN_CONFLICT],
    or the referencing records are deleted in the same way, or they are
    rewritten by the nullify callback.  Then the record is deleted.  A
    delete that fails changes nothing.  Closing a handle leaves what is
    stored. *)
Module RefData.

(** The stored databases taken alone. *)
Definition stored (dbs : list Ref.db_rec) : Ref.state :=
  Ref.State dbs [] [] [] [].

(** The indexes holding a foreign key on table [p]. *)
Definition foreign_on (dbs : list Ref.db_rec) (p : DB) : list Ref.secondary :=
  omap (λ r, match r with
             | Ref.Index s =>
                 if bool_decide (Ref.s_foreign s = Some p) then Some s
                 else None
             | Ref.Primary _ => None
             end) dbs.

(** The records index [s] files under [k]. *)
Definition referencing (dbs : list Ref.db_rec) (s : Ref.secondary) (k : DBT)
  : list (DBT * DBT) :=
  filter (λ x, Ref.skey_of s x = Some k)
         (Ref.records_of (stored dbs) (Ref.s_primary s)).

(** Whether some index with a foreign key on table [p] files a record under
    [k]. *)
Definition referenced (st : Ref.state) (p : DB) (k : DBT) : bool :=
  existsb (λ s, bool_decide (referencing (Ref.dbs st) s k ≠ []))
          (foreign_on (Ref.dbs st) p).

(** The number of stored records. *)
Definition size (dbs : list Ref.db_rec) : nat :=
  foldr (λ r n, match r with
                | Ref.Primary recs => (length recs + n)%nat
                | Ref.Index _ => n
                end) O dbs.

(** What the deletion of key [k] of the master table does to one record [x]
    that index [s] filed under [k], given how a record is deleted from the
    table of [s].  A record that is no longer filed under [k] is passed
    over. *)
Definition release (delete : DB -> DBT -> list Ref.db_rec -> Z * list Ref.db_rec)
    (s : Ref.secondary) (k : DBT) (acc : Z * list Ref.db_rec) (x : DBT * DBT)
  : Z * list Ref.db_rec :=
  if negb (acc.1 =? 0) then acc
  else if negb (bool_decide (x ∈ referencing acc.2 s k)) then acc
  else
    match Ref.s_mode s with
    | Ref.FOREIGN_ABORT => (DB_FOREIGN_CONFLICT, acc.2)
    | Ref.FOREIGN_CASCADE => delete (Ref.s_primary s) x.1 acc.2
    | Ref.FOREIGN_NULLIFY f =>
        let '(res, data, changed) := f x.1 x.2 k in
        if negb (res =? 0) then (res, acc.2)
        else if changed then
          let '(res, st) :=
            Ref.put (Ref.s_primary s) 0%nat x.1 data PUT_0 (stored acc.2) in
          (res, Ref.dbs st)
        else acc
    end.

(** The foreign keys on table [d] in turn, each with the records it files
    under [k]. *)
Definition release_all
    (delete : DB -> DBT -> list Ref.db_rec -> Z * list Ref.db_rec)
    (d : DB) (k : DBT) (dbs : list Ref.db_rec) : Z * list Ref.db_rec :=
  foldl (λ acc s, foldl (release delete s k) acc (referencing acc.2 s k))
        (0, dbs) (foreign_on dbs d).

(** Deleting key [k] of table [d]; [fuel] bounds the chain of cascading
    deletes, and a chain that is longer is refused. *)
Fixpoint del_dbs (fuel : nat) (d : DB) (k : DBT) (dbs : list Ref.db_rec)
  : Z * list Ref.db_rec :=
  match fuel with
  | O => (EINVAL, dbs)
  | S fuel' =>
      match dbs !! d with
      | Some (Ref.Primary recs) =>
          if bool_decide (k ∈ recs.*1) then
            let '(res, dbs1) := release_all (del_dbs fuel') d k dbs in
            if negb (res =? 0) then (res, dbs)
            else
              match dbs1 !! d with
              | Some (Ref.Primary recs1) =>
                  (0, <[d := Ref.Primary (filter (λ x, x.1 ≠ k) recs1)]> dbs1)
              | _ => (EINVAL, dbs)
              end
          else (DB_NOTFOUND, dbs)
      | _ => (EINVAL, dbs)
      end
  end.

(** Modelled from the spec: [DB->del].  A chain of cascading deletes without
    a cycle is no longer than the number of stored records. *)
Definition del (d : DB) (_ : DB_TXN) (k : DBT) (st : Ref.state)
  : Z * Ref.state :=
  let '(res, dbs1) := del_dbs (S (size (Ref.dbs st))) d k (Ref.dbs st) in
  if res =? 0 then (0, Ref.set_dbs st dbs1) else (res, st).

#[global] Instance data : @EngineData Ref.engine := {|
  DB_del := del;
  DB_close := λ _ st, st;
  env_close := λ _ st, st
|}.

(** The mode a flag of [DB->associate_foreign] asks for; nullifying needs a
    callback. *)
Definition mode_of (flag : foreign_flag) (nullify : option nullify_callback)
  : option Ref.foreign_mode :=
  match flag, nullify with
  | DB_FOREIGN_ABORT, _ => Some Ref.FOREIGN_ABORT
  | DB_FOREIGN_CASCADE, _ => Some Ref.FOREIGN_CASCADE
  | DB_FOREIGN_NULLIFY, Some f => Some (Ref.FOREIGN_NULLIFY f)
  | DB_FOREIGN_NULLIFY, None => None
  end.

(** Modelled from the spec: [DB->associate_foreign] (4.3), which registers
    index [i] as a foreign key against the master table [m] with the mode
    of the flag. *)
Definition associate_foreign (m i : DB) (nullify : option nullify_callback)
    (flag : foreign_flag) (st : Ref.state) : Z * Ref.state :=
  match Ref.dbs st !! m, Ref.dbs st !! i, mode_of flag nullify with
  | Some (Ref.Primary _), Some (Ref.Index s), Some mode =>
      (0, Ref.set_dbs st
            (<[i := Ref.Index (Ref.Secondary (Ref.s_primary s)
                                 (Ref.s_callback s) (Ref.s_unique s)
                                 (Some m) mode)]> (Ref.dbs st)))
  | _, _, _ => (EINVAL, st)
  end.

End RefData.

(** ** The scenario of the test program with other foreign keys

    The four months as the test program finds them when it has reopened the
    database, before the index [season] is made a foreign key: with the
    default of [add_foreign], a cascading one (test 22), and with a nullify
    callback that clears the season of a month. *)
Module Reopened.
Import Scenario.

(** The index [season] skips the months without a season. *)
Definition by_season : Ref.index_callback :=
  λ _ d, if String.eqb (field 0 d) EmptyString
         then (DB_DONOTINDEX, EmptyString) else (0, field 0 d).

Definition reopened : Ref.state :=
  Ref.set_dbs four_months
    (<[2%nat := Ref.Index (Ref.Secondary 1 by_season false None
                             Ref.FOREIGN_ABORT)]> (Ref.dbs four_months)).

Definition cascading : Ref.state :=
  (RefData.associate_foreign (m_db tseason) (m_db iseason) None
     DB_FOREIGN_CASCADE reopened).2.

(** The nullify callback: the season of the month is cleared. *)
Definition clear_season : nullify_callback :=
  λ _ d _, (0, ("," ++ field 1 d ++ "," ++ field 2 d)%string, true).

Definition nullifying : Ref.state :=
  (RefData.associate_foreign (m_db tseason) (m_db iseason)
     (Some clear_season) DB_FOREIGN_NULLIFY reopened).2.

End Reopened.

(** ** An engine that answers as prescribed

    A stand-in for exercising the paths of the wrapper: every call is logged
    with its handles, and takes its status from a list of prescribed answers
    ([0] once the list is used up).  A creating call hands out a fresh handle
    when it answers [0]; reads look at the next answer without using it. *)
Module Scripted.

Record call := Call { c_name : string; c_args : list nat }.

Record state := State {
  script : list Z;
  log : list call;
  fresh : nat
}.

Definition start (answers : list Z) : state :=
  {| script := answers; log := []; fresh := 1%nat |}.

Definition note (name : string) (args : list nat) (st : state) : state :=
  {| script := script st; log := log st ++ [Call name args];
     fresh := fresh st |}.

Definition answer (name : string) (args : list nat) (st : state) : Z * state :=
  (default 0 (head (script st)),
   {| script := tail (script st); log := log st ++ [Call name args];
      fresh := fresh st |}).

Definition create (name : string) (args : list nat) (st : state)
  : Z * option nat * state :=
  let '(res, st1) := answer name args st in
  if res =? 0 then
    (0, Some (fresh st1),
     {| script := script st1; log := log st1; fresh := S (fresh st1) |})
  else (res, None, st1).

Definition peek (st : state) : Z := default 0 (head (script st)).

(** The names of the calls logged so far. *)
Definition names (st : state) : list string := c_name <$> log st.

(** Not declared as instances: the engine to run on is named where it is
    used. *)
Definition engine : Engine := {|
  env := state;
  DB_put := λ d t _ _ _, answer "put" [d; t];
  DB_get := λ _ _ _ st, (peek st, EmptyString);
  DB_exists := λ _ _ _ st, peek st;
  DB_cursor := λ d t, create "cursor" [d; t];
  DB_join := λ d cs, create "join" (d :: cs);
  DBC_get := λ c _ st,
    let '(res, st1) := answer "c_get" [c] st in
    (res, (EmptyString, EmptyString), st1);
  DBC_pget := λ c _ _ st,
    let '(res, st1) := answer "c_pget" [c] st in
    (res, (EmptyString, EmptyString, EmptyString), st1);
  DBC_close := λ c, note "c_close" [c];
  txn_begin := λ v p, create "txn_begin" [v; default 0%nat p];
  txn_commit := λ t, answer "commit" [t];
  txn_abort := λ t, answer "abort" [t];
  db_sequence_create := λ d, create "sequence_create" [d];
  seq_set_flags_INC := λ q, answer "seq_set_flags" [q];
  seq_set_cachesize := λ q _, answer "seq_set_cachesize" [q];
  seq_initial_value := λ q _, answer "seq_initial_value" [q];
  seq_open := λ q t _ _, answer "seq_open" [q; t];
  seq_get := λ q t _ st,
    let '(res, st1) := answer "seq_get" [q; t] st in (res, 0, st1);
  seq_close := λ q, note "seq_close" [q]
|}.

Definition data : @EngineData engine :=
  @Build_EngineData engine
    (λ d t _ (st : state), answer "del" [d; t] st)
    (λ d (st : state), note "close" [d] st)
    (λ v (st : state), note "env_close" [v] st).

Definition schema : @EngineSchema engine :=
  @Build_EngineSchema engine
    (λ st : state, create "env_create" [] st)
    (λ v (st : state), answer "set_alloc" [v] st)
    (λ v _ _ (st : state), answer "env_open" [v] st)
    (λ v (st : state), create "db_create" [v] st)
    (λ _ (_ : state), 1%nat)
    (λ d _ (st : state), answer "set_bt_compare" [d] st)
    (λ d _ (st : state), answer "set_dup_compare" [d] st)
    (λ d (st : state), answer "set_flags" [d] st)
    (λ d t _ _ _ (st : state), answer "open" [d; t] st)
    (λ p t d _ (st : state), answer "associate" [p; t; d] st)
    (λ f d _ _ (st : state), answer "associate_foreign" [f; d] st).

End Scripted.

(** ** Vocabulary of the further properties *)

(** The contract of the engine's delete: after a successful [del] the key is
    absent. *)
Definition del_law `{D : EngineData} : Prop :=
  forall d t k e e',
    DB_del d t k e = (0, e') ->
    (DB_get d t k e').1 = DB_NOTFOUND /\ DB_exists d t k e' = DB_NOTFOUND.

(** The operations on the transaction stack. *)
Inductive txn_op := Begin | Commit | Rollback.

Section TxnRun.
Context `{E : Engine}.

(** One operation; an exception leaves the caller with the database as the
    operation left it. *)
Definition txn_step (op : txn_op) (db : database) (e : env)
  : result unit * database * env :=
  match op with
  | Begin =>
      match begin_transaction db e with
      | (Ok db1, e1) => (Ok tt, db1, e1)
      | (Throw err, e1) => (Throw err, db, e1)
      | (Undef, e1) => (Undef, db, e1)
      end
  | Commit => commit_transaction db e
  | Rollback => rollback_transaction db e
  end.

(** A caller that goes on after every exception: the operations in turn,
    with the outcomes collected. *)
Fixpoint txn_run (ops : list txn_op) (db : database) (e : env)
  : list (result unit) * database * env :=
  match ops with
  | [] => ([], db, e)
  | op :: rest =>
      let '(r, db1, e1) := txn_step op db e in
      let '(rs, db2, e2) := txn_run rest db1 e1 in
      (r :: rs, db2, e2)
  end.
End TxnRun.

(** The writes of a table. *)
Inductive write :=
  | Insert (t : table) (key data : DBT)
  | Update (t : table) (key data : DBT)
  | Remove (t : table) (key : DBT).

(** A write on the reference engine, whatever it throws. *)
Definition ref_write (db : database) (st : Ref.state) (w : write) : Ref.state :=
  match w with
  | Insert t k d => (table_insert db t k d st).2
  | Update t k d => (table_update db t k d st).2
  | Remove t k => (table_remove db t k st).2
  end.

(** What a caller does in a session: operations on the transaction stack and
    writes, each followed by the next whatever it throws. *)
Inductive action :=
  | Transact (op : txn_op)
  | Write (w : write).

Definition ref_act (s : database * Ref.state) (a : action)
  : database * Ref.state :=
  match a with
  | Transact op => let '(_, db1, st1) := txn_step op s.1 s.2 in (db1, st1)
  | Write w => (s.1, ref_write s.1 s.2 w)
  end.

Definition ref_session (acts : list action) (db : database) (st : Ref.state)
  : database * Ref.state :=
  foldl ref_act (db, st) acts.

(** The stored databases after a write, as a function of the stored
    databases before it. *)
Definition write_dbs (w : write) (dbs : list Ref.db_rec) : list Ref.db_rec :=
  Ref.dbs (ref_write (Database 0 0 []) (Ref.State dbs [] [] [] []) w).

(** Transactions as a stack of snapshots: begin pushes the current contents,
    commit drops the last snapshot, rollback returns to it; without an open
    nested transaction commit and rollback change nothing. *)
Definition snap_act (s : list Ref.db_rec * list (list Ref.db_rec))
    (a : action) : list Ref.db_rec * list (list Ref.db_rec) :=
  match a with
  | Transact Begin => (s.1, s.1 :: s.2)
  | Transact Commit => (s.1, tail s.2)
  | Transact Rollback =>
      match s.2 with
      | [] => s
      | snap :: rest => (snap, rest)
      end
  | Write w => (write_dbs w s.1, s.2)
  end.

Definition snap_session (acts : list action) (dbs : list Ref.db_rec)
  : list Ref.db_rec * list (list Ref.db_rec) :=
  foldl snap_act (dbs, []) acts.

(** The nested transactions of the wrapper's stack are live in the reference
    engine, distinct, and hold the given snapshots. *)
Definition linked (st : Ref.state) (nested : list DB_TXN)
    (snaps : list (list Ref.db_rec)) : Prop :=
  NoDup nested /\
  Forall2 (λ t snap, exists x, Ref.txns st !! t = Some x
                               /\ Ref.t_live x = true /\ Ref.t_dbs x = snap)
          nested snaps.








(** The engine calls of [database::database] in the order of the source,
    and what its failure branch releases once [ok] of them have succeeded:
    the sequences database if it was created, the transaction if it was
    begun, the environment if it was created. *)
Definition database_open_calls : list string :=
  ["env_create"; "set_alloc"; "env_open"; "txn_begin"; "db_create";
   "open"]%string.

Definition database_open_cleanup (ok : nat) : list string :=
  (if (5 <=? ok)%nat then ["close"%string] else [])
  ++ (if (4 <=? ok)%nat then ["abort"%string] else [])
  ++ (if (1 <=? ok)%nat then ["env_close"%string] else []).

(** How many of the first [n] calls are answered with [0] before the first
    other answer (a script that is used up answers [0]). *)
Fixpoint succeeded (n : nat) (answers : list Z) : nat :=
  match n, answers with
  | O, _ => O
  | S _, [] => n
  | S n', a :: rest => if a =? 0 then S (succeeded n' rest) else O
  end.

(** The engine calls of [database::~database] in the order of the source:
    the nested transactions are aborted from the top of the stack down, the
    sequences are closed, then every table after its indexes, the sequences
    database, and last the top-level transaction is committed and the
    environment closed. *)
Definition database_close_calls (o : database_object) (nested : list DB_TXN)
    (t0 : DB_TXN) : list Scripted.call :=
  ((λ t, Scripted.Call "abort" [t]) <$> nested)
  ++ omap (λ s, (λ q, Scripted.Call "seq_close" [q]) <$> sequence.m_seq s)
          (m_sequences o)
  ++ concat ((λ t, ((λ i, Scripted.Call "close" [m_db i]) <$> m_indexes t)
                   ++ [Scripted.Call "close" [m_db (t_self t)]])
             <$> m_tables o)
  ++ [Scripted.Call "close" [m_seq (d_self o)];
      Scripted.Call "commit" [t0];
      Scripted.Call "env_close" [m_env (d_self o)]].

(** The recordset [recordset (index *, key)] builds around cursor [c]. *)
Definition keyed (c : DBC) (key : DBT) : recordset :=
  {| m_cursor := Some c; m_key := Some key; m_type := BDB_RS_UNIQUE;
     m_isset := false |}.

(** A caller that opens a single-key recordset over each of the given
    indexes in turn and keeps the recordsets in the store. *)
Fixpoint open_index_keys (db : database) (srcs : list (table * DBT))
    (h : heap) (st : Ref.state) : option (heap * Ref.state) :=
  match srcs with
  | [] => Some (h, st)
  | (i, key) :: rest =>
      match recordset_index_key db i key st with
      | (Ok rs, st1) => open_index_keys db rest (h ++ [rs]) st1
      | _ => None
      end
  end.

(** The indexes of the pairs ([index] is [table]) are open indexes of table
    [tbl]. *)
Definition indexes_of (st : Ref.state) (tbl : table)
    (srcs : list (table * DBT)) : Prop :=
  Forall (λ s, exists sec, Ref.dbs st !! m_db s.1 = Some (Ref.Index sec)
                           /\ Ref.s_primary sec = m_db tbl) srcs.

(** * Properties of the wrapper over any engine *)

Section TableProperties.
Context `{E : Engine}.
Context {K D : Type} `{MK : Message K} `{MD : Message D}.

(** C9. [table::exists] returns a [bool] on every input (it has no throwing
    path): [true] exactly when the engine's probe reports [0], [false] for
    every non-zero status, whatever the status stands for.  [index::exists]
    returns what [table::exists] returns. *)
Theorem exists_reports_probe_success (db : database) (t : table) (key : K)
    (e : env) :
  let res := DB_exists (m_db t) (top (m_txns db)) (serialize key) e in
  (table_exists db t key e = true <-> res = 0) /\
  (table_exists db t key e = false <-> res <> 0) /\
  index_exists db t key e = table_exists db t key e.
Proof.
  intros res. unfold index_exists, table_exists. fold res.
  destruct (Z.eqb_spec res 0) as [Hz | Hnz].
  - repeat split; intros; congruence.
  - repeat split; intros; congruence.
Qed.

(** X18. [table::insert] translates the status of the engine's [put] with
    [DB_NOOVERWRITE]: it returns normally exactly on [0], throws
    AlreadyExists exactly on [DB_KEYEXIST] or [EINVAL], ForeignKeyViolation
    exactly on [DB_FOREIGN_CONFLICT], and Unknown on every other non-zero
    status; the engine state is the one [put] left. *)
Theorem insert_translates_put_status (db : database) (t : table) (key : K)
    (data : D) (e : env) :
  let w := DB_put (m_db t) (top (m_txns db)) (serialize key) (serialize data)
                  DB_NOOVERWRITE e in
  let r := table_insert db t key data e in
  (r.1 = Ok tt <-> w.1 = 0) /\
  (r.1 = Throw BDB_ERROR_EXISTS <-> w.1 = EINVAL \/ w.1 = DB_KEYEXIST) /\
  (r.1 = Throw BDB_ERROR_FOREIGN_KEY <-> w.1 = DB_FOREIGN_CONFLICT) /\
  (r.1 = Throw BDB_ERROR_UNKNOWN <->
     w.1 <> 0 /\ w.1 <> EINVAL /\ w.1 <> DB_KEYEXIST
     /\ w.1 <> DB_FOREIGN_CONFLICT) /\
  r.2 = w.2.
Proof.
  intros w r. subst r. unfold table_insert. fold w.
  destruct w as [res e1]. simpl.
  status_cases; subst;
    repeat split; intros; try discriminate; try congruence;
    unfold EINVAL, DB_KEYEXIST, DB_FOREIGN_CONFLICT in *;
    try lia; intuition (try discriminate; try lia).
Qed.

(** C5. [table::update] probes the key with [DB->exists] before it writes.
    A non-zero probe (the key is absent) throws NotFound and no write is
    issued: the engine state is untouched.  After a successful probe the
    record is written with flags [0], which overwrites: a successful write
    makes [select] return the new data, a write the engine rejects with
    [DB_FOREIGN_CONFLICT] throws ForeignKeyViolation, any other failure
    Unknown. *)
Theorem update_probes_then_overwrites (L : put_get_law E) (db : database)
    (t : table) (key : K) (data : D) (e : env) (RT : roundtrips data) :
  let k := serialize key in
  let probe := DB_exists (m_db t) (top (m_txns db)) k e in
  let w := DB_put (m_db t) (top (m_txns db)) k (serialize data) PUT_0 e in
  let r := table_update db t key data e in
  (probe <> 0 -> r = (Throw BDB_ERROR_NOT_FOUND, e)) /\
  (probe = 0 -> r.2 = w.2) /\
  (probe = 0 -> w.1 = 0 ->
     r.1 = Ok tt /\ table_select db t key r.2 = Ok data) /\
  (probe = 0 -> w.1 = DB_FOREIGN_CONFLICT ->
     r.1 = Throw BDB_ERROR_FOREIGN_KEY) /\
  (probe = 0 -> w.1 <> 0 -> w.1 <> DB_FOREIGN_CONFLICT ->
     r.1 = Throw BDB_ERROR_UNKNOWN).
Proof.
  intros k probe w r. subst r. unfold table_update. fold k probe w.
  destruct (Z.eqb_spec probe 0) as [Hp | Hp]; simpl.
  2: { repeat split; intros; congruence. }
  destruct w as [res e1] eqn:Hw. simpl.
  split; [congruence |]. split; [status_cases; reflexivity |].
  split; [| split].
  - intros _ ->. simpl. split; [reflexivity |].
    destruct (L _ _ _ _ _ _ _ Hw) as [Hget _].
    unfold table_select. fold k. rewrite Hget. simpl. now rewrite RT.
  - intros _ ->. reflexivity.
  - intros _ H0 Hfk. status_cases; congruence.
Qed.

(** C1. Round trip: when [insert (K, D)] returns normally, [exists (K)] is
    [true] and [select (K)] returns [D] in the state it leaves, for an engine
    keeping the contract of its store and data that survives its own
    serialization. *)
Theorem insert_then_select_roundtrip (L : put_get_law E) (db : database)
    (t : table) (key : K) (data : D) (e e' : env) (RT : roundtrips data) :
  table_insert db t key data e = (Ok tt, e') ->
  table_exists db t key e' = true /\ table_select db t key e' = Ok data.
Proof.
  unfold table_insert.
  destruct (DB_put _ _ _ _ _ e) as [res e1] eqn:Hw.
  destruct (Z.eqb_spec res 0) as [-> | Hnz]; simpl.
  - intros [= <-]. destruct (L _ _ _ _ _ _ _ Hw) as [Hget Hex].
    unfold table_exists, table_select. rewrite Hex, Hget. simpl.
    now rewrite RT.
  - status_cases; discriminate.
Qed.
End TableProperties.

Section DatabaseProperties.
Context `{E : Engine}.

(** C4. [commit_transaction] and [rollback_transaction] throw NotFound and
    leave stack and engine untouched when only the top-level transaction is
    on the stack; with a nested transaction on top they pop exactly that
    transaction, hand it to the engine's [commit] (resp. [abort]) and throw
    Unknown when that call fails. *)
Theorem commit_rollback_pop_top (db : database) (e : env) :
  (forall t0, m_txns db = [t0] ->
     commit_transaction db e = (Throw BDB_ERROR_NOT_FOUND, db, e) /\
     rollback_transaction db e = (Throw BDB_ERROR_NOT_FOUND, db, e)) /\
  (forall txn t1 rest, m_txns db = txn :: t1 :: rest ->
     let c := txn_commit txn e in
     let a := txn_abort txn e in
     commit_transaction db e =
       (if c.1 =? 0 then Ok tt else Throw BDB_ERROR_UNKNOWN,
        set_txns db (t1 :: rest), c.2) /\
     rollback_transaction db e =
       (if a.1 =? 0 then Ok tt else Throw BDB_ERROR_UNKNOWN,
        set_txns db (t1 :: rest), a.2)).
Proof.
  split.
  - intros t0 H. unfold commit_transaction, rollback_transaction.
    rewrite H. simpl. split; reflexivity.
  - intros txn t1 rest H c a.
    unfold commit_transaction, rollback_transaction. rewrite H. simpl.
    subst c a.
    destruct (txn_commit txn e) as [rc ec], (txn_abort txn e) as [ra ea].
    simpl. split; status_cases; reflexivity.
Qed.
End DatabaseProperties.

(** ** Kinds of recordset: facts *)

Lemma same_sources_refl h : same_sources h h.
Proof. intros p. reflexivity. Qed.

Lemma same_sources_trans h1 h2 h3 :
  same_sources h1 h2 -> same_sources h2 h3 -> same_sources h1 h3.
Proof. intros H12 H23 p. now rewrite H23, H12. Qed.

Lemma same_sources_set_isset h p rs b :
  h !! p = Some rs -> same_sources h (<[p := set_isset rs b]> h).
Proof.
  intros Hp q. destruct (decide (p = q)) as [<- | Hne].
  - rewrite list_lookup_insert_eq by (eapply lookup_lt_Some; eauto).
    rewrite Hp. reflexivity.
  - now rewrite list_lookup_insert_ne.
Qed.

(** A property of cursor, key and type is carried from one store to the
    other. *)
Lemma same_sources_lookup (P : option DBC -> option DBT -> Z -> Prop) h h' p :
  same_sources h h' ->
  (exists rs, h !! p = Some rs /\ P (m_cursor rs) (m_key rs) (m_type rs)) ->
  exists rs, h' !! p = Some rs /\ P (m_cursor rs) (m_key rs) (m_type rs).
Proof.
  intros Hs (rs & Hp & HP). specialize (Hs p). rewrite Hp in Hs.
  destruct (h' !! p) as [rs' |]; [| discriminate].
  injection Hs as Hc Hk Ht. exists rs'. split; [reflexivity |].
  now rewrite Hc, Hk, Ht.
Qed.

Lemma wf_joinlist_same h h' lst :
  same_sources h h' -> wf_joinlist h lst -> wf_joinlist h' lst.
Proof.
  intros Hs Hwf. unfold wf_joinlist in *.
  eapply Forall_impl; [exact Hwf |]. intros p. simpl.
  apply (same_sources_lookup
           (λ c k t, is_Some c /\ (is_Some k <-> t = BDB_RS_UNIQUE)) _ _ _ Hs).
Qed.

Lemma has_other_kind_same h h' lst :
  same_sources h h' -> has_other_kind h lst -> has_other_kind h' lst.
Proof.
  intros Hs Hex. unfold has_other_kind in *.
  eapply Exists_impl; [exact Hex |]. intros p. simpl.
  apply (same_sources_lookup (λ _ _ t, t <> BDB_RS_UNIQUE) _ _ _ Hs).
Qed.

Section RecordsetKinds.
Context `{E : Engine}.
Context {IK K D : Type} `{MIK : Message IK} `{MK : Message K} `{MD : Message D}.

(** The recordset a cursor constructor returns. *)
Lemma open_cursor_ok d db key type e rs e' :
  open_cursor d db key type e = (Ok rs, e') ->
  m_cursor rs = (DB_cursor d (top (m_txns db)) e).1.2 /\ m_key rs = key
  /\ m_type rs = type /\ m_isset rs = false.
Proof.
  unfold open_cursor. destruct (DB_cursor _ _ e) as [[res cur] e1].
  destruct (res =? 0); simpl; intros [= <- <-]. now simpl.
Qed.

(** Only the constructor taking a key builds a recordset that holds one. *)
Lemma constructors_key_iff_unique db tbl (key : IK) e rs e' :
  recordset_table db tbl e = (Ok rs, e')
  \/ recordset_index db tbl e = (Ok rs, e')
  \/ recordset_index_key db tbl key e = (Ok rs, e') ->
  is_Some (m_key rs) <-> m_type rs = BDB_RS_UNIQUE.
Proof.
  unfold recordset_table, recordset_index, recordset_index_key.
  intros [H | [H | H]]; apply open_cursor_ok in H as (_ & -> & -> & _);
    split; intros Hx; try discriminate; try (now inversion Hx); eauto.
Qed.

Lemma fetch_keeps_kind rs e :
  let rs' := (fetch (K:=K) (D:=D) rs e).1.2 in
  m_cursor rs' = m_cursor rs /\ m_key rs' = m_key rs
  /\ m_type rs' = m_type rs.
Proof.
  unfold fetch. destruct (fetch_call rs e) as [[[res [k d]] e1] | err |];
    simpl; [destruct (res =? 0) |..]; simpl; auto.
Qed.

(** The loop of the join constructor stops with Unknown at the first member
    that holds no search key. *)
Lemma join_sources_other_kind lst : forall h e isset curslist,
  wf_joinlist h lst -> has_other_kind h lst ->
  (join_sources lst h e isset curslist).1.1 = Throw BDB_ERROR_UNKNOWN.
Proof.
  induction lst as [| p rest IH]; intros h e isset curslist Hwf Hex.
  - inversion Hex.
  - apply Forall_cons in Hwf as [(rs & Hp & [c Hc] & Hkey) Hwf].
    simpl. rewrite Hp.
    destruct (m_key rs) as [key |] eqn:Hk.
    + assert (Ht : m_type rs = BDB_RS_UNIQUE) by (apply Hkey; eauto).
      apply Exists_cons in Hex as [(rs' & Hp' & Hne) | Hex];
        [congruence |].
      rewrite Hc. destruct (DBC_pget c key DB_SET e) as [[res ent] e1].
      destruct (res =? 0).
      * pose proof (same_sources_set_isset h p rs true Hp) as Hs.
        apply IH; eauto using wf_joinlist_same, has_other_kind_same.
      * now apply IH.
    + reflexivity.
Qed.

(** C7. The join constructor rejects a list with a member that is not a
    single-key index recordset ([BDB_RS_UNIQUE], the only kind holding a
    search key): it throws Unknown, code [1], and returns no recordset. *)
Theorem join_rejects_other_kinds (tbl : table) (lst : joinlist) (h : heap)
    (e : env) :
  wf_joinlist h lst -> has_other_kind h lst ->
  (recordset_join tbl lst h e).1.1 = Throw BDB_ERROR_UNKNOWN
  /\ BDB_ERROR_UNKNOWN = 1
  /\ forall j, (recordset_join tbl lst h e).1.1 <> Ok j.
Proof.
  intros Hwf Hex.
  pose proof (join_sources_other_kind lst h e true [] Hwf Hex) as H.
  assert (Hr : (recordset_join tbl lst h e).1.1 = Throw BDB_ERROR_UNKNOWN).
  { unfold recordset_join.
    destruct (join_sources lst h e true []) as [[[[b cl] | err |] h1] e1];
      simpl in H; try discriminate.
    injection H as ->. reflexivity. }
  rewrite Hr. repeat split. intros j. discriminate.
Qed.

(** When every member is a single-key index recordset the precondition check
    passes: the constructor throws only if the engine's [join] fails. *)
Lemma join_sources_all_unique lst : forall h e isset curslist,
  wf_joinlist h lst ->
  Forall (λ p, exists rs, h !! p = Some rs /\ m_type rs = BDB_RS_UNIQUE) lst ->
  exists r h' e', join_sources lst h e isset curslist = (Ok r, h', e')
                  /\ same_sources h h'.
Proof.
  induction lst as [| p rest IH]; intros h e isset curslist Hwf Hall.
  - simpl. eauto using same_sources_refl.
  - apply Forall_cons in Hwf as [(rs & Hp & [c Hc] & Hkey) Hwf].
    apply Forall_cons in Hall as [(rs' & Hp' & Ht) Hall].
    assert (rs' = rs) as -> by congruence.
    apply Hkey in Ht as [key Hk].
    simpl. rewrite Hp, Hk, Hc.
    destruct (DBC_pget c key DB_SET e) as [[res ent] e1].
    destruct (res =? 0).
    + pose proof (same_sources_set_isset h p rs true Hp) as Hs.
      destruct (IH (<[p := set_isset rs true]> h) e1 isset (curslist ++ [c]))
        as (r & h' & e' & Hj & Hs').
      * eauto using wf_joinlist_same.
      * eapply Forall_impl; [exact Hall |]. intros q. simpl.
        apply (same_sources_lookup (λ _ _ t, t = BDB_RS_UNIQUE) _ _ _ Hs).
      * exists r, h', e'. split; [exact Hj |].
        eauto using same_sources_trans.
    + now apply IH.
Qed.
End RecordsetKinds.

(** * The reference engine keeps the store contract *)

Lemma upsert_filter_head k v recs :
  exists tl, filter (λ x : DBT * DBT, x.1 = k) (Ref.upsert k v recs) = (k, v) :: tl.
Proof.
  induction recs as [| [k' d'] r IH]; simpl.
  - rewrite filter_cons_True by reflexivity. eauto.
  - destruct (String.eqb_spec k k') as [-> | Hne].
    + rewrite filter_cons_True by reflexivity. eauto.
    + destruct (String.ltb k k').
      * rewrite filter_cons_True by reflexivity. eauto.
      * rewrite filter_cons_False by (simpl; congruence). exact IH.
Qed.

Lemma ref_put_ok d t k v fl st st' :
  Ref.put d t k v fl st = (0, st') ->
  exists recs,
    Ref.dbs st !! d = Some (Ref.Primary recs)
    /\ st' = Ref.set_dbs st (<[d := Ref.Primary (Ref.upsert k v recs)]> (Ref.dbs st)).
Proof.
  unfold Ref.put. destruct (Ref.dbs st !! d) as [[recs | s] |] eqn:Hd;
    try discriminate.
  destruct (match fl with PUT_0 => _ | DB_NOOVERWRITE => _ end);
    [discriminate |].
  destruct (negb _) eqn:Hres; [| intros [= <-]; eauto].
  intros [= H0 _]. rewrite H0 in Hres. discriminate.
Qed.

Lemma ref_put_get : put_get_law Ref.engine.
Proof.
  intros d t k v fl e e' Hput. simpl in *.
  apply ref_put_ok in Hput as (recs & Hd & ->).
  assert (Hd' : Ref.dbs (Ref.set_dbs e (<[d := Ref.Primary (Ref.upsert k v recs)]> (Ref.dbs e))) !! d
                = Some (Ref.Primary (Ref.upsert k v recs))).
  { simpl. apply list_lookup_insert_eq. eapply lookup_lt_Some; eauto. }
  assert (Hget : Ref.get d t k (Ref.set_dbs e (<[d := Ref.Primary (Ref.upsert k v recs)]> (Ref.dbs e)))
                 = (0, v)).
  { unfold Ref.get, Ref.dups_of. rewrite Hd'.
    destruct (upsert_filter_head k v recs) as [tl ->]. reflexivity. }
  split; [exact Hget |]. unfold Ref.exists_. now rewrite Hget.
Qed.

(** On the reference engine a key already present makes [insert] throw
    AlreadyExists and leaves the table as it is. *)
Lemma ref_insert_key_present {K D} `{Message K} `{Message D}
    (db : database) (t : table) (key : K) (data : D) (st : Ref.state) :
  Ref.key_present st (m_db t) (serialize key) ->
  table_insert db t key data st = (Throw BDB_ERROR_EXISTS, st).
Proof.
  unfold Ref.key_present, Ref.records_of, table_insert. simpl.
  unfold Ref.put.
  destruct (Ref.dbs st !! m_db t) as [[recs | s] |];
    try (intros Hin; inversion Hin; fail).
  intros Hin. now rewrite bool_decide_eq_true_2 by exact Hin.
Qed.

(** * The reference engine: cursors *)

Lemma dups_of_same_dbs st st' d k :
  Ref.dbs st' = Ref.dbs st -> Ref.dups_of st' d k = Ref.dups_of st d k.
Proof. intros H. unfold Ref.dups_of, Ref.records_of. now rewrite H. Qed.

Lemma keys_of_same_dbs st st' d :
  Ref.dbs st' = Ref.dbs st -> Ref.keys_of st' d = Ref.keys_of st d.
Proof. intros H. unfold Ref.keys_of, Ref.records_of. now rewrite H. Qed.

Lemma matched_same_dbs st st' s :
  Ref.dbs st' = Ref.dbs st -> Ref.matched st' s = Ref.matched st s.
Proof. intros H. unfold Ref.matched. now rewrite (dups_of_same_dbs _ _ _ _ H). Qed.

Lemma seek_dbs st s : Ref.dbs (Ref.seek st s) = Ref.dbs st.
Proof. unfold Ref.seek. now destruct (Ref.matched st s). Qed.

Lemma same_shape_refl st : Ref.same_shape st st.
Proof. split; [reflexivity | intros c; reflexivity]. Qed.

Lemma same_shape_trans st1 st2 st3 :
  Ref.same_shape st1 st2 -> Ref.same_shape st2 st3 -> Ref.same_shape st1 st3.
Proof.
  intros [Hd Hc] [Hd' Hc']. split; [congruence |].
  intros c. now rewrite Hc', Hc.
Qed.

Lemma seek_same_shape st c d pos key :
  Ref.cursors st !! c = Some (Ref.Cursor d pos) ->
  Ref.same_shape st (Ref.seek st (c, d, key)).
Proof.
  intros Hc. unfold Ref.seek. destruct (Ref.matched st (c, d, key));
    [| apply same_shape_refl].
  split; [reflexivity |]. intros c'. simpl.
  destruct (decide (c = c')) as [<- | Hne].
  - rewrite list_lookup_insert_eq by (eapply lookup_lt_Some; eauto).
    now rewrite Hc.
  - now rewrite list_lookup_insert_ne.
Qed.

(** [pget] with [DB_SET] on a plain cursor. *)
Lemma ref_pget_set st c d pos key :
  Ref.cursors st !! c = Some (Ref.Cursor d pos) ->
  Ref.pget c key DB_SET st =
    match Ref.dups_of st d key with
    | x :: _ => (0, (key, x.1, x.2), Ref.seek st (c, d, key))
    | [] => (DB_NOTFOUND, Ref.no_entry, st)
    end.
Proof.
  intros Hc. unfold Ref.pget, Ref.seek, Ref.matched. rewrite Hc. simpl.
  unfold Ref.entry. simpl.
  destruct (Ref.dups_of st d key) as [| x l] eqn:Hd; [reflexivity |].
  simpl. rewrite Hd. reflexivity.
Qed.

Lemma source_of_stable st st' tbl h h' p :
  Ref.same_shape st st' -> same_sources h h' ->
  Ref.source_of st' tbl h' p = Ref.source_of st tbl h p.
Proof.
  intros [Hd Hc] Hs. unfold Ref.source_of. specialize (Hs p).
  destruct (h !! p) as [rs |], (h' !! p) as [rs' |]; try discriminate;
    [| reflexivity].
  injection Hs as Hc1 Hk1 Ht. simpl. rewrite Hc1, Hk1.
  destruct (m_cursor rs) as [c |]; [| reflexivity]. simpl.
  destruct (m_key rs) as [key |]; [| reflexivity]. simpl.
  specialize (Hc c). rewrite Hd, Ht.
  destruct (Ref.cursors st !! c) as [[d pos | |] |],
           (Ref.cursors st' !! c) as [[d' pos' | |] |];
    try discriminate; try reflexivity.
  now injection Hc as ->.
Qed.

Lemma source_of_inv st tbl h p c d key :
  Ref.source_of st tbl h p = Some (c, d, key) ->
  exists rs pos s,
    h !! p = Some rs /\ m_cursor rs = Some c /\ m_key rs = Some key
    /\ m_type rs = BDB_RS_UNIQUE
    /\ Ref.cursors st !! c = Some (Ref.Cursor d pos)
    /\ Ref.dbs st !! d = Some (Ref.Index s) /\ Ref.s_primary s = tbl.
Proof.
  unfold Ref.source_of. intros H.
  destruct (h !! p) as [rs |] eqn:Hp; [| discriminate]. simpl in H.
  destruct (m_cursor rs) as [c' |] eqn:Hcur; [| discriminate]. simpl in H.
  destruct (m_key rs) as [key' |] eqn:Hkey; [| discriminate]. simpl in H.
  destruct (Ref.cursors st !! c') as [[d' pos | |] |] eqn:Hc; try discriminate.
  destruct (Ref.dbs st !! d') as [[r | s] |] eqn:Hd; try discriminate.
  destruct (Nat.eqb_spec (Ref.s_primary s) tbl) as [Hpr | Hpr]; [| discriminate].
  destruct (Z.eqb_spec (m_type rs) BDB_RS_UNIQUE) as [Ht | Ht];
    [| discriminate].
  injection H as <- <- <-. exists rs, pos, s. repeat split; assumption.
Qed.

(** The loop of the join constructor on the reference engine: every source
    cursor is sent to its key, the sources with a record under their key get
    their flag set, and the join's flag tells whether all of them have one. *)
Lemma ref_join_sources tbl lst : forall h st isset curslist srcs,
  mapM (Ref.source_of st tbl h) lst = Some srcs ->
  exists h',
    join_sources lst h st isset curslist =
      (Ok (isset && forallb (Ref.matched st) srcs, curslist ++ srcs.*1.*1),
       h', foldl Ref.seek st srcs)
    /\ same_sources h h'
    /\ Ref.same_shape st (foldl Ref.seek st srcs)
    /\ (forall q, m_isset <$> h !! q = Some true ->
                  m_isset <$> h' !! q = Some true)
    /\ (forall i p s, lst !! i = Some p -> srcs !! i = Some s ->
          Ref.matched st s = true -> m_isset <$> h' !! p = Some true).
Proof.
  induction lst as [| p rest IH]; intros h st isset curslist srcs Hm.
  - injection Hm as <-. simpl. exists h. rewrite andb_true_r, app_nil_r.
    repeat split; auto using same_sources_refl, same_shape_refl.
    intros i p s Hi. discriminate.
  - simpl in Hm. apply bind_Some in Hm as ([[c d] key] & Hsrc & Hm).
    apply bind_Some in Hm as (srcs' & Hrest & [= <-]).
    destruct (source_of_inv _ _ _ _ _ _ _ Hsrc)
      as (rs & pos & s & Hp & Hc & Hk & Ht & Hcur & Hdb & Hprim).
    pose proof (seek_same_shape st c d pos key Hcur) as Hshape.
    simpl. rewrite Hp, Hk, Hc. simpl.
    change (@DBC_pget Ref.engine) with Ref.pget.
    rewrite (ref_pget_set st c d pos key Hcur).
    unfold Ref.matched at 1. simpl.
    destruct (Ref.dups_of st d key) as [| x l] eqn:Hdups.
    + (* no record under the key: the join is marked empty *)
      assert (Hseek : Ref.seek st (c, d, key) = st).
      { unfold Ref.seek, Ref.matched. simpl. now rewrite Hdups. }
      simpl. rewrite Hseek.
      destruct (IH h st false (curslist ++ [c]) srcs' Hrest)
        as (h' & Hj & Hs & Hsh & Hmono & Hset).
      exists h'. rewrite Hj, andb_false_r, <- app_assoc. simpl.
      refine (conj eq_refl (conj Hs (conj Hsh (conj Hmono _)))).
      intros [| i] q s' Hi Hs'; simpl in *.
      * injection Hs' as <-. unfold Ref.matched. simpl. now rewrite Hdups.
      * eauto.
    + (* the cursor is positioned and the source flagged *)
      simpl.
      pose proof (same_sources_set_isset h p rs true Hp) as Hsrcs.
      assert (Hrest' : mapM (Ref.source_of (Ref.seek st (c, d, key)) tbl
                               (<[p := set_isset rs true]> h)) rest
                       = Some srcs').
      { rewrite <- Hrest. apply mapM_ext. intros q.
        now apply source_of_stable. }
      destruct (IH _ _ isset (curslist ++ [c]) srcs' Hrest')
        as (h' & Hj & Hs & Hsh & Hmono & Hset).
      destruct Hshape as [Hdbs Hcs].
      exists h'. rewrite Hj, <- app_assoc. simpl.
      assert (Hfa : forallb (Ref.matched (Ref.seek st (c, d, key))) srcs'
                    = forallb (Ref.matched st) srcs').
      { clear. induction srcs' as [| a r IHr]; simpl; [reflexivity |].
        rewrite IHr. f_equal. apply matched_same_dbs, seek_dbs. }
      rewrite Hfa.
      refine (conj eq_refl (conj _ (conj _ (conj _ _)))).
      * eauto using same_sources_trans.
      * eapply same_shape_trans; [split; eauto | exact Hsh].
      * intros q Hq. apply Hmono.
        destruct (decide (p = q)) as [<- | Hne].
        -- rewrite list_lookup_insert_eq by (eapply lookup_lt_Some; eauto).
           reflexivity.
        -- now rewrite list_lookup_insert_ne.
      * intros [| i] q s' Hi Hs' Hmat; simpl in *.
        -- injection Hi as <-. apply Hmono.
           rewrite list_lookup_insert_eq by (eapply lookup_lt_Some; eauto).
           reflexivity.
        -- apply (Hset i q s' Hi Hs').
           rewrite (matched_same_dbs st); [exact Hmat | apply seek_dbs].
Qed.

Lemma foldl_seek_dbs srcs : forall st,
  Ref.dbs (foldl Ref.seek st srcs) = Ref.dbs st.
Proof.
  induction srcs as [| a r IH]; intros st; simpl; [reflexivity |].
  now rewrite IH, seek_dbs.
Qed.

(** A cursor already on its key stays there while the remaining sources
    sharing it are the same source. *)
Lemma foldl_seek_keep r : forall st c d k,
  Ref.cursors st !! c = Some (Ref.Cursor d (Some (k, O))) ->
  (forall s', s' ∈ r -> s'.1.1 = c -> s' = (c, d, k)) ->
  Ref.cursors (foldl Ref.seek st r) !! c = Some (Ref.Cursor d (Some (k, O))).
Proof.
  induction r as [| a r IH]; intros st c d k Hc Hown; simpl; [exact Hc |].
  apply IH.
  - unfold Ref.seek. destruct (Ref.matched st a); [| exact Hc]. simpl.
    destruct (decide (a.1.1 = c)) as [Hac | Hne].
    + rewrite (Hown a) by (auto; constructor). simpl.
      apply list_lookup_insert_eq. eapply lookup_lt_Some; eauto.
    + now rewrite list_lookup_insert_ne.
  - intros s' Hin. apply Hown. now constructor.
Qed.

(** After the loop every source with a record under its key has its cursor
    on the first such record. *)
Lemma foldl_seek_positioned srcs : forall st s,
  s ∈ srcs -> Ref.own_cursors srcs -> Ref.matched st s = true ->
  (forall s', s' ∈ srcs -> is_Some (Ref.cursors st !! s'.1.1)) ->
  Ref.cursors (foldl Ref.seek st srcs) !! s.1.1
  = Some (Ref.Cursor s.1.2 (Some (s.2, O))).
Proof.
  induction srcs as [| a r IH]; intros st s Hin Hown Hmat Hlive.
  - inversion Hin.
  - simpl.
    assert (Hown_r : Ref.own_cursors r).
    { intros x y Hx Hy. apply Hown; now constructor. }
    assert (Hlive_r : forall s', s' ∈ r ->
              is_Some (Ref.cursors (Ref.seek st a) !! s'.1.1)).
    { intros s' Hs'. unfold Ref.seek. destruct (Ref.matched st a);
        [| apply Hlive; now constructor].
      simpl. apply lookup_lt_is_Some. rewrite length_insert.
      apply lookup_lt_is_Some, Hlive. now constructor. }
    destruct (decide (s ∈ r)) as [Hr | Hnr].
    + apply IH; auto. now rewrite (matched_same_dbs st) by apply seek_dbs.
    + apply elem_of_cons in Hin as [-> | Hin]; [| contradiction].
      destruct a as [[c d] k]. simpl. apply foldl_seek_keep.
      * unfold Ref.seek. rewrite Hmat. simpl.
        apply list_lookup_insert_eq, lookup_lt_is_Some.
        apply (Hlive (c, d, k)). constructor.
      * intros s' Hs' Hc. symmetry. apply Hown; [constructor | | auto].
        now constructor.
Qed.

(** *** Join cursors *)

Lemma scan_filter ok l :
  match Ref.scan ok l with
  | None => filter (λ x, ok x = true) l = []
  | Some (n, x) =>
      ok x = true /\
      filter (λ x, ok x = true) l
      = x :: filter (λ x, ok x = true) (drop (S n) l)
  end.
Proof.
  induction l as [| a l IH]; simpl; [reflexivity |].
  destruct (ok a) eqn:Ha.
  - rewrite filter_cons_True by exact Ha. simpl. rewrite drop_0. auto.
  - rewrite filter_cons_False by congruence.
    destruct (Ref.scan ok l) as [[n x] |]; simpl; exact IH.
Qed.

Lemma in_all_same_dbs st st' others x :
  Ref.dbs st' = Ref.dbs st -> Ref.in_all st' others x = Ref.in_all st others x.
Proof.
  intros H. unfold Ref.in_all. induction others as [| s r IH]; simpl;
    [reflexivity |].
  now rewrite IH, (dups_of_same_dbs _ _ _ _ H).
Qed.

Lemma fetched_nil {K D} `{Message K} `{Message D} n :
  fetched (K:=K) (D:=D) n [] = replicate n (Ok None).
Proof. unfold fetched. rewrite take_nil. simpl. now rewrite Nat.sub_0_r. Qed.

Lemma fetched_cons {K D} `{Message K} `{Message D} n x l :
  fetched (K:=K) (D:=D) (S n) (x :: l)
  = Ok (Some (unserialize_record x)) :: fetched n l.
Proof. reflexivity. Qed.

Section JoinCursor.
Context {K D : Type} `{MK : Message K} `{MD : Message D}.

(** A join recordset whose flag is not set never calls the engine. *)
Lemma fetches_unset_join n : forall (st : Ref.state) cur,
  fetches (K:=K) (D:=D) n
    {| m_cursor := cur; m_key := None; m_type := BDB_RS_JOIN;
       m_isset := false |} st
  = replicate n (Ok None).
Proof.
  induction n as [| n IH]; intros st cur; simpl; [reflexivity |].
  unfold fetch. simpl. now rewrite IH.
Qed.

(** Successive fetches on a join cursor yield the candidates of the first
    source that are filed under the key of every other source. *)
Lemma ref_join_fetches n : forall jpos (st : Ref.state) jc tbl cs d0 k0 others,
  Ref.cursors st !! jc = Some (Ref.JoinCursor tbl cs jpos) ->
  mapM (Ref.source st) cs = Some ((d0, k0, O) :: others) ->
  fetches (K:=K) (D:=D) n
    {| m_cursor := Some jc; m_key := None; m_type := BDB_RS_JOIN;
       m_isset := true |} st
  = fetched n (filter (λ x, Ref.in_all st others x = true)
                      (drop jpos (Ref.dups_of st d0 k0))).
Proof.
  induction n as [| n IH]; intros jpos st jc tbl cs d0 k0 others Hjc Hsrc;
    [reflexivity |].
  simpl. unfold fetch, fetch_call. simpl.
  change (@DBC_get Ref.engine) with Ref.cget.
  unfold Ref.cget. rewrite Hjc. unfold Ref.join_get. rewrite Hsrc. simpl.
  pose proof (scan_filter (Ref.in_all st others)
                (drop jpos (Ref.dups_of st d0 k0))) as Hscan.
  destruct (Ref.scan _ _) as [[m [k d]] |].
  - destruct Hscan as [_ ->]. simpl. rewrite fetched_cons. f_equal.
    set (st2 := Ref.set_cursors st _).
    assert (Hdbs : Ref.dbs st2 = Ref.dbs st) by reflexivity.
    unfold set_isset. simpl.
    rewrite (IH (jpos + m + 1)%nat st2 jc tbl cs d0 k0 others).
    + rewrite drop_drop, (dups_of_same_dbs _ _ _ _ Hdbs).
      replace (jpos + S m)%nat with (jpos + m + 1)%nat by lia.
      reflexivity.
    + subst st2. simpl. apply list_lookup_insert_eq.
      eapply lookup_lt_Some; eauto.
    + rewrite <- Hsrc. apply Forall_mapM_ext.
      assert (Hall : is_Some (mapM (Ref.source st) cs)) by eauto.
      apply mapM_is_Some_1 in Hall.
      eapply Forall_impl; [exact Hall |]. intros c [y Hy]. simpl in *.
      unfold Ref.source in *. subst st2. simpl.
      destruct (decide (jc = c)) as [<- | Hne].
      * rewrite Hjc in Hy. discriminate.
      * now rewrite list_lookup_insert_ne.
  - rewrite Hscan. simpl. rewrite fetched_nil.
    rewrite (IH jpos st jc tbl cs d0 k0 others Hjc Hsrc), Hscan, fetched_nil.
    reflexivity.
Qed.
End JoinCursor.

(** *** The range of a source and the intersection of the ranges *)

Lemma filter_ext_elem {A} (P Q : A -> Prop) `{!forall x, Decision (P x)}
    `{!forall x, Decision (Q x)} (l : list A) :
  (forall x, x ∈ l -> (P x <-> Q x)) -> filter P l = filter Q l.
Proof.
  induction l as [| a l IH]; intros Hext; [reflexivity |].
  assert (IH' : filter P l = filter Q l).
  { apply IH. intros x Hx. apply Hext. now constructor. }
  destruct (decide (P a)) as [Hp | Hp].
  - rewrite !filter_cons_True; [now rewrite IH' | | exact Hp].
    apply Hext; [constructor | exact Hp].
  - rewrite !filter_cons_False; [exact IH' | | exact Hp].
    intros Hq. apply Hp, Hext; [constructor | exact Hq].
Qed.

Lemma mapM_fmap_elem {A B C} (f : B -> option C) (a : A -> B) (g : A -> C)
    (l : list A) :
  (forall s, s ∈ l -> f (a s) = Some (g s)) ->
  mapM f (a <$> l) = Some (g <$> l).
Proof.
  intros Hall. apply mapM_Some_2.
  induction l as [| x l IH]; simpl; constructor.
  - apply Hall. constructor.
  - apply IH. intros s Hs. apply Hall. now constructor.
Qed.

Lemma range_at_source st tbl h p c d key :
  Ref.source_of st tbl h p = Some (c, d, key) ->
  Ref.range_at st h p = Ref.dups_of st d key.
Proof.
  intros H. apply source_of_inv in H
    as (rs & pos & s & Hp & Hc & Hk & Ht & Hcur & _).
  unfold Ref.range_at, Ref.range. rewrite Hp, Hc. simpl.
  now rewrite Hcur, Ht, Hk.
Qed.

Lemma join_result_sources st tbl h lst srcs :
  mapM (Ref.source_of st (m_db tbl) h) lst = Some srcs ->
  Ref.join_result st tbl h lst
  = filter (λ x, Forall (λ s, x ∈ Ref.dups_of st s.1.2 s.2) srcs)
           (Ref.records_of st (m_db tbl)).
Proof.
  intros Hm. apply mapM_Some_1 in Hm. unfold Ref.join_result.
  apply list_filter_iff. intros x.
  induction Hm as [| p [[c d] key] lst srcs Hp _ IH].
  - split; constructor.
  - rewrite !Forall_cons, IH, (range_at_source _ _ _ _ _ _ _ Hp). reflexivity.
Qed.

(** A source without a record under its key empties the intersection. *)
Lemma join_result_unmatched st tbl h lst srcs :
  mapM (Ref.source_of st (m_db tbl) h) lst = Some srcs ->
  forallb (Ref.matched st) srcs = false ->
  Ref.join_result st tbl h lst = [].
Proof.
  intros Hm Hf. rewrite (join_result_sources _ _ _ _ _ Hm).
  assert (Hex : exists s, s ∈ srcs /\ Ref.dups_of st s.1.2 s.2 = []).
  { clear Hm. induction srcs as [| a r IH]; [discriminate |].
    simpl in Hf. apply andb_false_iff in Hf as [Ha | Hr].
    - exists a. split; [constructor |]. unfold Ref.matched in Ha.
      now destruct (Ref.dups_of st a.1.2 a.2).
    - destruct (IH Hr) as (s & Hs & He). exists s. split; [now constructor | exact He]. }
  destruct Hex as (s & Hs & He).
  induction (Ref.records_of st (m_db tbl)) as [| x l IH]; [reflexivity |].
  rewrite filter_cons_False; [exact IH |].
  intros Hall. rewrite Forall_forall in Hall. specialize (Hall s Hs).
  rewrite He in Hall. inversion Hall.
Qed.

Lemma in_all_Forall st others x :
  Ref.in_all st others x = true
  <-> Forall (λ s, x ∈ Ref.dups_of st s.1.1 s.1.2) others.
Proof.
  unfold Ref.in_all. induction others as [| s r IH]; simpl.
  - split; [constructor | reflexivity].
  - rewrite andb_true_iff, bool_decide_eq_true, IH, Forall_cons. reflexivity.
Qed.

Lemma sources_origin st tbl h lst srcs s :
  mapM (Ref.source_of st tbl h) lst = Some srcs -> s ∈ srcs ->
  exists p, p ∈ lst /\ Ref.source_of st tbl h p = Some s.
Proof.
  intros Hm Hs. apply mapM_Some_1 in Hm.
  apply list_elem_of_lookup in Hs as [i Hi].
  destruct (Forall2_lookup_r _ _ _ _ _ Hm Hi) as (p & Hp & Hsrc).
  exists p. split; [| exact Hsrc]. apply list_elem_of_lookup. eauto.
Qed.

Lemma sources_of_member st tbl h lst srcs p :
  mapM (Ref.source_of st tbl h) lst = Some srcs -> p ∈ lst ->
  exists s, s ∈ srcs /\ Ref.source_of st tbl h p = Some s.
Proof.
  intros Hm Hp. apply mapM_Some_1 in Hm.
  apply list_elem_of_lookup in Hp as [i Hi].
  destruct (Forall2_lookup_l _ _ _ _ _ Hm Hi) as (s & Hs & Hsrc).
  exists s. split; [| exact Hsrc]. apply list_elem_of_lookup. eauto.
Qed.

(** The join constructor on the reference engine, when it returns. *)
Lemma ref_recordset_join tbl lst h st srcs j h' st' :
  mapM (Ref.source_of st (m_db tbl) h) lst = Some srcs ->
  recordset_join tbl lst h st = (Ok j, h', st') ->
  let st1 := foldl Ref.seek st srcs in
  j = {| m_cursor := Some (length (Ref.cursors st1)); m_key := None;
         m_type := BDB_RS_JOIN; m_isset := forallb (Ref.matched st) srcs |}
  /\ st' = Ref.set_cursors st1
             (Ref.cursors st1 ++ [Ref.JoinCursor (m_db tbl) srcs.*1.*1 O])
  /\ srcs <> []
  /\ same_sources h h'
  /\ (forall p s, p ∈ lst -> Ref.source_of st (m_db tbl) h p = Some s ->
        Ref.matched st s = true -> m_isset <$> h' !! p = Some true).
Proof.
  intros Hm Hj st1. unfold recordset_join in Hj.
  destruct (ref_join_sources (m_db tbl) lst h st true [] srcs Hm)
    as (h1 & Hloop & Hs & Hsh & Hmono & Hset).
  rewrite Hloop in Hj. simpl in Hj.
  change (@DB_join Ref.engine) with Ref.join in Hj. unfold Ref.join in Hj.
  unfold EINVAL in Hj.
  destruct srcs as [| s0 srcs']; [simpl in Hj; discriminate |].
  simpl in Hj. fold st1 in Hj.
  match type of Hj with
  | context [if ?b then (0, _, _) else _] => destruct b
  end; [| simpl in Hj; discriminate].
  simpl in Hj. injection Hj as <- <- <-.
  repeat split; auto.
  intros p s Hp Hsrc Hmat.
  apply list_elem_of_lookup in Hp as [i Hi].
  apply mapM_Some_1 in Hm.
  destruct (Forall2_lookup_l _ _ _ _ _ Hm Hi) as (s' & Hs' & Hsrc').
  assert (s' = s) as -> by congruence. eauto.
Qed.

Section JoinProperties.
Context {K D : Type} `{MK : Message K} `{MD : Message D}.

(** C3. A join recordset built from single-key index recordsets over the
    indexes of one table yields, fetch after fetch, exactly the records of
    the table present in the range of every source, each once and in the
    order of the table, and then [false] for ever; no fetch throws.  When a
    source has no record under its key, or the ranges have no record in
    common, every fetch returns [false]. *)
Theorem join_fetches_intersection (st : Ref.state) (tbl : table)
    (lst : joinlist) (h : heap) (srcs : list (DBC * DB * DBT))
    (j : recordset) (h' : heap) (st' : Ref.state) :
  mapM (Ref.source_of st (m_db tbl) h) lst = Some srcs ->
  Ref.own_cursors srcs ->
  recordset_join tbl lst h st = (Ok j, h', st') ->
  (forall n,
     fetches (K:=K) (D:=D) n j st'
     = fetched n (Ref.join_result st tbl h lst)) /\
  (Exists (λ p, Ref.range_at st h p = []) lst
   \/ Ref.join_result st tbl h lst = [] ->
   forall n, fetches (K:=K) (D:=D) n j st' = replicate n (Ok None)).
Proof.
  intros Hm Hown Hj.
  assert (Hmain : forall n, fetches (K:=K) (D:=D) n j st'
                            = fetched n (Ref.join_result st tbl h lst)).
  { destruct (ref_recordset_join _ _ _ _ _ _ _ _ Hm Hj)
      as (-> & -> & Hne & Hs & Hset).
    set (st1 := foldl Ref.seek st srcs) in *.
    assert (Hdbs : Ref.dbs st1 = Ref.dbs st) by apply foldl_seek_dbs.
    intros n. destruct (forallb (Ref.matched st) srcs) eqn:Hall.
    - (* every source has a record under its key *)
      destruct srcs as [| [[c0 d0] k0] others]; [congruence |].
      set (srcs := (c0, d0, k0) :: others) in *.
      set (st' := Ref.set_cursors st1 _).
      assert (Hpos : mapM (Ref.source st') srcs.*1.*1
                     = Some ((λ s, (s.1.2, s.2, O)) <$> srcs)).
      { rewrite <- list_fmap_compose.
        apply (mapM_fmap_elem (Ref.source st') (λ s, s.1.1)).
        intros s Hs'. unfold Ref.source. subst st'. simpl.
        assert (Hc : Ref.cursors st1 !! s.1.1
                     = Some (Ref.Cursor s.1.2 (Some (s.2, O)))).
        { apply foldl_seek_positioned; auto.
          - apply (proj1 (forallb_forall _ _) Hall).
            now apply list_elem_of_In.
          - intros s' Hin.
            destruct (sources_origin _ _ _ _ _ _ Hm Hin) as (p & _ & Hp).
            destruct s' as [[c d] k].
            apply source_of_inv in Hp as (? & ? & ? & _ & _ & _ & _ & Hc & _).
            simpl. eauto. }
        rewrite lookup_app_l by (eapply lookup_lt_Some; eauto).
        now rewrite Hc. }
      rewrite (ref_join_fetches n O st' (length (Ref.cursors st1)) (m_db tbl)
                 srcs.*1.*1 d0 k0 ((λ s, (s.1.2, s.2, O)) <$> others));
        [| subst st'; simpl; apply list_lookup_middle; reflexivity
         | exact Hpos].
      f_equal. rewrite drop_0, (join_result_sources _ _ _ _ _ Hm).
      assert (Hd0 : Ref.dups_of st' d0 k0 = Ref.dups_of st d0 k0)
        by (apply dups_of_same_dbs; exact Hdbs).
      rewrite Hd0.
      assert (H0 : (c0, d0, k0) ∈ srcs) by constructor.
      destruct (sources_origin _ _ _ _ _ _ Hm H0) as (p0 & _ & Hp0).
      apply source_of_inv in Hp0
        as (rs0 & pos0 & s0 & _ & _ & _ & _ & _ & Hdb0 & Hprim0).
      assert (Hd0' : Ref.dups_of st d0 k0
                     = filter (λ x, Ref.skey_of s0 x = Some k0)
                              (Ref.records_of st (m_db tbl))).
      { unfold Ref.dups_of. now rewrite Hdb0, Hprim0. }
      rewrite Hd0' at 1.
      rewrite list_filter_filter. apply filter_ext_elem. intros x Hx.
      subst srcs. rewrite Forall_cons. simpl.
      rewrite in_all_Forall, Forall_fmap.
      assert (Hfirst : x ∈ Ref.dups_of st d0 k0 <-> Ref.skey_of s0 x = Some k0).
      { rewrite Hd0', list_elem_of_filter. tauto. }
      rewrite Hfirst.
      assert (Hrest : Forall (λ s, x ∈ Ref.dups_of st' s.1.2 s.2) others
                      <-> Forall (λ s, x ∈ Ref.dups_of st s.1.2 s.2) others).
      { apply Forall_proper; [| reflexivity]. intros s.
        now rewrite (dups_of_same_dbs st st') by exact Hdbs. }
      unfold compose. simpl. rewrite Hrest. tauto.
    - (* some source has none: the engine is never asked *)
      rewrite fetches_unset_join, (join_result_unmatched _ _ _ _ _ Hm Hall).
      now rewrite fetched_nil. }
  split; [exact Hmain |].
  intros Hempty n. rewrite Hmain.
  assert (Hnil : Ref.join_result st tbl h lst = []).
  { destruct Hempty as [Hex | Hnil]; [| exact Hnil].
    unfold Ref.join_result.
    induction (Ref.records_of st (m_db tbl)) as [| x l IH]; [reflexivity |].
    rewrite filter_cons_False; [exact IH |].
    intros Hall. apply Exists_exists in Hex as (p & Hp & Hr).
    rewrite Forall_forall in Hall. specialize (Hall p Hp).
    rewrite Hr in Hall. inversion Hall. }
  rewrite Hnil. apply fetched_nil.
Qed.
End JoinProperties.

(** *** Plain cursors: the first record and the next duplicate *)

Lemma insert_key_elem x k l : x ∈ Ref.insert_key k l <-> x = k \/ x ∈ l.
Proof.
  induction l as [| k' r IH]; simpl.
  - rewrite list_elem_of_singleton. split; [auto | intros [H | H]; [exact H | inversion H]].
  - destruct (String.eqb_spec k k') as [-> | Hne].
    + split; [auto | intros [-> | H]; [constructor | exact H]].
    + destruct (String.ltb k k').
      * rewrite elem_of_cons. tauto.
      * rewrite !elem_of_cons, IH. tauto.
Qed.

(** Every key of a database has a record filed under it. *)
Lemma keys_matched st d k : k ∈ Ref.keys_of st d -> Ref.dups_of st d k <> [].
Proof.
  unfold Ref.keys_of, Ref.dups_of.
  destruct (Ref.dbs st !! d) as [[r | s] |]; [| | intros H; inversion H].
  - intros Hk. apply list_elem_of_fmap in Hk as (x & -> & Hx).
    intros Hnil. exact (filter_nil_not_elem_of _ _ x Hnil eq_refl Hx).
  - intros Hk.
    assert (Hk' : k ∈ omap (Ref.skey_of s) (Ref.records_of st (Ref.s_primary s))).
    { revert Hk. generalize (omap (Ref.skey_of s)
                               (Ref.records_of st (Ref.s_primary s))).
      intros l. induction l as [| a l IH]; simpl; [intros H; inversion H |].
      rewrite insert_key_elem, elem_of_cons. intros [-> | H]; auto. }
    apply list_elem_of_omap in Hk' as (x & Hx & Hs).
    intros Hnil. exact (filter_nil_not_elem_of _ _ x Hnil Hs Hx).
Qed.

(** [pget] with [DB_FIRST] lands on the first record of the database,
    wherever the cursor was. *)
Lemma ref_pget_first st c d pos sk :
  Ref.cursors st !! c = Some (Ref.Cursor d pos) ->
  match head (Ref.contents st d) with
  | Some x =>
      exists k st2, Ref.pget c sk DB_FIRST st = (0, (k, x.1, x.2), st2)
  | None => Ref.pget c sk DB_FIRST st = (DB_NOTFOUND, Ref.no_entry, st)
  end.
Proof.
  intros Hc. unfold Ref.pget, Ref.contents. rewrite Hc.
  unfold Ref.move, Ref.first_pos.
  pose proof (keys_matched st d) as Hkeys.
  destruct (Ref.keys_of st d) as [| k0 keys]; simpl.
  - destruct pos; reflexivity.
  - assert (Hk0 : k0 ∈ k0 :: keys) by constructor.
    specialize (Hkeys k0 Hk0).
    unfold Ref.entry. simpl.
    destruct (Ref.dups_of st d k0) as [| x l]; [congruence |]. simpl.
    destruct pos; eauto.
Qed.

(** [pget] with [DB_NEXT_DUP] moves to the next duplicate of the key the
    cursor is on. *)
Lemma ref_pget_next_dup st c d k i sk :
  Ref.cursors st !! c = Some (Ref.Cursor d (Some (k, i))) ->
  Ref.pget c sk DB_NEXT_DUP st =
    match Ref.dups_of st d k !! S i with
    | Some x =>
        (0, (k, x.1, x.2),
         Ref.set_cursors st
           (<[c := Ref.Cursor d (Some (k, S i))]> (Ref.cursors st)))
    | None => (DB_NOTFOUND, Ref.no_entry, st)
    end.
Proof.
  intros Hc. unfold Ref.pget. rewrite Hc. simpl. unfold Ref.entry. simpl.
  destruct (Ref.dups_of st d k !! S i) as [x |] eqn:Hx; [| reflexivity].
  simpl. rewrite Hx. reflexivity.
Qed.

Section SingleKey.
Context `{E : Engine}.
Context {K D : Type} `{MK : Message K} `{MD : Message D}.

(** [fetch] on a single-key index recordset. *)
Lemma fetch_unique rs c key e :
  m_type rs = BDB_RS_UNIQUE -> m_cursor rs = Some c -> m_key rs = Some key ->
  fetch (K:=K) (D:=D) rs e =
    let '(res, (_, k, d), e1) :=
      DBC_pget c key (if negb (m_isset rs) then DB_SET else DB_NEXT_DUP) e in
    if res =? 0
    then (Ok (Some (unserialize k, unserialize d)), set_isset rs true, e1)
    else (Ok None, rs, e1).
Proof.
  intros Ht Hc Hk. unfold fetch, fetch_call. rewrite Ht, Hc, Hk. simpl.
  destruct (DBC_pget c key _ e) as [[res [[sk k] d]] e1]. reflexivity.
Qed.
End SingleKey.

Section RewindProperties.
Context {K D : Type} `{MK : Message K} `{MD : Message D}.

(** C6. [rewind] throws Unknown on a join recordset.  On a table, index or
    single-key index recordset it clears the flag and nothing else, so that
    the next [fetch] returns the first record of the recordset's range (or
    [false] when the range is empty), wherever the cursor stood. *)
Theorem rewind_restarts_from_first (rs : recordset) :
  (m_type rs = BDB_RS_JOIN -> rewind rs = Throw BDB_ERROR_UNKNOWN) /\
  (m_type rs = BDB_RS_TABLE \/ m_type rs = BDB_RS_DUPLICATES
   \/ m_type rs = BDB_RS_UNIQUE ->
   rewind rs = Ok (set_isset rs false) /\
   forall (st : Ref.state) c d pos,
     wf_recordset rs ->
     m_cursor rs = Some c ->
     Ref.cursors st !! c = Some (Ref.Cursor d pos) ->
     (fetch (K:=K) (D:=D) (set_isset rs false) st).1.1
     = Ok (unserialize_record <$> head (Ref.range st rs))).
Proof.
  split.
  - intros Ht. unfold rewind. now rewrite Ht.
  - intros Ht. split.
    + unfold rewind. destruct Ht as [-> | [-> | ->]]; reflexivity.
    + intros st c d pos [_ Hkey] Hc Hcur.
      unfold Ref.range. rewrite Hc. simpl. rewrite Hcur.
      destruct Ht as [Ht | [Ht | Ht]].
      * (* table *)
        unfold fetch, fetch_call. simpl. rewrite Ht, Hc. simpl.
        change (@DBC_get Ref.engine) with Ref.cget.
        unfold Ref.cget. rewrite Hcur.
        pose proof (ref_pget_first st c d pos EmptyString Hcur) as Hf.
        destruct (head (Ref.contents st d)) as [x |].
        -- destruct Hf as (k & st2 & ->). reflexivity.
        -- rewrite Hf. reflexivity.
      * (* index, all duplicates *)
        unfold fetch, fetch_call. simpl. rewrite Ht, Hc. simpl.
        change (@DBC_pget Ref.engine) with Ref.pget.
        pose proof (ref_pget_first st c d pos EmptyString Hcur) as Hf.
        destruct (head (Ref.contents st d)) as [x |].
        -- destruct Hf as (k & st2 & ->). reflexivity.
        -- rewrite Hf. reflexivity.
      * (* index, single key *)
        destruct (proj2 Hkey Ht) as [key Hk].
        rewrite (fetch_unique (E:=Ref.engine) (set_isset rs false) c key st Ht Hc Hk).
        simpl. change (@DBC_pget Ref.engine) with Ref.pget.
        rewrite (ref_pget_set st c d pos key Hcur), Ht, Hk. simpl.
        destruct (Ref.dups_of st d key) as [| x l]; reflexivity.
Qed.
End RewindProperties.

Section JoinSideEffects.
Context {K D : Type} `{MK : Message K} `{MD : Message D}.

(** C10. Constructing a join recordset changes the source recordsets it is
    given: a source with at least one record under its key has its cursor
    sent to the first of them and its flag set, whatever the flag was.  The
    next [fetch] on that source therefore continues with the second record
    of its range (or returns [false] if there is none), where a source not
    yet fetched would have returned the first. *)
Theorem join_repositions_sources (st : Ref.state) (tbl : table)
    (lst : joinlist) (h : heap) (srcs : list (DBC * DB * DBT))
    (j : recordset) (h' : heap) (st' : Ref.state)
    (p : nat) (rs : recordset) (c : DBC) (d : DB) (key : DBT)
    (r1 : DBT * DBT) (rest : list (DBT * DBT)) :
  mapM (Ref.source_of st (m_db tbl) h) lst = Some srcs ->
  Ref.own_cursors srcs ->
  recordset_join tbl lst h st = (Ok j, h', st') ->
  p ∈ lst ->
  h !! p = Some rs ->
  Ref.source_of st (m_db tbl) h p = Some (c, d, key) ->
  Ref.range st rs = r1 :: rest ->
  h' !! p = Some (set_isset rs true)
  /\ Ref.cursors st' !! c = Some (Ref.Cursor d (Some (key, O)))
  /\ (fetch_at (K:=K) (D:=D) p h' st').1.1
     = Ok (unserialize_record <$> head rest)
  /\ (m_isset rs = false ->
      (fetch_at (K:=K) (D:=D) p h st).1.1 = Ok (Some (unserialize_record r1))).
Proof.
  intros Hm Hown Hj Hp Hrs Hsrc Hrange.
  destruct (ref_recordset_join _ _ _ _ _ _ _ _ Hm Hj)
    as (_ & -> & Hne & Hs & Hset).
  set (st1 := foldl Ref.seek st srcs) in *.
  assert (Hdbs : Ref.dbs st1 = Ref.dbs st) by apply foldl_seek_dbs.
  pose proof (range_at_source _ _ _ _ _ _ _ Hsrc) as Hra.
  unfold Ref.range_at in Hra. rewrite Hrs, Hrange in Hra.
  assert (Hmat : Ref.matched st (c, d, key) = true).
  { unfold Ref.matched. simpl. now rewrite <- Hra. }
  destruct (source_of_inv _ _ _ _ _ _ _ Hsrc)
    as (rs0 & pos & s & Hp0 & Hc & Hk & Ht & Hcur & _).
  assert (rs0 = rs) as -> by congruence.
  (* the source after the construction *)
  assert (Hrs' : h' !! p = Some (set_isset rs true)).
  { specialize (Hset p _ Hp Hsrc Hmat). specialize (Hs p).
    rewrite Hrs in Hs. destruct (h' !! p) as [rs' |]; [| discriminate].
    simpl in *. f_equal. destruct rs', rs. simpl in *.
    unfold set_isset. simpl. congruence. }
  (* its cursor *)
  assert (Hin : (c, d, key) ∈ srcs).
  { destruct (sources_of_member _ _ _ _ _ _ Hm Hp) as (s' & Hs' & Hsrc').
    congruence. }
  assert (Hc1 : Ref.cursors st1 !! c = Some (Ref.Cursor d (Some (key, O)))).
  { apply (foldl_seek_positioned srcs st (c, d, key)); auto.
    intros s' Hs'.
    destruct (sources_origin _ _ _ _ _ _ Hm Hs') as (q & _ & Hq).
    destruct s' as [[c' d'] k'].
    apply source_of_inv in Hq as (? & ? & ? & _ & _ & _ & _ & Hc' & _).
    simpl. eauto. }
  set (st' := Ref.set_cursors st1 _).
  assert (Hc' : Ref.cursors st' !! c = Some (Ref.Cursor d (Some (key, O)))).
  { subst st'. simpl. rewrite lookup_app_l by (eapply lookup_lt_Some; eauto).
    exact Hc1. }
  repeat split; auto.
  - (* the next fetch on the source *)
    unfold fetch_at. rewrite Hrs'.
    rewrite (fetch_unique (E:=Ref.engine) (set_isset rs true) c key st' Ht Hc Hk).
    simpl. change (@DBC_pget Ref.engine) with Ref.pget.
    rewrite (ref_pget_next_dup st' c d key O key Hc').
    assert (Hd : Ref.dups_of st' d key = r1 :: rest).
    { rewrite Hra. apply dups_of_same_dbs. exact Hdbs. }
    rewrite Hd. simpl. rewrite <- head_lookup.
    destruct (head rest) as [x |]; reflexivity.
  - (* the fetch it would have answered before *)
    intros Hunset. unfold fetch_at. rewrite Hrs.
    rewrite (fetch_unique (E:=Ref.engine) rs c key st Ht Hc Hk), Hunset.
    simpl. change (@DBC_pget Ref.engine) with Ref.pget.
    rewrite (ref_pget_set st c d pos key Hcur), <- Hra. reflexivity.
Qed.
End JoinSideEffects.

(** * The reference engine: sequences *)

Lemma assoc_set_eq {A} k (v : A) l : Ref.assoc k (Ref.assoc_set k v l) = Some v.
Proof.
  induction l as [| [k' v'] r IH]; simpl.
  - now rewrite String.eqb_refl.
  - destruct (String.eqb k k') eqn:Hk; simpl.
    + now rewrite String.eqb_refl.
    + now rewrite Hk.
Qed.

(** A setter on the handle created last. *)
Lemma configure_last f l h st :
  Ref.seq_handles st = l ++ [h] -> Ref.q_key h = None ->
  Ref.configure f (length l) st
  = (0, Ref.set_seq_handles st (l ++ [f h])).
Proof.
  intros Hl Hk. unfold Ref.configure.
  rewrite Hl, list_lookup_middle by reflexivity. rewrite Hk.
  rewrite insert_app_r_alt by lia. rewrite Nat.sub_diag. reflexivity.
Qed.

(** Opening through the wrapper, on a state holding [l] handles. *)
Lemma ref_sequence_open db name create st :
  sequence.open db name create st =
    let q := length (Ref.seq_handles st) in
    let opened := Ref.seq_handles st ++ [Ref.SeqHandle true 0 1 (Some name)] in
    match Ref.assoc name (Ref.seqs st), create with
    | None, true =>
        (Ok (sequence.Sequence (Some q)),
         Ref.set_seqs (Ref.set_seq_handles st opened)
           (Ref.assoc_set name 1 (Ref.seqs st)))
    | Some _, false =>
        (Ok (sequence.Sequence (Some q)), Ref.set_seq_handles st opened)
    | Some _, true =>
        (Throw BDB_ERROR_EXISTS,
         Ref.set_seq_handles st
           (Ref.seq_handles st ++ [Ref.SeqHandle true 0 1 None]))
    | None, false =>
        (Throw BDB_ERROR_UNKNOWN,
         Ref.set_seq_handles st
           (Ref.seq_handles st ++ [Ref.SeqHandle true 0 1 None]))
    end.
Proof.
  unfold sequence.open. simpl. unfold Ref.sequence_create.
  set (l := Ref.seq_handles st).
  unfold and_then. simpl.
  unfold Ref.set_flags_INC.
  erewrite configure_last by (simpl; reflexivity). simpl.
  unfold Ref.set_cachesize.
  erewrite configure_last by (simpl; reflexivity). simpl.
  unfold Ref.initial_value.
  erewrite configure_last by (simpl; reflexivity). simpl.
  unfold Ref.sopen. simpl. rewrite list_lookup_middle by reflexivity.
  simpl. rewrite insert_app_r_alt by lia. rewrite Nat.sub_diag. simpl.
  destruct (Ref.assoc name (Ref.seqs st)) as [v |], create; simpl;
    try reflexivity.
  - unfold Ref.sclose. simpl.
    rewrite (alter_app_r_alt _ l) by lia. rewrite Nat.sub_diag. reflexivity.
  - unfold Ref.sclose. simpl.
    rewrite (alter_app_r_alt _ l) by lia. rewrite Nat.sub_diag. reflexivity.
Qed.

(** One call of [id] on an open sequence below its upper bound. *)
Lemma ref_sequence_id db s name st v :
  opened_as st s name ->
  Ref.assoc name (Ref.seqs st) = Some v -> v <= Ref.INT64_MAX ->
  sequence.id db s st
  = (Ok v, Ref.set_seqs st (Ref.assoc_set name (v + 1) (Ref.seqs st))).
Proof.
  intros (q & ini & Hq & Hh) Hv Hmax. unfold sequence.id. rewrite Hq. simpl.
  unfold Ref.sget. rewrite Hh. simpl. rewrite Hv. simpl.
  destruct (Z.ltb_spec Ref.INT64_MAX (v + 1 - 1)) as [Hlt | _]; [lia |].
  reflexivity.
Qed.

Lemma ref_sequence_ids db s name n : forall st v,
  opened_as st s name ->
  Ref.assoc name (Ref.seqs st) = Some v ->
  v + Z.of_nat n - 1 <= Ref.INT64_MAX ->
  exists st',
    sequence.ids n db s st
    = ((λ i, Ok (v + Z.of_nat i)) <$> seq 0 n, st')
    /\ opened_as st' s name
    /\ Ref.assoc name (Ref.seqs st') = Some (v + Z.of_nat n).
Proof.
  induction n as [| n IH]; intros st v Hop Hv Hmax.
  - exists st. simpl. rewrite Z.add_0_r. auto.
  - simpl. rewrite (ref_sequence_id db s name st v Hop Hv) by lia.
    destruct (IH (Ref.set_seqs st (Ref.assoc_set name (v + 1) (Ref.seqs st)))
                 (v + 1)) as (st' & Hids & Hop' & Hv').
    + exact Hop.
    + simpl. apply assoc_set_eq.
    + lia.
    + exists st'. rewrite Hids. split; [| split; [exact Hop' |]].
      * f_equal. simpl. rewrite Z.add_0_r. f_equal.
        rewrite <- fmap_S_seq, <- list_fmap_compose.
        apply list_fmap_ext. intros _ i _. simpl. f_equal. lia.
      * rewrite Hv'. f_equal. lia.
Qed.

(** * The scenario of the test program *)

Section ScenarioChecks.
Import Scenario.
Local Open Scope string_scope.

(** Inserting the four months one by one files them in key order. *)
Example insert_four_months :
  foldl (λ st kv, (table_insert db tmonth kv.1 kv.2 st).2) empty
        [("September", "Autumn,30,9"); ("April", "Spring,30,4");
         ("November", "Autumn,30,11"); ("June", "Summer,30,6")]
  = four_months.
Proof. reflexivity. Qed.

(** "Try to insert new record with absent foreign key." *)
Example insert_absent_foreign_key :
  (table_insert db tmonth "January" "Winter,31,1" four_months).1
  = Throw BDB_ERROR_FOREIGN_KEY.
Proof. reflexivity. Qed.

(** "Try to insert existing record." *)
Example insert_existing_record :
  (table_insert db tmonth "June" "Summer,30,6" four_months).1
  = Throw BDB_ERROR_EXISTS.
Proof. reflexivity. Qed.

(** "Try to insert new record with conflicting key in unique index." *)
Example insert_conflicting_unique :
  (table_insert db tmonth "Sept" "Autumn,30,9" four_months).1
  = Throw BDB_ERROR_EXISTS.
Proof. reflexivity. Qed.

(** "Check that record in the second index exists." *)
Example index_record_exists :
  index_exists db idays "30" four_months = true
  /\ index_exists db idays "32" four_months = false.
Proof. split; reflexivity. Qed.

(** "Try to update existing record with absent foreign key." *)
Example update_absent_foreign_key :
  (table_update db tmonth "June" "Winter,30,6" four_months).1
  = Throw BDB_ERROR_FOREIGN_KEY.
Proof. reflexivity. Qed.

(** "Check recordset gained from index with filter": two fetches, a rewind,
    and the four months of thirty days from the first again. *)
Example fetch_rewind_fetch :
  let '(_, rs2, st2) :=
    fetch (K:=string) (D:=string) (days "30") two_cursors in
  let '(_, rs3, st3) := fetch (K:=string) (D:=string) rs2 st2 in
  match rewind rs3 with
  | Ok rs4 =>
      fetches (K:=string) (D:=string) 5 rs4 st3
      = [Ok (Some ("April", "Spring,30,4")); Ok (Some ("June", "Summer,30,6"));
         Ok (Some ("November", "Autumn,30,11"));
         Ok (Some ("September", "Autumn,30,9")); Ok None]
  | _ => False
  end.
Proof. reflexivity. Qed.

(** "Try to join when at least one recordset is empty." *)
Example join_with_empty_source :
  match recordset_join tmonth [0; 1]%nat [autumn; days "32"] two_cursors with
  | (Ok j, _, st) =>
      fetches (K:=string) (D:=string) 3 j st = [Ok None; Ok None; Ok None]
  | _ => False
  end.
Proof. reflexivity. Qed.

(** Nested transactions: the stack grows on begin and shrinks on commit and
    rollback; the top-level transaction cannot be committed. *)
Example begin_commit_rollback :
  match begin_transaction db empty with
  | (Ok db1, st1) =>
      m_txns db1 = [1; 0]%nat
      /\ (commit_transaction db1 st1).1 = (Ok tt, db)
      /\ (rollback_transaction db1 st1).1 = (Ok tt, db)
      /\ (commit_transaction db empty).1.1 = Throw BDB_ERROR_NOT_FOUND
  | _ => False
  end.
Proof. repeat split; reflexivity. Qed.
End ScenarioChecks.

(** * Instances on the scenario *)

Section ScenarioInstances.
Import Scenario.
Local Open Scope string_scope.

(** The round trip on the reference engine: October is inserted into the
    four months, then found and read back. *)
Lemma insert_then_select_roundtrip_october :
  let st := (table_insert db tmonth "October" "Autumn,31,10" four_months).2 in
  table_exists db tmonth "October" st = true
  /\ table_select db tmonth "October" st = Ok "Autumn,31,10".
Proof.
  apply (insert_then_select_roundtrip (E:=Ref.engine) ref_put_get db tmonth
           "October" "Autumn,31,10" four_months); reflexivity.
Defined.

(** Updating June overwrites its data. *)
Lemma update_probes_then_overwrites_june :
  let r := table_update db tmonth "June" "Summer,31,6" four_months in
  r.1 = Ok tt /\ table_select db tmonth "June" r.2 = Ok "Summer,31,6".
Proof.
  pose proof (update_probes_then_overwrites (E:=Ref.engine) ref_put_get db
                tmonth "June" "Summer,31,6" four_months eq_refl) as H.
  cbv zeta in H. destruct H as (_ & _ & H & _).
  apply H; reflexivity.
Defined.

(** The nested transaction is popped and committed; the top-level one is
    refused. *)
Lemma commit_rollback_pop_top_nested :
  commit_transaction nested.1 nested.2
  = (Ok tt, db, (Ref.commit 1 nested.2).2)
  /\ rollback_transaction nested.1 nested.2
     = (Ok tt, db, (Ref.abort 1 nested.2).2)
  /\ commit_transaction db empty = (Throw BDB_ERROR_NOT_FOUND, db, empty)
  /\ rollback_transaction db empty = (Throw BDB_ERROR_NOT_FOUND, db, empty).
Proof.
  destruct (commit_rollback_pop_top (E:=Ref.engine) nested.1 nested.2)
    as [_ Hpop].
  destruct (commit_rollback_pop_top (E:=Ref.engine) db empty) as [Htop _].
  destruct (Hpop 1%nat 0%nat [] eq_refl) as [Hc Ha].
  destruct (Htop 0%nat eq_refl) as [Hc0 Ha0].
  exact (conj Hc (conj Ha (conj Hc0 Ha0))).
Defined.

(** After two fetches and a rewind the thirty-day months start with April
    again. *)
Lemma rewind_restarts_from_first_days_30 :
  rewind days_30_fetched.1 = Ok (days "30")
  /\ (fetch (K:=string) (D:=string) (days "30") days_30_fetched.2).1.1
     = Ok (Some ("April", "Spring,30,4")).
Proof.
  destruct (rewind_restarts_from_first (K:=string) (D:=string)
              days_30_fetched.1) as [_ H].
  destruct (H (or_intror (or_intror eq_refl))) as [Hr Hf].
  split; [exact Hr |].
  apply (Hf days_30_fetched.2 1%nat 3%nat (Some ("30", 1%nat))).
  - split; [eexists; reflexivity |].
    split; [reflexivity | intros _; eexists; reflexivity].
  - reflexivity.
  - reflexivity.
Defined.

(** C2. The failing input: the only index of the table declines the record
    with the non-zero value [EINVAL] (bdb.h: "a non-zero value if index
    should not contain a record"), the engine fails the write with that
    status, and [insert] throws AlreadyExists although the key is new, no
    unique index exists and no foreign key is involved: a failure that is
    neither a duplicate key nor a collision, which the contract of [insert]
    reports as Unknown.  [update], given the same status by the same index,
    throws Unknown. *)
Lemma insert_exists_without_duplicate :
  (table_insert db (Table "t" 0) "June" "Summer,30,6" declined).1
  = Throw BDB_ERROR_EXISTS
  /\ (table_update db (Table "t" 0) "June" "Summer,31,6" declined_stored).1
     = Throw BDB_ERROR_UNKNOWN
  /\ (Ref.put 0 0%nat "June" "Summer,30,6" DB_NOOVERWRITE declined).1
     = EINVAL
  /\ ~ Ref.key_present declined 0 "June"
  /\ ~ Ref.unique_collision declined 0 "June" "Summer,30,6"
  /\ ~ Ref.foreign_conflict declined 0 "June" "Summer,30,6".
Proof.
  split; [reflexivity |]. split; [reflexivity |]. split; [reflexivity |].
  split; [| split].
  - intros H. inversion H.
  - intros H. apply Exists_cons in H as [[H _] | H];
      [discriminate | inversion H].
  - intros H. apply Exists_cons in H as [(sk & m & H & _) | H];
      [discriminate | inversion H].
Qed.

(** A join list holding a table recordset is rejected. *)
Lemma join_rejects_table_recordset :
  let r := recordset_join tmonth [0; 1]%nat
             [autumn; {| m_cursor := Some 1%nat; m_key := None;
                         m_type := BDB_RS_TABLE; m_isset := false |}]
             two_cursors in
  r.1.1 = Throw BDB_ERROR_UNKNOWN
  /\ BDB_ERROR_UNKNOWN = 1
  /\ forall j, r.1.1 <> Ok j.
Proof.
  apply (join_rejects_other_kinds (E:=Ref.engine)).
  - repeat constructor; eexists; (split; [reflexivity |]);
      (split; [eexists; reflexivity |]);
      (split; [intros [k Hk] | intros Ht]; try discriminate; eauto).
  - apply Exists_cons_tl, Exists_cons_hd. eexists. split; [reflexivity |].
    discriminate.
Defined.

Lemma sources_own_cursors : Ref.own_cursors sources.
Proof.
  intros s s' Hs Hs' Heq. unfold sources in *.
  repeat (apply elem_of_cons in Hs as [-> | Hs]); try (inversion Hs);
    repeat (apply elem_of_cons in Hs' as [-> | Hs']); try (inversion Hs');
    try reflexivity; discriminate.
Qed.

(** "Join several recordsets": the months of autumn with thirty days. *)
Lemma join_fetches_intersection_autumn_30 :
  fetches (K:=string) (D:=string) 4 joined.1.1 joined.2
  = [Ok (Some ("November", "Autumn,30,11"));
     Ok (Some ("September", "Autumn,30,9")); Ok None; Ok None].
Proof.
  destruct (join_fetches_intersection (K:=string) (D:=string) two_cursors
              tmonth [0; 1]%nat [autumn; days "30"] sources
              joined.1.1 joined.1.2 joined.2
              eq_refl sources_own_cursors eq_refl) as [H _].
  rewrite (H 4%nat). reflexivity.
Defined.

(** After the join has been built, the recordset of the thirty-day months
    continues with June; before, it started with April. *)
Lemma join_repositions_sources_days_30 :
  joined.1.2 !! 1%nat = Some (set_isset (days "30") true)
  /\ Ref.cursors joined.2 !! 1%nat
     = Some (Ref.Cursor 3 (Some ("30", O)))
  /\ (fetch_at (K:=string) (D:=string) 1 joined.1.2 joined.2).1.1
     = Ok (Some ("June", "Summer,30,6"))
  /\ (fetch_at (K:=string) (D:=string) 1 [autumn; days "30"] two_cursors).1.1
     = Ok (Some ("April", "Spring,30,4")).
Proof.
  assert (Hp : 1%nat ∈ [0; 1]%nat) by (constructor; constructor).
  destruct (join_repositions_sources (K:=string) (D:=string) two_cursors
              tmonth [0; 1]%nat [autumn; days "30"] sources
              joined.1.1 joined.1.2 joined.2 1%nat (days "30") 1%nat 3%nat "30"
              ("April", "Spring,30,4")
              [("June", "Summer,30,6"); ("November", "Autumn,30,11");
               ("September", "Autumn,30,9")]
              eq_refl sources_own_cursors eq_refl Hp eq_refl eq_refl eq_refl)
    as (H1 & H2 & H3 & H4).
  exact (conj H1 (conj H2 (conj H3 (H4 eq_refl)))).
Defined.
End ScenarioInstances.

(** * Further properties: deleting records *)

Section RemoveProperties.
Context `{DD : EngineData}.
Context {K D : Type} `{MK : Message K} `{MD : Message D}.

(** X1. [table::remove] translates the status of the engine's [del]: it
    returns normally exactly on [0], throws NotFound exactly on
    [DB_NOTFOUND], ForeignKeyViolation exactly on [DB_FOREIGN_CONFLICT] and
    Unknown on every other status; the engine state is the one [del] left. *)
Theorem remove_translates_del_status (db : database) (t : table) (key : K)
    (e : env) :
  let w := DB_del (m_db t) (top (m_txns db)) (serialize key) e in
  let r := table_remove db t key e in
  (r.1 = Ok tt <-> w.1 = 0) /\
  (r.1 = Throw BDB_ERROR_NOT_FOUND <-> w.1 = DB_NOTFOUND) /\
  (r.1 = Throw BDB_ERROR_FOREIGN_KEY <-> w.1 = DB_FOREIGN_CONFLICT) /\
  (r.1 = Throw BDB_ERROR_UNKNOWN <->
     w.1 <> 0 /\ w.1 <> DB_NOTFOUND /\ w.1 <> DB_FOREIGN_CONFLICT) /\
  r.2 = w.2.
Proof.
  intros w r. subst r. unfold table_remove. fold w.
  destruct w as [res e1]. simpl.
  status_cases; subst;
    repeat split; intros; try discriminate; try congruence;
    unfold DB_NOTFOUND, DB_FOREIGN_CONFLICT in *;
    try lia; intuition (try discriminate; try lia).
Qed.

(** X2. What the operations of a table never throw, whatever the engine
    answers: [update] never AlreadyExists (the status [EINVAL], which
    [insert] reports as AlreadyExists, is Unknown to [update]), [insert]
    never NotFound, [remove] never AlreadyExists, [select] neither
    AlreadyExists nor ForeignKeyViolation. *)
Theorem table_error_surface (db : database) (t : table) (key : K) (data : D)
    (e : env) :
  (table_update db t key data e).1 <> Throw BDB_ERROR_EXISTS
  /\ (DB_exists (m_db t) (top (m_txns db)) (serialize key) e = 0 ->
      (DB_put (m_db t) (top (m_txns db)) (serialize key) (serialize data)
              PUT_0 e).1 = EINVAL ->
      (table_update db t key data e).1 = Throw BDB_ERROR_UNKNOWN)
  /\ (table_insert db t key data e).1 <> Throw BDB_ERROR_NOT_FOUND
  /\ (table_remove db t key e).1 <> Throw BDB_ERROR_EXISTS
  /\ table_select (D:=D) db t key e <> Throw BDB_ERROR_EXISTS
  /\ table_select (D:=D) db t key e <> Throw BDB_ERROR_FOREIGN_KEY.
Proof.
  unfold table_update, table_insert, table_remove, table_select.
  destruct (DB_put _ _ _ _ PUT_0 e) as [ru eu].
  destruct (DB_put _ _ _ _ DB_NOOVERWRITE e) as [ri ei].
  destruct (DB_del _ _ _ e) as [rd ed].
  destruct (DB_get _ _ _ e) as [rg dg].
  repeat split; try intros Hp; try intros Hw; simpl in *; subst;
    status_cases; try discriminate; try congruence.
Qed.

(** X3. After [remove (K)] has returned normally the key is gone for the
    other operations: [exists (K)] is [false], [select (K)] and
    [update (K, _)] throw NotFound, and that [update] leaves the engine
    untouched - for an engine whose delete makes the key absent. *)
Theorem remove_then_absent (L : del_law) (db : database) (t : table)
    (key : K) (data : D) (e e' : env) :
  table_remove db t key e = (Ok tt, e') ->
  table_exists db t key e' = false
  /\ table_select (D:=D) db t key e' = Throw BDB_ERROR_NOT_FOUND
  /\ table_update db t key data e' = (Throw BDB_ERROR_NOT_FOUND, e').
Proof.
  unfold table_remove.
  destruct (DB_del _ _ _ e) as [res e1] eqn:Hd.
  destruct (Z.eqb_spec res 0) as [-> | Hnz]; simpl;
    [| status_cases; discriminate].
  intros [= <-]. destruct (L _ _ _ _ _ Hd) as [Hget Hex].
  unfold table_exists, table_select, table_update. rewrite Hex.
  destruct (DB_get _ _ _ e1) as [rg dg]. simpl in Hget. subst rg.
  repeat split.
Qed.
End RemoveProperties.

(** A delete that succeeds ends by deleting the record from its table. *)
Lemma ref_del_dbs_ok fuel d k dbs dbs' :
  RefData.del_dbs fuel d k dbs = (0, dbs') ->
  exists dbs1 recs1,
    dbs1 !! d = Some (Ref.Primary recs1)
    /\ dbs' = <[d := Ref.Primary (filter (λ x, x.1 ≠ k) recs1)]> dbs1.
Proof.
  destruct fuel as [| fuel]; simpl; [discriminate |].
  destruct (dbs !! d) as [[recs | s] |]; try discriminate.
  destruct (bool_decide (k ∈ recs.*1)); [| discriminate].
  destruct (RefData.release_all _ d k dbs) as [res dbs1].
  destruct (res =? 0) eqn:Hres; simpl; [| intros [= H]; subst; discriminate].
  destruct (dbs1 !! d) as [[recs1 | s] |] eqn:Hd; try discriminate.
  intros [= <-]. eauto.
Qed.

Lemma ref_del_ok d t k st st' :
  RefData.del d t k st = (0, st') ->
  exists dbs1 recs1,
    dbs1 !! d = Some (Ref.Primary recs1)
    /\ st' = Ref.set_dbs st
               (<[d := Ref.Primary (filter (λ x, x.1 ≠ k) recs1)]> dbs1).
Proof.
  unfold RefData.del.
  destruct (RefData.del_dbs _ d k (Ref.dbs st)) as [res dbs'] eqn:Hdel.
  destruct (Z.eqb_spec res 0) as [-> | Hne];
    [| intros [= H]; subst; contradiction].
  intros [= <-].
  destruct (ref_del_dbs_ok _ _ _ _ _ Hdel) as (dbs1 & recs1 & Hd & ->).
  eauto.
Qed.

(** The reference engine keeps the contract of delete. *)
Lemma ref_del_law : @del_law Ref.engine RefData.data.
Proof.
  intros d t k e e' Hdel. simpl in *.
  apply ref_del_ok in Hdel as (dbs1 & recs & Hd & ->).
  assert (Hget : Ref.get d t k
            (Ref.set_dbs e
               (<[d := Ref.Primary (filter (λ x, x.1 ≠ k) recs)]> dbs1))
          = (DB_NOTFOUND, EmptyString)).
  { unfold Ref.get, Ref.dups_of. simpl.
    rewrite list_lookup_insert_eq by (eapply lookup_lt_Some; eauto).
    rewrite list_filter_filter.
    assert (Hnil : filter (λ x : DBT * DBT, x.1 = k ∧ x.1 ≠ k) recs = []).
    { clear. induction recs as [| a r IH]; [reflexivity |].
      rewrite filter_cons_False by tauto. exact IH. }
    now rewrite Hnil. }
  split; [now rewrite Hget |]. unfold Ref.exists_. now rewrite Hget.
Qed.

(** * Further properties: the stack of transactions *)

Section TransactionProperties.
Context `{E : Engine}.

(** X4. [begin_transaction] throws nothing but Unknown; when it returns, the
    stack has grown by exactly one transaction, and [commit_transaction] or
    [rollback_transaction] called next gives back the database as it was
    before, whether the engine's finalize call succeeds or not. *)
Theorem begin_then_finalize_restores (db db1 : database) (e e1 : env) :
  m_txns db <> [] ->
  (forall err, (begin_transaction db e).1 = Throw err ->
               err = BDB_ERROR_UNKNOWN) /\
  (begin_transaction db e = (Ok db1, e1) ->
   (exists txn, m_txns db1 = txn :: m_txns db)
   /\ (commit_transaction db1 e1).1.2 = db
   /\ (rollback_transaction db1 e1).1.2 = db
   /\ (commit_transaction db1 e1).1.1 <> Throw BDB_ERROR_NOT_FOUND
   /\ (rollback_transaction db1 e1).1.1 <> Throw BDB_ERROR_NOT_FOUND).
Proof.
  intros Hne. unfold begin_transaction.
  destruct (txn_begin _ _ e) as [[res txn] eb].
  destruct (res =? 0).
  - split; [intros err; discriminate |].
    intros [= <- <-]. destruct db as [v s txns]. simpl in *.
    destruct txns as [| t0 rest]; [congruence |].
    split; [eauto |].
    unfold commit_transaction, rollback_transaction, set_txns. simpl.
    destruct (txn_commit _ eb) as [rc ec], (txn_abort _ eb) as [ra ea].
    destruct (rc =? 0), (ra =? 0); simpl; repeat split; discriminate.
  - split; [| destruct txn; discriminate].
    intros err. destruct txn; simpl; now intros [= <-].
Qed.

(** X5. Whatever sequence of begin, commit and rollback a caller performs,
    going on after every exception, and whatever the engine answers: the
    stack never becomes empty, its bottom - the top-level transaction - stays
    the same, no operation is undefined, and only NotFound and Unknown are
    thrown. *)
Theorem top_level_transaction_stays (ops : list txn_op) (db : database)
    (e : env) :
  m_txns db <> [] ->
  let '(rs, db', e') := txn_run ops db e in
  m_txns db' <> []
  /\ last (m_txns db') = last (m_txns db)
  /\ m_env db' = m_env db /\ m_seq db' = m_seq db
  /\ Forall (λ r, r = Ok tt \/ r = Throw BDB_ERROR_NOT_FOUND
                  \/ r = Throw BDB_ERROR_UNKNOWN) rs.
Proof.
  revert db e. induction ops as [| op rest IH]; intros db e Hne.
  - simpl. auto.
  - simpl.
    assert (Hstep : let '(r, db1, e1) := txn_step op db e in
              m_txns db1 <> [] /\ last (m_txns db1) = last (m_txns db)
              /\ m_env db1 = m_env db /\ m_seq db1 = m_seq db
              /\ (r = Ok tt \/ r = Throw BDB_ERROR_NOT_FOUND
                  \/ r = Throw BDB_ERROR_UNKNOWN)).
    { destruct db as [v s txns]. simpl in Hne.
      destruct txns as [| t0 more]; [congruence |].
      destruct op; simpl.
      - unfold begin_transaction. simpl.
        destruct (txn_begin _ _ e) as [[res txn] eb].
        destruct (res =? 0); simpl.
        + repeat split; auto; try discriminate.
        + destruct txn; simpl; repeat split; auto; try discriminate.
      - unfold commit_transaction. simpl.
        destruct more as [| t1 more']; simpl.
        + repeat split; auto; try discriminate.
        + destruct (txn_commit t0 e) as [rc ec].
          destruct (rc =? 0); simpl; repeat split; auto; try discriminate.
      - unfold rollback_transaction. simpl.
        destruct more as [| t1 more']; simpl.
        + repeat split; auto; try discriminate.
        + destruct (txn_abort t0 e) as [ra ea].
          destruct (ra =? 0); simpl; repeat split; auto; try discriminate. }
    destruct (txn_step op db e) as [[r db1] e1].
    destruct Hstep as (Hne1 & Hlast1 & Hv1 & Hs1 & Hr).
    specialize (IH db1 e1 Hne1).
    destruct (txn_run rest db1 e1) as [[rs db2] e2].
    destruct IH as (Hne2 & Hlast2 & Hv2 & Hs2 & Hrs).
    repeat split; try congruence. constructor; assumption.
Qed.
End TransactionProperties.

(** * Further properties: sessions on the reference engine *)

(** A write reads and changes the stored databases only. *)
Lemma ref_put_same_dbs d t t' k v fl st st' :
  Ref.dbs st = Ref.dbs st' ->
  (Ref.put d t k v fl st).1 = (Ref.put d t' k v fl st').1
  /\ Ref.dbs (Ref.put d t k v fl st).2 = Ref.dbs (Ref.put d t' k v fl st').2
  /\ Ref.txns (Ref.put d t k v fl st).2 = Ref.txns st.
Proof.
  intros H.
  unfold Ref.put, Ref.secondaries_of, Ref.secondary_status,
    Ref.foreign_status, Ref.records_of.
  rewrite H.
  destruct (Ref.dbs st' !! d) as [[recs | s] |]; simpl; auto.
  destruct (match fl with
            | PUT_0 => false
            | DB_NOOVERWRITE => bool_decide (k ∈ recs.*1)
            end); simpl; auto.
  destruct (negb _); simpl; auto.
Qed.

Lemma ref_del_same_dbs d t t' k st st' :
  Ref.dbs st = Ref.dbs st' ->
  (RefData.del d t k st).1 = (RefData.del d t' k st').1
  /\ Ref.dbs (RefData.del d t k st).2 = Ref.dbs (RefData.del d t' k st').2
  /\ Ref.txns (RefData.del d t k st).2 = Ref.txns st.
Proof.
  intros H. unfold RefData.del. rewrite H.
  destruct (RefData.del_dbs _ d k (Ref.dbs st')) as [res dbs1].
  destruct (res =? 0); simpl; auto.
Qed.

Lemma ref_exists_same_dbs d t t' k st st' :
  Ref.dbs st = Ref.dbs st' -> Ref.exists_ d t k st = Ref.exists_ d t' k st'.
Proof.
  intros H. unfold Ref.exists_, Ref.get, Ref.dups_of, Ref.records_of.
  now rewrite H.
Qed.

Lemma ref_write_same_dbs db db' st st' w :
  Ref.dbs st = Ref.dbs st' ->
  Ref.dbs (ref_write db st w) = Ref.dbs (ref_write db' st' w)
  /\ Ref.txns (ref_write db st w) = Ref.txns st.
Proof.
  intros H. destruct w as [t k v | t k v | t k]; simpl.
  - unfold table_insert. simpl.
    change (@DB_put Ref.engine) with Ref.put.
    destruct (ref_put_same_dbs (m_db t) (top (m_txns db)) (top (m_txns db'))
                k v DB_NOOVERWRITE st st' H) as (H1 & H2 & H3).
    destruct (Ref.put _ (top (m_txns db)) _ _ _ st) as [r e1].
    destruct (Ref.put _ (top (m_txns db')) _ _ _ st') as [r' e1'].
    simpl in *. subst r'. split.
    + status_cases; assumption.
    + status_cases; assumption.
  - unfold table_update. simpl.
    change (@DB_put Ref.engine) with Ref.put.
    change (@DB_exists Ref.engine) with Ref.exists_.
    rewrite (ref_exists_same_dbs (m_db t) (top (m_txns db)) (top (m_txns db'))
               k st st' H).
    destruct (negb _); simpl; [auto |].
    destruct (ref_put_same_dbs (m_db t) (top (m_txns db)) (top (m_txns db'))
                k v PUT_0 st st' H) as (H1 & H2 & H3).
    destruct (Ref.put _ (top (m_txns db)) _ _ _ st) as [r e1].
    destruct (Ref.put _ (top (m_txns db')) _ _ _ st') as [r' e1'].
    simpl in *. subst r'. split; status_cases; assumption.
  - unfold table_remove. simpl.
    change (@DB_del Ref.engine RefData.data) with RefData.del.
    destruct (ref_del_same_dbs (m_db t) (top (m_txns db)) (top (m_txns db'))
                k st st' H) as (H1 & H2 & H3).
    destruct (RefData.del _ (top (m_txns db)) _ st) as [r e1].
    destruct (RefData.del _ (top (m_txns db')) _ st') as [r' e1'].
    simpl in *. subst r'. split; status_cases; assumption.
Qed.

Lemma linked_same_txns st st' nested snaps :
  Ref.txns st' = Ref.txns st -> linked st nested snaps ->
  linked st' nested snaps.
Proof.
  intros H [Hnd Hall]. split; [exact Hnd |].
  eapply Forall2_impl; [exact Hall |]. simpl. intros t snap. now rewrite H.
Qed.

(** Resolving the transaction on top of the stack leaves the ones below
    linked. *)
Lemma linked_resolve st st' t rest snap snaps :
  linked st (t :: rest) (snap :: snaps) ->
  Ref.txns st' = Ref.txns st ->
  linked (Ref.resolve t st') rest snaps.
Proof.
  intros [Hnd Hall] Htx. apply NoDup_cons in Hnd as [Hnotin Hnd].
  apply Forall2_cons in Hall as [_ Hall]. split; [exact Hnd |].
  revert Hnotin. clear Hnd.
  induction Hall as [| t' snap' rest' snaps' (x & Hx & Hl & Hs) _ IH];
    intros Hnotin; constructor.
  - exists x. unfold Ref.resolve. simpl. rewrite Htx.
    rewrite list_lookup_alter_ne; [auto |].
    intros ->. apply Hnotin. constructor.
  - apply IH. intros Hin. apply Hnotin. now constructor.
Qed.

(** One action keeps the stack of the wrapper linked with the snapshots. *)
Lemma ref_act_linked a db st t0 nested snaps :
  m_txns db = nested ++ [t0] -> linked st nested snaps ->
  let s := ref_act (db, st) a in
  let ab := snap_act (Ref.dbs st, snaps) a in
  exists nested',
    m_txns s.1 = nested' ++ [t0] /\ linked s.2 nested' ab.2
    /\ Ref.dbs s.2 = ab.1
    /\ m_env s.1 = m_env db /\ (m_seq s.1 = m_seq db :> DB).
Proof.
  intros Hst Hl. destruct a as [[| |] | w]; simpl.
  - (* begin *)
    unfold begin_transaction. simpl. unfold Ref.begin_. simpl.
    exists (length (Ref.txns st) :: nested). simpl.
    rewrite Hst. repeat split; auto.
    + destruct Hl as [Hnd Hall]. apply NoDup_cons. split; [| exact Hnd].
      intros Hin. apply list_elem_of_lookup in Hin as [i Hi].
      destruct (Forall2_lookup_l _ _ _ _ _ Hall Hi) as (snap & _ & x & Hx & _).
      apply lookup_lt_Some in Hx. lia.
    + constructor.
      * eexists. split; [apply list_lookup_middle; reflexivity |]. auto.
      * destruct Hl as [_ Hall]. eapply Forall2_impl; [exact Hall |].
        simpl. intros t snap (x & Hx & Hr). exists x. split; [| exact Hr].
        apply lookup_app_l_Some. exact Hx.
  - (* commit *)
    unfold commit_transaction. rewrite Hst.
    destruct nested as [| t rest].
    + simpl. exists []. destruct Hl as [Hnd Hall].
      apply Forall2_nil_inv_l in Hall as ->. simpl.
      repeat split; auto; constructor.
    + assert (Hlen : (length ((t :: rest) ++ [t0]) =? 1)%nat = false).
      { apply Nat.eqb_neq. rewrite length_app. simpl. lia. }
      rewrite Hlen. simpl.
      pose proof Hl as [_ Hall].
      apply Forall2_cons_inv_l in Hall
        as (snap & snaps' & (x & Hx & Hlive & Hsnap) & _ & ->).
      unfold Ref.commit. rewrite Hx, Hlive. simpl.
      exists rest. repeat split; auto.
      * exact (proj1 (linked_resolve st st t rest snap snaps' Hl eq_refl)).
      * exact (proj2 (linked_resolve st st t rest snap snaps' Hl eq_refl)).
  - (* rollback *)
    unfold rollback_transaction. rewrite Hst.
    destruct nested as [| t rest].
    + simpl. exists []. destruct Hl as [Hnd Hall].
      apply Forall2_nil_inv_l in Hall as ->. simpl.
      repeat split; auto; constructor.
    + assert (Hlen : (length ((t :: rest) ++ [t0]) =? 1)%nat = false).
      { apply Nat.eqb_neq. rewrite length_app. simpl. lia. }
      rewrite Hlen. simpl.
      pose proof Hl as [_ Hall].
      apply Forall2_cons_inv_l in Hall
        as (snap & snaps' & (x & Hx & Hlive & Hsnap) & _ & ->).
      unfold Ref.abort. rewrite Hx, Hlive. simpl.
      exists rest. repeat split; auto.
      * exact (proj1 (linked_resolve st _ t rest snap snaps' Hl eq_refl)).
      * exact (proj2 (linked_resolve st _ t rest snap snaps' Hl eq_refl)).
  - (* write *)
    exists nested.
    destruct (ref_write_same_dbs db (Database 0 0 []) st
                (Ref.State (Ref.dbs st) [] [] [] []) w eq_refl) as [Hd Ht].
    repeat split; auto.
    + exact (proj1 (linked_same_txns st _ nested snaps Ht Hl)).
    + exact (proj2 (linked_same_txns st _ nested snaps Ht Hl)).
Qed.

Lemma ref_session_linked acts : forall db st t0 nested snaps,
  m_txns db = nested ++ [t0] -> linked st nested snaps ->
  let s := foldl ref_act (db, st) acts in
  let ab := foldl snap_act (Ref.dbs st, snaps) acts in
  exists nested',
    m_txns s.1 = nested' ++ [t0] /\ linked s.2 nested' ab.2
    /\ Ref.dbs s.2 = ab.1
    /\ m_env s.1 = m_env db /\ (m_seq s.1 = m_seq db :> DB).
Proof.
  induction acts as [| a acts IH]; intros db st t0 nested snaps Hst Hl.
  - simpl. exists nested. auto.
  - simpl.
    destruct (ref_act_linked a db st t0 nested snaps Hst Hl)
      as (n1 & Hst1 & Hl1 & Hd1 & Hv1 & Hs1).
    destruct (ref_act (db, st) a) as [db1 st1]. simpl in *.
    destruct (snap_act (Ref.dbs st, snaps) a) as [cur1 snaps1]. simpl in *.
    subst cur1.
    destruct (IH db1 st1 t0 n1 snaps1 Hst1 Hl1)
      as (n2 & Hst2 & Hl2 & Hd2 & Hv2 & Hs2).
    refine (ex_intro _ n2 (conj Hst2 (conj Hl2 (conj Hd2 (conj _ _)))));
      congruence.
Qed.

(** X6. On the reference engine the transaction stack of the wrapper behaves
    as a stack of snapshots.  After any session of [begin_transaction],
    [commit_transaction], [rollback_transaction], [insert], [update] and
    [remove] on a database that starts with its top-level transaction alone,
    whatever the calls throw, the stored tables are those the snapshot
    semantics gives - a rollback returns to the contents at the matching
    begin, a commit keeps them, both do nothing without a nested
    transaction - and the stack holds one transaction per open snapshot
    above the top-level one. *)
Theorem transactions_are_snapshots (acts : list action) (db : database)
    (st : Ref.state) (t0 : DB_TXN) :
  m_txns db = [t0] ->
  let s := ref_session acts db st in
  let a := snap_session acts (Ref.dbs st) in
  Ref.dbs s.2 = a.1 /\ length (m_txns s.1) = S (length a.2).
Proof.
  intros Hst s a.
  assert (Hl : linked st [] []) by (split; constructor).
  destruct (ref_session_linked acts db st t0 [] [] Hst Hl)
    as (nested & Hst' & [_ Hall] & Hd & _).
  split; [exact Hd |]. subst s. unfold ref_session. rewrite Hst'.
  rewrite length_app. simpl. apply Forall2_length in Hall.
  unfold a, snap_session. lia.
Qed.

Section CloseProperties.
Context `{DD : EngineData}.

(** The loop of the destructor aborts the nested transactions from the top
    of the stack down and stops at the top-level one. *)
Lemma abort_nested_app (nested : list DB_TXN) : forall (t0 : DB_TXN) (e : env),
  abort_nested (nested ++ [t0]) e
  = Some (t0, foldl (λ e t, (txn_abort t e).2) e nested).
Proof.
  induction nested as [| t rest IH]; intros t0 e; [reflexivity |].
  simpl. rewrite <- IH.
  destruct (rest ++ [t0]) eqn:Hr; [destruct rest; discriminate | reflexivity].
Qed.
End CloseProperties.

Lemma ref_abort_all nested : forall st snaps,
  linked st nested snaps ->
  Ref.dbs (foldl (λ e t, (Ref.abort t e).2) st nested)
  = default (Ref.dbs st) (last snaps).
Proof.
  induction nested as [| t rest IH]; intros st snaps Hl.
  - destruct Hl as [_ Hall]. apply Forall2_nil_inv_l in Hall as ->.
    reflexivity.
  - pose proof Hl as [_ Hall].
    apply Forall2_cons_inv_l in Hall
      as (snap & snaps' & (x & Hx & Hlive & Hsnap) & _ & ->).
    simpl. unfold Ref.abort at 2. rewrite Hx, Hlive. simpl.
    rewrite (IH _ snaps'
               (linked_resolve st
                  (Ref.set_seqs (Ref.set_dbs st (Ref.t_dbs x)) (Ref.t_seqs x))
                  t rest snap snaps' Hl eq_refl)).
    simpl. rewrite Hsnap, last_cons. now destruct (last snaps').
Qed.

Lemma ref_close_sequences l : forall st,
  Ref.dbs (foldl (λ e s, sequence.close s e) st l) = Ref.dbs st.
Proof.
  induction l as [| s l IH]; intros st; [reflexivity |].
  simpl. rewrite IH. unfold sequence.close. now destruct (sequence.m_seq s).
Qed.

Lemma ref_close_tables l : forall st,
  foldl (λ e t, table_close t e) st l = st.
Proof.
  induction l as [| t l IH]; intros st; [reflexivity |].
  simpl. rewrite <- (IH st) at 2. f_equal.
  unfold table_close. simpl.
  induction (m_indexes t) as [| i r IHr] in st |- *; [reflexivity |].
  simpl. apply IHr.
Qed.

(** X7. Destroying the database never throws, and on the reference engine it
    rolls back every nested transaction still open and keeps the work of the
    top-level one: after any session the stored tables are those of the
    oldest open snapshot, or the current ones when no nested transaction is
    open.  The sequences and tables the database owns are closed on the way
    and do not change what is stored. *)
Theorem close_discards_nested (acts : list action) (db : database)
    (st : Ref.state) (t0 : DB_TXN) (sequences : list sequence.t)
    (tables : list table_object) :
  m_txns db = [t0] ->
  let s := ref_session acts db st in
  let a := snap_session acts (Ref.dbs st) in
  let r := database_close {| d_self := s.1; m_sequences := sequences;
                             m_tables := tables |} s.2 in
  r.1 = Ok tt /\ Ref.dbs r.2 = default a.1 (last a.2).
Proof.
  intros Hst s a r.
  assert (Hl : linked st [] []) by (split; constructor).
  destruct (ref_session_linked acts db st t0 [] [] Hst Hl)
    as (nested & Hst' & Hl' & Hd & _).
  subst r. unfold database_close. simpl. fold s.
  unfold ref_session in s. fold s in Hst', Hl', Hd. rewrite Hst'.
  rewrite abort_nested_app. simpl. split; [reflexivity |].
  rewrite ref_close_tables.
  change (@txn_commit Ref.engine) with Ref.commit.
  change (@txn_abort Ref.engine) with Ref.abort.
  assert (Hc : forall t e, Ref.dbs (Ref.commit t e).2 = Ref.dbs e).
  { intros t e. unfold Ref.commit.
    destruct (Ref.txns e !! t) as [x |]; [| reflexivity].
    now destruct (Ref.t_live x). }
  rewrite Hc, ref_close_sequences, (ref_abort_all nested s.2 _ Hl'), Hd.
  reflexivity.
Qed.

(** * The reference engine: sequences under transactions *)



Lemma opened_as_same_handles st st' s name :
  Ref.seq_handles st' = Ref.seq_handles st ->
  opened_as st s name -> opened_as st' s name.
Proof. intros H (q & ini & Hq & Hh). exists q, ini. now rewrite H. Qed.







(** * Further properties: what a recordset enumerates *)

(** The key after [k] in a list of distinct keys. *)
Lemma next_key_middle pre k post :
  NoDup (pre ++ k :: post) -> Ref.next_key (pre ++ k :: post) k = head post.
Proof.
  induction pre as [| a pre IH]; simpl; intros Hnd.
  - now rewrite String.eqb_refl.
  - apply NoDup_cons in Hnd as [Hnotin Hnd].
    destruct (String.eqb_spec a k) as [-> | Hne]; [| auto].
    exfalso. apply Hnotin, elem_of_app. right. constructor.
Qed.

Lemma set_isset_id rs : m_isset rs = true -> set_isset rs true = rs.
Proof. destruct rs; simpl; intros ->; reflexivity. Qed.

(** [pget] with [DB_NEXT] on a positioned cursor: the next duplicate of the
    key, or the first record of the next key. *)
Lemma ref_pget_next st c d k i sk :
  Ref.cursors st !! c = Some (Ref.Cursor d (Some (k, i))) ->
  Ref.pget c sk DB_NEXT st =
    match Ref.dups_of st d k !! S i with
    | Some x =>
        (0, (k, x.1, x.2),
         Ref.set_cursors st
           (<[c := Ref.Cursor d (Some (k, S i))]> (Ref.cursors st)))
    | None =>
        match Ref.next_key (Ref.keys_of st d) k with
        | Some k' =>
            match Ref.dups_of st d k' !! O with
            | Some x =>
                (0, (k', x.1, x.2),
                 Ref.set_cursors st
                   (<[c := Ref.Cursor d (Some (k', O))]> (Ref.cursors st)))
            | None => (DB_NOTFOUND, Ref.no_entry, st)
            end
        | None => (DB_NOTFOUND, Ref.no_entry, st)
        end
    end.
Proof.
  intros Hc. unfold Ref.pget. rewrite Hc. simpl. unfold Ref.entry.
  destruct (Ref.dups_of st d k !! S i) as [x |] eqn:Hx; simpl.
  - rewrite Hx. reflexivity.
  - destruct (Ref.next_key (Ref.keys_of st d) k) as [k' |]; simpl;
      [| reflexivity].
    destruct (Ref.dups_of st d k' !! O) as [x |]; reflexivity.
Qed.

Section Enumeration.
Context {K D : Type} `{MK : Message K} `{MD : Message D}.

(** [fetch] on a table or index recordset of the reference engine. *)
Lemma fetch_sequential rs c d pos (st : Ref.state) :
  m_type rs = BDB_RS_TABLE \/ m_type rs = BDB_RS_DUPLICATES ->
  m_cursor rs = Some c ->
  Ref.cursors st !! c = Some (Ref.Cursor d pos) ->
  fetch (K:=K) (D:=D) rs st =
    let '(res, (_, k, v), st1) :=
      Ref.pget c EmptyString
               (if negb (m_isset rs) then DB_FIRST else DB_NEXT) st in
    if res =? 0
    then (Ok (Some (unserialize k, unserialize v)), set_isset rs true, st1)
    else (Ok None, rs, st1).
Proof.
  intros Ht Hc Hcur. unfold fetch, fetch_call.
  destruct Ht as [Ht | Ht]; rewrite Ht, Hc; simpl.
  - change (@DBC_get Ref.engine) with Ref.cget. unfold Ref.cget.
    rewrite Hcur.
    destruct (Ref.pget c _ _ st) as [[res [[sk k] v]] st1]. reflexivity.
  - change (@DBC_pget Ref.engine) with Ref.pget.
    destruct (Ref.pget c _ _ st) as [[res [[sk k] v]] st1]. reflexivity.
Qed.

(** From a position on, a table or index recordset yields the remaining
    duplicates of the key, then the records of the following keys. *)
Lemma ref_fetches_next n : forall (st : Ref.state) rs c d pre k post i,
  m_type rs = BDB_RS_TABLE \/ m_type rs = BDB_RS_DUPLICATES ->
  m_cursor rs = Some c -> m_isset rs = true ->
  Ref.cursors st !! c = Some (Ref.Cursor d (Some (k, i))) ->
  Ref.keys_of st d = pre ++ k :: post -> NoDup (pre ++ k :: post) ->
  fetches (K:=K) (D:=D) n rs st
  = fetched n (drop (S i) (Ref.dups_of st d k)
               ++ flat_map (Ref.dups_of st d) post).
Proof.
  induction n as [| n IH]; intros st rs c d pre k post i Ht Hc Hset Hcur Hkeys Hnd;
    [reflexivity |].
  simpl. rewrite (fetch_sequential rs c d _ st Ht Hc Hcur), Hset. simpl.
  rewrite (ref_pget_next st c d k i _ Hcur).
  assert (Hlt : (c < length (Ref.cursors st))%nat)
    by (eapply lookup_lt_Some; eauto).
  destruct (Ref.dups_of st d k !! S i) as [x |] eqn:Hx.
  - (* the next duplicate *)
    simpl. rewrite (set_isset_id rs Hset).
    rewrite (drop_S _ _ _ Hx), <- app_comm_cons, fetched_cons.
    f_equal.
    set (st1 := Ref.set_cursors st _).
    assert (Hcur1 : Ref.cursors st1 !! c = Some (Ref.Cursor d (Some (k, S i))))
      by (apply list_lookup_insert_eq; exact Hlt).
    exact (IH st1 rs c d pre k post (S i) Ht Hc Hset Hcur1 Hkeys Hnd).
  - rewrite drop_ge by (apply lookup_ge_None; exact Hx). simpl.
    rewrite Hkeys, (next_key_middle pre k post Hnd).
    destruct post as [| k' post']; simpl.
    + (* the end: the cursor stays, every further call fails *)
      rewrite fetched_nil. simpl. f_equal.
      rewrite (IH st rs c d pre k [] i Ht Hc Hset Hcur Hkeys Hnd).
      rewrite drop_ge by (apply lookup_ge_None; exact Hx).
      simpl. apply fetched_nil.
    + (* the first record of the next key *)
      assert (Hk' : k' ∈ Ref.keys_of st d).
      { rewrite Hkeys, elem_of_app, !elem_of_cons. auto. }
      apply keys_matched in Hk'.
      destruct (Ref.dups_of st d k') as [| x l] eqn:Hd; [congruence |].
      simpl. rewrite (set_isset_id rs Hset), fetched_cons. f_equal.
      set (st1 := Ref.set_cursors st _).
      assert (Hcur1 : Ref.cursors st1 !! c = Some (Ref.Cursor d (Some (k', O))))
        by (apply list_lookup_insert_eq; exact Hlt).
      assert (Hkeys1 : Ref.keys_of st1 d = (pre ++ [k]) ++ k' :: post')
        by (rewrite <- app_assoc; exact Hkeys).
      assert (Hnd1 : NoDup ((pre ++ [k]) ++ k' :: post'))
        by (rewrite <- app_assoc; exact Hnd).
      rewrite (IH st1 rs c d (pre ++ [k]) k' post' O Ht Hc Hset Hcur1 Hkeys1
                 Hnd1).
      change (Ref.dups_of st1 d) with (Ref.dups_of st d). now rewrite Hd.
Qed.

(** From its position on, a single-key index recordset yields the remaining
    duplicates of its key. *)
Lemma ref_fetches_next_dup n : forall (st : Ref.state) rs c d key i,
  m_type rs = BDB_RS_UNIQUE -> m_cursor rs = Some c -> m_key rs = Some key ->
  m_isset rs = true ->
  Ref.cursors st !! c = Some (Ref.Cursor d (Some (key, i))) ->
  fetches (K:=K) (D:=D) n rs st
  = fetched n (drop (S i) (Ref.dups_of st d key)).
Proof.
  induction n as [| n IH]; intros st rs c d key i Ht Hc Hk Hset Hcur;
    [reflexivity |].
  simpl. rewrite (fetch_unique (E:=Ref.engine) rs c key st Ht Hc Hk), Hset.
  simpl. change (@DBC_pget Ref.engine) with Ref.pget.
  rewrite (ref_pget_next_dup st c d key i key Hcur).
  destruct (Ref.dups_of st d key !! S i) as [x |] eqn:Hx.
  - simpl. rewrite (set_isset_id rs Hset), (drop_S _ _ _ Hx), fetched_cons.
    f_equal. set (st1 := Ref.set_cursors st _).
    assert (Hcur1 : Ref.cursors st1 !! c
                    = Some (Ref.Cursor d (Some (key, S i))))
      by (apply list_lookup_insert_eq; eapply lookup_lt_Some; eauto).
    exact (IH st1 rs c d key (S i) Ht Hc Hk Hset Hcur1).
  - rewrite drop_ge by (apply lookup_ge_None; exact Hx). simpl.
    rewrite fetched_nil. simpl. f_equal.
    rewrite (IH st rs c d key i Ht Hc Hk Hset Hcur).
    rewrite drop_ge by (apply lookup_ge_None; exact Hx). apply fetched_nil.
Qed.

(** X8. A table, index or single-key index recordset that is new or has
    been rewound enumerates its range on the reference engine: successive
    calls of [fetch] return the records of the table in key order, of the
    index key after key with the duplicates of each key in turn, or the
    duplicates of the one key, each exactly once, and then [false] on every
    further call - wherever the cursor stood before, and with no exception.
    The keys of the table or index are distinct. *)
Theorem fetch_enumerates_range (n : nat) (rs : recordset) (st : Ref.state)
    (c : DBC) (d : DB) (pos : option (DBT * nat)) :
  wf_recordset rs ->
  m_type rs = BDB_RS_TABLE \/ m_type rs = BDB_RS_DUPLICATES
  \/ m_type rs = BDB_RS_UNIQUE ->
  m_cursor rs = Some c ->
  Ref.cursors st !! c = Some (Ref.Cursor d pos) ->
  (m_type rs <> BDB_RS_UNIQUE -> NoDup (Ref.keys_of st d)) ->
  fetches (K:=K) (D:=D) n (set_isset rs false) st
  = fetched n (Ref.range st rs).
Proof.
  intros [_ Hkey] Ht Hc Hcur Hnd.
  assert (Hlt : (c < length (Ref.cursors st))%nat)
    by (eapply lookup_lt_Some; eauto).
  unfold Ref.range. rewrite Hc. simpl. rewrite Hcur.
  destruct (Z.eqb_spec (m_type rs) BDB_RS_UNIQUE) as [Hu | Hnu].
  - (* single key *)
    destruct (proj2 Hkey Hu) as [key Hk]. rewrite Hk.
    destruct (Ref.dups_of st d key) as [| x l] eqn:Hd.
    + rewrite fetched_nil. clear Hnd Ht.
      induction n as [| n IH]; [reflexivity |]. simpl.
      rewrite (fetch_unique (E:=Ref.engine) (set_isset rs false) c key st
                 Hu Hc Hk).
      simpl. change (@DBC_pget Ref.engine) with Ref.pget.
      rewrite (ref_pget_set st c d pos key Hcur), Hd. simpl. now rewrite IH.
    + destruct n as [| n]; [reflexivity |]. simpl.
      rewrite (fetch_unique (E:=Ref.engine) (set_isset rs false) c key st
                 Hu Hc Hk).
      simpl. change (@DBC_pget Ref.engine) with Ref.pget.
      rewrite (ref_pget_set st c d pos key Hcur), Hd. simpl.
      rewrite fetched_cons. f_equal.
      unfold Ref.seek, Ref.matched. simpl. rewrite Hd.
      change (set_isset (set_isset rs false) true) with (set_isset rs true).
      set (st1 := Ref.set_cursors st _).
      assert (Hcur1 : Ref.cursors st1 !! c = Some (Ref.Cursor d (Some (key, O))))
        by (apply list_lookup_insert_eq; exact Hlt).
      rewrite (ref_fetches_next_dup n st1 (set_isset rs true) c d key O
                 Hu Hc Hk eq_refl Hcur1).
      change (Ref.dups_of st1 d) with (Ref.dups_of st d). now rewrite Hd.
  - (* table or index *)
    assert (Ht' : m_type rs = BDB_RS_TABLE \/ m_type rs = BDB_RS_DUPLICATES)
      by tauto.
    specialize (Hnd Hnu). unfold Ref.contents.
    pose proof (keys_matched st d) as Hkeys.
    assert (Hfirst : Ref.pget c EmptyString DB_FIRST st =
              match Ref.keys_of st d with
              | [] => (DB_NOTFOUND, Ref.no_entry, st)
              | k0 :: _ =>
                  match Ref.dups_of st d k0 !! O with
                  | Some x =>
                      (0, (k0, x.1, x.2),
                       Ref.set_cursors st
                         (<[c := Ref.Cursor d (Some (k0, O))]> (Ref.cursors st)))
                  | None => (DB_NOTFOUND, Ref.no_entry, st)
                  end
              end).
    { unfold Ref.pget. rewrite Hcur. unfold Ref.move, Ref.first_pos, Ref.entry.
      destruct (Ref.keys_of st d) as [| k0 keys]; simpl;
        [destruct pos; reflexivity |].
      destruct (Ref.dups_of st d k0 !! O); destruct pos; reflexivity. }
    destruct (Ref.keys_of st d) as [| k0 keys] eqn:Hk0.
    + simpl. rewrite fetched_nil.
      induction n as [| n IH]; [reflexivity |]. simpl.
      rewrite (fetch_sequential (set_isset rs false) c d pos st Ht' Hc Hcur).
      simpl. rewrite Hfirst. simpl. now rewrite IH.
    + assert (Hin : k0 ∈ k0 :: keys) by constructor.
      apply Hkeys in Hin.
      destruct n as [| n]; [reflexivity |]. simpl.
      rewrite (fetch_sequential (set_isset rs false) c d pos st Ht' Hc Hcur).
      simpl. rewrite Hfirst.
      destruct (Ref.dups_of st d k0) as [| x l] eqn:Hd; [congruence |].
      simpl. rewrite fetched_cons. f_equal.
      change (set_isset (set_isset rs false) true) with (set_isset rs true).
      set (st1 := Ref.set_cursors st _).
      assert (Hcur1 : Ref.cursors st1 !! c = Some (Ref.Cursor d (Some (k0, O))))
        by (apply list_lookup_insert_eq; exact Hlt).
      rewrite (ref_fetches_next n st1 (set_isset rs true) c d [] k0 keys O
                 Ht' Hc eq_refl Hcur1 Hk0 Hnd).
      change (Ref.dups_of st1 d) with (Ref.dups_of st d). now rewrite Hd.
Qed.
End Enumeration.

Section FetchOutcomes.
Context `{E : Engine}.
Context {K D : Type} `{MK : Message K} `{MD : Message D}.

(** X9. What [fetch] does to a well-formed recordset, whatever the engine
    answers: it throws - Unknown - exactly when the kind is none of the four,
    and otherwise returns [true] or [false]; it keeps the recordset
    well-formed; it sets the flag when it returns a record and never clears
    it; when it returns no record the recordset is left as it was; and on a
    join recordset whose flag is not set it returns [false] without calling
    the engine. *)
Theorem fetch_outcomes (rs : recordset) (e : env) :
  wf_recordset rs ->
  let r := fetch (K:=K) (D:=D) rs e in
  (r.1.1 = Throw BDB_ERROR_UNKNOWN <-> ~ (1 <= m_type rs <= 4))
  /\ (1 <= m_type rs <= 4 -> exists o, r.1.1 = Ok o)
  /\ wf_recordset r.1.2
  /\ (m_isset rs = true -> m_isset r.1.2 = true)
  /\ (forall kd, r.1.1 = Ok (Some kd) -> m_isset r.1.2 = true)
  /\ ((forall kd, r.1.1 <> Ok (Some kd)) -> r.1.2 = rs)
  /\ (m_type rs = BDB_RS_JOIN -> m_isset rs = false -> r = (Ok None, rs, e)).
Proof.
  intros [[c Hc] Hkey] r. subst r. unfold fetch, fetch_call. rewrite Hc.
  unfold BDB_RS_TABLE, BDB_RS_DUPLICATES, BDB_RS_UNIQUE, BDB_RS_JOIN in *.
  assert (Hwf : forall b, wf_recordset (set_isset rs b)).
  { intros b. split; simpl; [rewrite Hc; eauto | exact Hkey]. }
  assert (Hwf0 : wf_recordset rs) by (split; [rewrite Hc; eauto | exact Hkey]).
  destruct (Z.eqb_spec (m_type rs) 1) as [H1 | H1].
  { destruct (DBC_get c _ e) as [[res [k d]] e1].
    destruct (res =? 0); fetch_outcome Hwf Hwf0. }
  destruct (Z.eqb_spec (m_type rs) 2) as [H2 | H2].
  { destruct (DBC_pget c _ _ e) as [[res [[sk k] d]] e1].
    destruct (res =? 0); fetch_outcome Hwf Hwf0. }
  destruct (Z.eqb_spec (m_type rs) 3) as [H3 | H3].
  { destruct (proj2 Hkey H3) as [key Hk]. rewrite Hk.
    destruct (DBC_pget c _ _ e) as [[res [[sk k] d]] e1].
    destruct (res =? 0); fetch_outcome Hwf Hwf0. }
  destruct (Z.eqb_spec (m_type rs) 4) as [H4 | H4].
  { destruct (m_isset rs) eqn:Hset.
    - destruct (DBC_get c _ e) as [[res [k d]] e1].
      destruct (res =? 0); fetch_outcome Hwf Hwf0.
    - change (DB_NOTFOUND =? 0) with false. fetch_outcome Hwf Hwf0. }
  simpl.
  refine (conj (conj _ _) (conj _ (conj _ (conj _ (conj _ (conj _ _))))));
    try discriminate; auto; try lia.
Qed.
End FetchOutcomes.

(** * Further properties: opening databases, tables and indexes *)

Lemma open_error_kinds res :
  open_error res = BDB_ERROR_NOT_FOUND \/ open_error res = BDB_ERROR_EXISTS
  \/ open_error res = BDB_ERROR_UNKNOWN.
Proof. unfold open_error. status_cases; auto. Qed.

Section OpenProperties.
Context `{E : Engine} `{D : !EngineData} `{S : !EngineSchema}.

(** X10. The constructor of [database] throws NotFound, AlreadyExists or
    Unknown and nothing else, and when it fails after the environment has
    been created, closing the environment is the last thing it does.  The
    database it returns holds the top-level transaction alone, so that a
    [commit_transaction] or [rollback_transaction] made next throws NotFound
    and changes nothing. *)
Theorem database_open_outcomes (home : string) (create : bool) (e : env) :
  let r := database_open home create e in
  (forall db, r.1 = Ok db ->
     exists t, m_txns db = [t]
     /\ commit_transaction db r.2 = (Throw BDB_ERROR_NOT_FOUND, db, r.2)
     /\ rollback_transaction db r.2 = (Throw BDB_ERROR_NOT_FOUND, db, r.2))
  /\ (forall err, r.1 = Throw err ->
        err = BDB_ERROR_NOT_FOUND \/ err = BDB_ERROR_EXISTS
        \/ err = BDB_ERROR_UNKNOWN)
  /\ (forall err v, r.1 = Throw err -> (db_env_create e).1.2 = Some v ->
        exists e1, r.2 = env_close v e1).
Proof.
  intros r. subst r. unfold database_open.
  destruct (db_env_create e) as [[r0 [v |]] e0]; simpl.
  2: { split; [| split].
       - intros db. destruct (r0 =? 0); discriminate.
       - intros err. destruct (r0 =? 0); [discriminate |].
         intros [= <-]. apply open_error_kinds.
       - intros err v _ Hv. discriminate. }
  destruct (and_then r0 (env_set_alloc v) e0) as [r1 e1].
  destruct (and_then r1 (env_open v home create) e1) as [r2 e2].
  destruct (if r2 =? 0 then txn_begin v None e2 else (r2, None, e2))
    as [[r3 txn] e3].
  destruct (if r3 =? 0 then db_create v e3 else (r3, None, e3))
    as [[r4 [s |]] e4].
  - destruct (and_then r4 _ e4) as [r5 e5].
    destruct (r5 =? 0); simpl.
    + split; [| split; intros; discriminate].
      intros db [= <-]. simpl. eexists. split; [reflexivity |].
      split; reflexivity.
    + split; [intros; discriminate |]. split.
      * intros err [= <-]. apply open_error_kinds.
      * intros err v' _ [= <-]. eauto.
  - destruct (r4 =? 0); simpl.
    + repeat split; intros; discriminate.
    + split; [intros; discriminate |]. split.
      * intros err [= <-]. apply open_error_kinds.
      * intros err v' _ [= <-]. eauto.
Qed.


End OpenProperties.

Section ForeignProperties.
Context `{E : Engine} `{D : !EngineData} `{S : !EngineSchema}.

(** X22. [index::add_foreign] registers the index as a foreign key against
    the handle of the master table: with [DB_FOREIGN_CASCADE] when [cascade]
    is set and with [DB_FOREIGN_ABORT] otherwise, and without a callback;
    the overload taking a nullify callback passes it with
    [DB_FOREIGN_NULLIFY].  Both return exactly when the engine answers [0],
    throw Unknown on every other status, and leave the engine state as the
    call left it. *)
Theorem add_foreign_translates (i : index) (foreign : table) (cascade : bool)
    (nullify : option nullify_callback) (e : env) :
  let w := DB_associate_foreign (m_db foreign) (m_db i) None
             (if cascade then DB_FOREIGN_CASCADE else DB_FOREIGN_ABORT) e in
  let wn := DB_associate_foreign (m_db foreign) (m_db i) nullify
              DB_FOREIGN_NULLIFY e in
  let r := add_foreign i foreign cascade e in
  let rn := add_foreign_nullify i foreign nullify e in
  (r.1 = Ok tt <-> w.1 = 0)
  /\ (r.1 = Throw BDB_ERROR_UNKNOWN <-> w.1 <> 0)
  /\ r.2 = w.2
  /\ (rn.1 = Ok tt <-> wn.1 = 0)
  /\ (rn.1 = Throw BDB_ERROR_UNKNOWN <-> wn.1 <> 0)
  /\ rn.2 = wn.2.
Proof.
  intros w wn r rn. subst r rn. unfold add_foreign, add_foreign_nullify.
  fold w wn. destruct w as [res e1], wn as [resn en]. simpl.
  destruct (Z.eqb_spec res 0), (Z.eqb_spec resn 0); simpl;
    repeat split; intros; try discriminate; try congruence.
Qed.
End ForeignProperties.

(** On the reference engine the association gives the index its master
    table and the mode of the flag. *)
Lemma ref_associate_foreign m i nullify flag (st : Ref.state) recs s mode :
  Ref.dbs st !! m = Some (Ref.Primary recs) ->
  Ref.dbs st !! i = Some (Ref.Index s) ->
  RefData.mode_of flag nullify = Some mode ->
  exists st',
    RefData.associate_foreign m i nullify flag st = (0, st')
    /\ Ref.dbs st' !! i
       = Some (Ref.Index (Ref.Secondary (Ref.s_primary s) (Ref.s_callback s)
                            (Ref.s_unique s) (Some m) mode))
    /\ forall d, d <> i -> Ref.dbs st' !! d = Ref.dbs st !! d.
Proof.
  intros Hm Hi Hmode. unfold RefData.associate_foreign.
  rewrite Hm, Hi, Hmode. eexists. split; [reflexivity |]. simpl. split.
  - apply list_lookup_insert_eq. eapply lookup_lt_Some; eauto.
  - intros d Hne. now apply list_lookup_insert_ne.
Qed.

(** X12. The constructor of [database] calls the engine in a fixed order -
    create the environment, set the allocator, open the environment, begin
    the top-level transaction, create and open the sequences database - and
    stops at the first call that fails.  It then releases what it acquired,
    in the order sequences database, transaction, environment, and throws
    the translation of the failing status.  Shown on the engine that answers
    as prescribed, for every list of answers. *)
Theorem database_open_protocol (answers : list Z) (home : string)
    (create : bool) :
  let r := @database_open Scripted.engine Scripted.data Scripted.schema home
             create (Scripted.start answers) in
  let ok := succeeded 6 answers in
  Scripted.names r.2
  = (if (ok =? 6)%nat then database_open_calls
     else take (S ok) database_open_calls ++ database_open_cleanup ok)
  /\ (ok = 6%nat -> exists db, r.1 = Ok db)
  /\ (ok <> 6%nat -> r.1 = Throw (open_error (nth ok answers 0))).
Proof.
  intros r ok. subst r ok.
  do 6 (destruct answers as [| [| ? | ?] answers];
        [script_done | | script_done | script_done]).
  script_done.
Qed.

Lemma scripted_abort_log nested : forall st : Scripted.state,
  Scripted.log (foldl (λ e t, (@txn_abort Scripted.engine t e).2) st nested)
  = Scripted.log st ++ ((λ t, Scripted.Call "abort" [t]) <$> nested).
Proof.
  induction nested as [| t rest IH]; intros st; simpl.
  - now rewrite app_nil_r.
  - rewrite IH. simpl. now rewrite <- app_assoc.
Qed.

Lemma scripted_sequence_close_log l : forall st : Scripted.state,
  Scripted.log (foldl (λ e s, @sequence.close Scripted.engine s e) st l)
  = Scripted.log st
    ++ omap (λ s, (λ q, Scripted.Call "seq_close" [q]) <$> sequence.m_seq s) l.
Proof.
  induction l as [| s l IH]; intros st; simpl.
  - now rewrite app_nil_r.
  - rewrite IH. unfold sequence.close.
    destruct (sequence.m_seq s) as [q |]; simpl; [| reflexivity].
    now rewrite <- app_assoc.
Qed.

Lemma scripted_index_close_log (l : list table) : forall st : Scripted.state,
  Scripted.log (foldl (λ e i, @DB_close Scripted.engine Scripted.data (m_db i) e)
                      st l)
  = Scripted.log st ++ ((λ i, Scripted.Call "close" [m_db i]) <$> l).
Proof.
  induction l as [| i l IH]; intros st; simpl.
  - now rewrite app_nil_r.
  - rewrite IH. simpl. now rewrite <- app_assoc.
Qed.

Lemma scripted_table_close_log l : forall st : Scripted.state,
  Scripted.log (foldl (λ e t, @table_close Scripted.engine Scripted.data t e)
                      st l)
  = Scripted.log st
    ++ concat ((λ t, ((λ i, Scripted.Call "close" [m_db i]) <$> m_indexes t)
                     ++ [Scripted.Call "close" [m_db (t_self t)]]) <$> l).
Proof.
  induction l as [| t l IH]; intros st; simpl.
  - now rewrite app_nil_r.
  - rewrite IH. unfold table_close. simpl.
    rewrite scripted_index_close_log. now rewrite <- !app_assoc.
Qed.

(** X24. The destructor of [database] calls the engine in a fixed order,
    whatever the calls answer: it aborts the nested transactions from the
    top of the stack down, closes the sequences, then the indexes of every
    table followed by the table, then the sequences database, commits the
    top-level transaction and closes the environment last.  It never throws.
    Shown on the engine that answers as prescribed. *)
Theorem database_close_protocol (o : database_object) (nested : list DB_TXN)
    (t0 : DB_TXN) (st : Scripted.state) :
  m_txns (d_self o) = nested ++ [t0] ->
  let r := @database_close Scripted.engine Scripted.data o st in
  r.1 = Ok tt
  /\ Scripted.log r.2 = Scripted.log st ++ database_close_calls o nested t0.
Proof.
  intros Hst r. subst r. unfold database_close. rewrite Hst.
  rewrite (@abort_nested_app Scripted.engine). simpl.
  split; [reflexivity |].
  rewrite scripted_table_close_log, scripted_sequence_close_log,
    scripted_abort_log.
  unfold database_close_calls. now rewrite <- !app_assoc.
Qed.

(** X25. [begin_transaction] begins a child of the transaction on top of the
    stack in the environment of the database, and nothing else: the new
    transaction is pushed when the engine answers [0], and Unknown is thrown
    otherwise.  Shown on the engine that answers as prescribed. *)
Theorem begin_transaction_protocol (db : database) (st : Scripted.state) :
  let r := @begin_transaction Scripted.engine db st in
  Scripted.log r.2
  = Scripted.log st
    ++ [Scripted.Call "txn_begin" [m_env db; top (m_txns db)]]
  /\ (Scripted.peek st = 0 ->
      r.1 = Ok (set_txns db (Scripted.fresh st :: m_txns db)))
  /\ (Scripted.peek st <> 0 -> r.1 = Throw BDB_ERROR_UNKNOWN).
Proof.
  intros r. subst r. unfold begin_transaction. simpl.
  unfold Scripted.create, Scripted.answer, Scripted.peek. simpl.
  destruct (Z.eqb_spec (default 0 (head (Scripted.script st))) 0)
    as [Hz | Hnz]; simpl.
  - split; [reflexivity |]. split; [reflexivity | contradiction].
  - rewrite (proj2 (Z.eqb_neq _ _) Hnz). simpl.
    split; [reflexivity |]. split; [contradiction | reflexivity].
Qed.

Section SequenceProperties.
Context `{E : Engine}.

(** X13. The constructor of [sequence] throws NotFound, AlreadyExists or
    Unknown and nothing else; when it fails, the handle it created is closed
    last; when it returns, the sequence owns the created handle.  And
    [sequence::id] throws nothing but Unknown. *)
Theorem sequence_open_outcomes (db : database) (name : string) (create : bool)
    (e : env) (s0 : sequence.t) :
  let r := sequence.open db name create e in
  let q := (db_sequence_create (sequences_db db) e).1.2 in
  (forall err, r.1 = Throw err ->
     (err = BDB_ERROR_NOT_FOUND \/ err = BDB_ERROR_EXISTS
      \/ err = BDB_ERROR_UNKNOWN)
     /\ forall h, q = Some h -> exists e1, r.2 = seq_close h e1)
  /\ (forall s, r.1 = Ok s -> is_Some q /\ sequence.m_seq s = q)
  /\ (forall err, (sequence.id db s0 e).1 = Throw err ->
        err = BDB_ERROR_UNKNOWN).
Proof.
  intros r q. subst r q. unfold sequence.open, sequence.id.
  split; [| split].
  - destruct (db_sequence_create _ e) as [[r0 [h |]] e0]; simpl.
    + destruct (and_then r0 _ e0) as [r1 e1].
      destruct (and_then r1 _ e1) as [r2 e2].
      destruct (and_then r2 _ e2) as [r3 e3].
      destruct (and_then r3 _ e3) as [r4 e4].
      destruct (r4 =? 0) eqn:H4; simpl; intros err; [discriminate |].
      intros Hr. split.
      * revert Hr. status_cases; intros [= <-]; auto.
      * intros h' [= <-]. exists e4. revert Hr. status_cases; reflexivity.
    + intros err Hr. split; [| discriminate].
      revert Hr. status_cases; intros [= <-]; auto; discriminate.
  - destruct (db_sequence_create _ e) as [[r0 [h |]] e0]; simpl.
    + destruct (and_then r0 _ e0) as [r1 e1].
      destruct (and_then r1 _ e1) as [r2 e2].
      destruct (and_then r2 _ e2) as [r3 e3].
      destruct (and_then r3 _ e3) as [r4 e4].
      destruct (r4 =? 0) eqn:H4; simpl; intros s.
      * intros [= <-]. eauto.
      * status_cases; discriminate.
    + intros s. status_cases; discriminate.
  - destruct (sequence.m_seq s0) as [h |]; [| discriminate].
    destruct (seq_get h _ 1 e) as [[res v] e1].
    destruct (res =? 0); simpl; intros err; [discriminate |].
    now intros [= <-].
Qed.
End SequenceProperties.

(** X14. On the reference engine the constructor of [sequence] returns
    exactly when the name is stored and the sequence is opened, or is not
    stored and the sequence is created.  Creating a sequence whose name is
    stored throws AlreadyExists.  Opening one whose name is not stored
    throws Unknown and never NotFound: the engine reports a key that is not
    found in the sequences database ([DB_NOTFOUND]), a status the switch of
    the constructor does not translate.  When the constructor throws, the
    stored values of all sequences are left as they were. *)
Theorem sequence_open_refused (db : database) (name : DBT) (create : bool)
    (st : Ref.state) :
  let r := sequence.open db name create st in
  let stored := is_Some (Ref.assoc name (Ref.seqs st)) in
  (r.1 = Throw BDB_ERROR_EXISTS <-> stored /\ create = true)
  /\ (r.1 = Throw BDB_ERROR_UNKNOWN <-> ~ stored /\ create = false)
  /\ r.1 <> Throw BDB_ERROR_NOT_FOUND
  /\ ((exists s, r.1 = Ok s) <-> (stored <-> create = false))
  /\ ((forall s, r.1 <> Ok s) -> Ref.seqs r.2 = Ref.seqs st).
Proof.
  intros r stored. subst r stored. rewrite ref_sequence_open. simpl.
  assert (Hnone : ~ is_Some (@None Z)) by (intros [x Hx]; discriminate).
  destruct (Ref.assoc name (Ref.seqs st)) as [v |], create; simpl;
    (split; [| split; [| split; [| split]]]);
    try discriminate; try reflexivity;
    try (split; intros; repeat match goal with
         | H : _ /\ _ |- _ => destruct H
         | H : ex _ |- _ => destruct H
         | H : _ <-> _ |- _ => destruct H
         end; try discriminate; try contradiction; eauto; fail);
    try (intros H; exfalso; eapply H; reflexivity).
  - split; [intros [s H]; discriminate |].
    intros [H _]. discriminate H. eauto.
  - split; [discriminate | intros [H _]; exfalso; apply H; eauto].
  - split; [intros _; split; eauto | eauto].
  - split; [intros _; split; [intros [x H]; discriminate | discriminate]
           | eauto].
  - split; [intros [s H]; discriminate |].
    intros [_ H]. destruct (H eq_refl) as [x Hx]. discriminate.
Qed.

(** * Further properties: deleting on the reference engine *)

(** A step after a failure changes nothing. *)
Lemma release_failed delete s k l : forall acc,
  acc.1 <> 0 -> foldl (RefData.release delete s k) acc l = acc.
Proof.
  induction l as [| x l IH]; intros acc Hne; [reflexivity |].
  simpl. rewrite IH.
  - unfold RefData.release. now rewrite (proj2 (Z.eqb_neq _ _) Hne).
  - unfold RefData.release. now rewrite (proj2 (Z.eqb_neq _ _) Hne).
Qed.

Lemma release_all_failed delete k ss : forall acc,
  acc.1 <> 0 ->
  foldl (λ acc s, foldl (RefData.release delete s k) acc
                        (RefData.referencing acc.2 s k)) acc ss = acc.
Proof.
  induction ss as [| s ss IH]; intros acc Hne; [reflexivity |].
  simpl. rewrite release_failed by exact Hne. now apply IH.
Qed.

(** A refusing foreign key: the delete is refused exactly when the index
    files a record under the key. *)
Lemma release_refusing delete s k dbs :
  Ref.s_mode s = Ref.FOREIGN_ABORT ->
  foldl (RefData.release delete s k) (0, dbs) (RefData.referencing dbs s k)
  = (if bool_decide (RefData.referencing dbs s k ≠ [])
     then DB_FOREIGN_CONFLICT else 0, dbs).
Proof.
  intros Hmode.
  destruct (RefData.referencing dbs s k) as [| x l] eqn:Hrefs.
  - reflexivity.
  - rewrite bool_decide_eq_true_2 by discriminate. simpl.
    rewrite release_failed.
    + unfold RefData.release. simpl. rewrite Hrefs.
      rewrite bool_decide_eq_true_2 by constructor. simpl.
      now rewrite Hmode.
    + unfold RefData.release. simpl. rewrite Hrefs.
      rewrite bool_decide_eq_true_2 by constructor. simpl.
      rewrite Hmode. discriminate.
Qed.

Lemma release_all_refusing delete k dbs ss :
  Forall (λ s, Ref.s_mode s = Ref.FOREIGN_ABORT) ss ->
  foldl (λ acc s, foldl (RefData.release delete s k) acc
                        (RefData.referencing acc.2 s k)) (0, dbs) ss
  = (if existsb (λ s, bool_decide (RefData.referencing dbs s k ≠ [])) ss
     then DB_FOREIGN_CONFLICT else 0, dbs).
Proof.
  induction 1 as [| s ss Hs _ IH]; [reflexivity |].
  simpl. rewrite (release_refusing delete s k dbs Hs).
  destruct (bool_decide (RefData.referencing dbs s k ≠ [])); simpl.
  - apply release_all_failed. discriminate.
  - exact IH.
Qed.

(** With refusing foreign keys alone, a delete is what it is without
    modes. *)
Lemma ref_del_refusing d t k (st : Ref.state) recs :
  Ref.dbs st !! d = Some (Ref.Primary recs) ->
  Forall (λ s, Ref.s_mode s = Ref.FOREIGN_ABORT)
         (RefData.foreign_on (Ref.dbs st) d) ->
  RefData.del d t k st
  = if bool_decide (k ∈ recs.*1) then
      if RefData.referenced st d k then (DB_FOREIGN_CONFLICT, st)
      else (0, Ref.set_dbs st
                 (<[d := Ref.Primary (filter (λ x, x.1 ≠ k) recs)]> (Ref.dbs st)))
    else (DB_NOTFOUND, st).
Proof.
  intros Hd Hall. unfold RefData.del. simpl. rewrite Hd.
  destruct (bool_decide (k ∈ recs.*1)); [| reflexivity].
  unfold RefData.release_all.
  rewrite (release_all_refusing _ k (Ref.dbs st) _ Hall).
  unfold RefData.referenced.
  destruct (existsb _ _); simpl; [reflexivity |].
  now rewrite Hd.
Qed.

(** *** Cascading foreign keys *)

Lemma size_lookup dbs : forall d recs,
  dbs !! d = Some (Ref.Primary recs) -> (length recs <= RefData.size dbs)%nat.
Proof.
  induction dbs as [| r dbs IH]; intros [| d] recs Hd; try discriminate;
    simpl in *.
  - injection Hd as ->. lia.
  - specialize (IH d recs Hd). destruct r; lia.
Qed.

(** Rewriting the records of a table leaves the foreign keys as they are. *)
Lemma foreign_on_insert dbs : forall p cur r0 q,
  dbs !! p = Some (Ref.Primary r0) ->
  RefData.foreign_on (<[p := Ref.Primary cur]> dbs) q = RefData.foreign_on dbs q.
Proof.
  unfold RefData.foreign_on.
  induction dbs as [| r dbs IH]; intros [| p] cur r0 q Hp; try discriminate;
    simpl in *.
  - injection Hp as ->. reflexivity.
  - specialize (IH p cur r0 q Hp). unfold omap in *. simpl.
    destruct r as [x | s0]; [exact IH |].
    destruct (bool_decide _); [f_equal |]; exact IH.
Qed.

(** Deleting from a table no index holds a foreign key on. *)
Lemma del_dbs_plain fuel d k dbs recs :
  dbs !! d = Some (Ref.Primary recs) -> k ∈ recs.*1 ->
  RefData.foreign_on dbs d = [] ->
  RefData.del_dbs (S fuel) d k dbs
  = (0, <[d := Ref.Primary (filter (λ x, x.1 ≠ k) recs)]> dbs).
Proof.
  intros Hd Hk Hf. simpl. rewrite Hd, bool_decide_eq_true_2 by exact Hk.
  unfold RefData.release_all. rewrite Hf. simpl. now rewrite Hd.
Qed.

Lemma filter_not_in_snoc (done : list DBT) (k : DBT) (l : list (DBT * DBT)) :
  filter (λ y, y.1 ≠ k) (filter (λ y, y.1 ∉ done) l)
  = filter (λ y, y.1 ∉ done ++ [k]) l.
Proof.
  rewrite list_filter_filter. apply list_filter_iff. intros y.
  rewrite elem_of_app, list_elem_of_singleton. tauto.
Qed.

(** The records an index with a cascading foreign key files under the key
    are deleted from their table one after the other. *)
Lemma release_deleting delete s k p dbs precs l : forall done,
  Ref.s_mode s = Ref.FOREIGN_CASCADE -> Ref.s_primary s = p ->
  (p < length dbs)%nat ->
  (forall cur x, x ∈ cur.*1 ->
     delete p x (<[p := Ref.Primary cur]> dbs)
     = (0, <[p := Ref.Primary (filter (λ y, y.1 ≠ x) cur)]> dbs)) ->
  Forall (λ x, x ∈ precs /\ Ref.skey_of s x = Some k) l ->
  foldl (RefData.release delete s k)
        (0, <[p := Ref.Primary (filter (λ y, y.1 ∉ done) precs)]> dbs) l
  = (0, <[p := Ref.Primary (filter (λ y, y.1 ∉ done ++ l.*1) precs)]> dbs).
Proof.
  induction l as [| x l IH]; intros done Hmode Hp Hlt Hdel Hall.
  - simpl. now rewrite app_nil_r.
  - apply Forall_cons in Hall as [[Hx Hsk] Hall].
    rewrite fmap_cons.
    replace (done ++ x.1 :: l.*1) with ((done ++ [x.1]) ++ l.*1)
      by now rewrite <- app_assoc.
    rewrite <- (IH (done ++ [x.1]) Hmode Hp Hlt Hdel Hall).
    change (foldl (RefData.release delete s k) ?a (x :: l))
      with (foldl (RefData.release delete s k)
                  (RefData.release delete s k a x) l).
    f_equal.
    unfold RefData.release. simpl.
    unfold RefData.referencing, Ref.records_of. simpl.
    rewrite Hp, list_lookup_insert_eq by exact Hlt.
    destruct (decide (x.1 ∈ done)) as [Hin | Hnin].
    + (* deleted with an earlier record of the same key *)
      rewrite bool_decide_eq_false_2.
      2: { rewrite !list_elem_of_filter. tauto. }
      simpl. do 3 f_equal.
      apply list_filter_iff. intros y.
      rewrite elem_of_app, list_elem_of_singleton.
      split; [| tauto]. intros Hy [H | H]; [tauto | congruence].
    + rewrite bool_decide_eq_true_2.
      2: { rewrite !list_elem_of_filter. tauto. }
      simpl. rewrite Hmode.
      rewrite Hdel.
      * now rewrite filter_not_in_snoc.
      * apply list_elem_of_fmap. exists x. split; [reflexivity |].
        apply list_elem_of_filter. tauto.
Qed.

Lemma filter_not_in_nil (l : list (DBT * DBT)) :
  filter (λ y, y.1 ∉ @nil DBT) l = l.
Proof.
  induction l as [| a l IH]; [reflexivity |].
  rewrite filter_cons_True by (intros H; inversion H). now rewrite IH.
Qed.

(** One index holds a foreign key on the table, it cascades, and the table
    it indexes is referenced by none: deleting a key deletes, from the
    table of the index, the records the index files under the key. *)
Lemma ref_del_cascading d t k (st : Ref.state) recs s p precs :
  Ref.dbs st !! d = Some (Ref.Primary recs) -> k ∈ recs.*1 ->
  RefData.foreign_on (Ref.dbs st) d = [s] ->
  Ref.s_mode s = Ref.FOREIGN_CASCADE -> Ref.s_primary s = p -> p <> d ->
  Ref.dbs st !! p = Some (Ref.Primary precs) ->
  RefData.foreign_on (Ref.dbs st) p = [] ->
  RefData.del d t k st
  = (0, Ref.set_dbs st
          (<[d := Ref.Primary (filter (λ x, x.1 ≠ k) recs)]>
             (<[p := Ref.Primary
                       (filter (λ y, y.1 ∉ (RefData.referencing (Ref.dbs st) s k).*1)
                               precs)]> (Ref.dbs st)))).
Proof.
  intros Hd Hk Hf Hmode Hp Hne Hpd Hfp.
  assert (Hlt : (p < length (Ref.dbs st))%nat) by (eapply lookup_lt_Some; eauto).
  assert (Hsize : exists n, RefData.size (Ref.dbs st) = S n).
  { pose proof (size_lookup _ _ _ Hd) as Hle.
    apply list_elem_of_fmap in Hk as (x & _ & Hx).
    destruct recs; [inversion Hx |]. simpl in Hle.
    destruct (RefData.size (Ref.dbs st)); [lia | eauto]. }
  destruct Hsize as [n Hn].
  unfold RefData.del. rewrite Hn.
  change (RefData.del_dbs (S (S n)) d k (Ref.dbs st))
    with (match Ref.dbs st !! d with
          | Some (Ref.Primary recs) =>
              if bool_decide (k ∈ recs.*1) then
                let '(res, dbs1) :=
                  RefData.release_all (RefData.del_dbs (S n)) d k (Ref.dbs st) in
                if negb (res =? 0) then (res, Ref.dbs st)
                else match dbs1 !! d with
                     | Some (Ref.Primary recs1) =>
                         (0, <[d := Ref.Primary (filter (λ x, x.1 ≠ k) recs1)]> dbs1)
                     | _ => (EINVAL, Ref.dbs st)
                     end
              else (DB_NOTFOUND, Ref.dbs st)
          | _ => (EINVAL, Ref.dbs st)
          end).
  rewrite Hd, bool_decide_eq_true_2 by exact Hk.
  unfold RefData.release_all. rewrite Hf.
  change (foldl ?f ?a [s]) with (f a s). cbv beta.
  change ((0, Ref.dbs st).2) with (Ref.dbs st).
  assert (Hstart : Ref.dbs st
            = <[p := Ref.Primary (filter (λ y, y.1 ∉ @nil DBT) precs)]> (Ref.dbs st)).
  { rewrite filter_not_in_nil. symmetry. now apply list_insert_id. }
  rewrite Hstart at 1.
  rewrite (release_deleting _ s k p (Ref.dbs st) precs _ [] Hmode Hp Hlt).
  - simpl. rewrite list_lookup_insert_ne by exact Hne. now rewrite Hd.
  - intros cur x Hx.
    rewrite (del_dbs_plain n p x _ cur).
    + now rewrite list_insert_insert_eq.
    + now apply list_lookup_insert_eq.
    + exact Hx.
    + now rewrite (foreign_on_insert _ p _ precs p Hpd).
  - unfold RefData.referencing, Ref.records_of. simpl. rewrite Hp, Hpd.
    apply Forall_forall. intros x Hx.
    apply list_elem_of_filter in Hx. tauto.
Qed.

(** X15. [remove] on a table of the reference engine on which every
    foreign key is of the refusing kind ([add_foreign] with [cascade =
    false]): NotFound exactly when the key has no record,
    ForeignKeyViolation exactly when it has one and an index holding a
    foreign key on the table files a record under the key; in both cases
    nothing changes.  Otherwise the record of the key is deleted and nothing
    else: the other records of the table are selected as before, and the
    other tables are untouched. *)
Theorem remove_on_reference (db : database) (t : table) (key : DBT)
    (st : Ref.state) (recs : list (DBT * DBT)) :
  Ref.dbs st !! m_db t = Some (Ref.Primary recs) ->
  Forall (λ s, Ref.s_mode s = Ref.FOREIGN_ABORT)
         (RefData.foreign_on (Ref.dbs st) (m_db t)) ->
  let r := table_remove db t key st in
  let used := RefData.referenced st (m_db t) key in
  (r.1 = Throw BDB_ERROR_NOT_FOUND <-> key ∉ recs.*1)
  /\ (r.1 = Throw BDB_ERROR_FOREIGN_KEY <-> key ∈ recs.*1 /\ used = true)
  /\ (r.1 = Ok tt <-> key ∈ recs.*1 /\ used = false)
  /\ (r.1 <> Ok tt -> r.2 = st)
  /\ (r.1 = Ok tt ->
      Ref.records_of r.2 (m_db t) = filter (λ x, x.1 ≠ key) recs
      /\ (forall k, k <> key ->
            table_select (D:=DBT) db t k r.2 = table_select (D:=DBT) db t k st)
      /\ (forall d, d <> m_db t -> Ref.dbs r.2 !! d = Ref.dbs st !! d)).
Proof.
  intros Hd Hall r used. subst r used. unfold table_remove. simpl.
  rewrite (ref_del_refusing _ _ _ _ _ Hd Hall).
  destruct (decide (key ∈ recs.*1)) as [Hin | Hnin].
  - rewrite bool_decide_eq_true_2 by exact Hin.
    destruct (RefData.referenced st (m_db t) key); simpl.
    + split; [| split; [| split; [| split]]]; try tauto.
      * split; [discriminate | tauto].
      * split; [intros H; discriminate | intros [_ H]; discriminate].
      * intros H; discriminate.
    + split; [| split; [| split; [| split]]].
      * split; [discriminate | tauto].
      * split; [discriminate | intros [_ H]; discriminate].
      * tauto.
      * intros H. now contradiction H.
      * intros _.
        assert (Hlt : (m_db t < length (Ref.dbs st))%nat)
          by (eapply lookup_lt_Some; eauto).
        split; [| split].
        -- unfold Ref.records_of. simpl.
           now rewrite list_lookup_insert_eq by exact Hlt.
        -- intros k Hk. unfold table_select. simpl.
           unfold Ref.get, Ref.dups_of. simpl.
           rewrite list_lookup_insert_eq by exact Hlt. rewrite Hd.
           rewrite list_filter_filter.
           assert (Hf : filter (λ x : DBT * DBT, x.1 = k ∧ x.1 ≠ key) recs
                        = filter (λ x : DBT * DBT, x.1 = k) recs).
           { apply list_filter_iff. intros x. split; [tauto |].
             intros ->. auto. }
           now rewrite Hf.
        -- intros d Hne. simpl. now rewrite list_lookup_insert_ne.
  - rewrite bool_decide_eq_false_2 by exact Hnin. simpl.
    split; [| split; [| split; [| split]]].
    + tauto.
    + split; [discriminate | tauto].
    + split; [discriminate | tauto].
    + reflexivity.
    + discriminate.
Qed.

Lemma filter_none {A} (P : A -> Prop) `{!∀ x, Decision (P x)} (l : list A) :
  Forall (λ x, ~ P x) l -> filter P l = [].
Proof.
  induction 1 as [| a l Ha _ IH]; [reflexivity |].
  now rewrite filter_cons_False.
Qed.

(** In a table, where keys are distinct, a record is known by its key. *)
Lemma keyed_record (l : list (DBT * DBT)) x y :
  NoDup l.*1 -> x ∈ l -> y ∈ l -> x.1 = y.1 -> x = y.
Proof.
  induction l as [| a l IH]; intros Hnd Hx Hy Heq; [inversion Hx |].
  rewrite fmap_cons in Hnd. apply NoDup_cons in Hnd as [Hnotin Hnd].
  apply elem_of_cons in Hx as [-> | Hx];
    apply elem_of_cons in Hy as [-> | Hy]; auto.
  - exfalso. apply Hnotin. rewrite Heq. apply list_elem_of_fmap. eauto.
  - exfalso. apply Hnotin. rewrite <- Heq. apply list_elem_of_fmap. eauto.
Qed.

(** X20. [remove] on a table of the reference engine on which one index
    holds a foreign key, a cascading one ([add_foreign] with its default):
    the removal of a present key returns, deletes the record of the key
    from the table, and deletes from the table of the index the records the
    index files under the key - with distinct keys, exactly the records
    whose derived key is the removed one.  The other handles are untouched,
    and no record references the removed key afterwards. *)
Theorem remove_cascades (db : database) (t : table) (key : DBT)
    (st : Ref.state) (recs : list (DBT * DBT)) (s : Ref.secondary)
    (precs : list (DBT * DBT)) :
  Ref.dbs st !! m_db t = Some (Ref.Primary recs) ->
  key ∈ recs.*1 ->
  RefData.foreign_on (Ref.dbs st) (m_db t) = [s] ->
  Ref.s_mode s = Ref.FOREIGN_CASCADE ->
  Ref.s_primary s <> m_db t ->
  Ref.dbs st !! Ref.s_primary s = Some (Ref.Primary precs) ->
  RefData.foreign_on (Ref.dbs st) (Ref.s_primary s) = [] ->
  let r := table_remove db t key st in
  r.1 = Ok tt
  /\ Ref.records_of r.2 (m_db t) = filter (λ x, x.1 ≠ key) recs
  /\ Ref.records_of r.2 (Ref.s_primary s)
     = filter (λ y, y.1 ∉ (filter (λ x, Ref.skey_of s x = Some key) precs).*1)
              precs
  /\ (NoDup precs.*1 ->
      Ref.records_of r.2 (Ref.s_primary s)
      = filter (λ y, Ref.skey_of s y ≠ Some key) precs)
  /\ (forall d, d <> m_db t -> d <> Ref.s_primary s ->
        Ref.dbs r.2 !! d = Ref.dbs st !! d)
  /\ RefData.referenced r.2 (m_db t) key = false.
Proof.
  intros Hd Hk Hf Hmode Hne Hp Hfp r. subst r.
  assert (Hlt : (m_db t < length (Ref.dbs st))%nat)
    by (eapply lookup_lt_Some; eauto).
  assert (Hltp : (Ref.s_primary s < length (Ref.dbs st))%nat)
    by (eapply lookup_lt_Some; eauto).
  assert (Hrefs : RefData.referencing (Ref.dbs st) s key
                  = filter (λ x, Ref.skey_of s x = Some key) precs).
  { unfold RefData.referencing, Ref.records_of. simpl. now rewrite Hp. }
  unfold table_remove. simpl.
  rewrite (ref_del_cascading (m_db t) (top (m_txns db)) key st recs s
             (Ref.s_primary s) precs Hd Hk Hf Hmode eq_refl Hne Hp Hfp).
  rewrite Hrefs. simpl.
  set (left := filter (λ y : DBT * DBT, y.1 ∉ _) precs).
  assert (Hrec_p : Ref.records_of
            (Ref.set_dbs st
               (<[m_db t := Ref.Primary (filter (λ x, x.1 ≠ key) recs)]>
                  (<[Ref.s_primary s := Ref.Primary left]> (Ref.dbs st))))
            (Ref.s_primary s) = left).
  { unfold Ref.records_of. simpl.
    rewrite list_lookup_insert_ne by (intros H; apply Hne; now symmetry).
    now rewrite list_lookup_insert_eq by exact Hltp. }
  split; [reflexivity |]. split; [| split; [| split; [| split]]].
  - unfold Ref.records_of. simpl.
    rewrite list_lookup_insert_eq; [reflexivity |].
    now rewrite length_insert.
  - exact Hrec_p.
  - intros Hnd. rewrite Hrec_p. subst left.
    apply filter_ext_elem. intros y Hy. split.
    + intros Hnotin Hsk. apply Hnotin, list_elem_of_fmap.
      exists y. split; [reflexivity |]. apply list_elem_of_filter. auto.
    + intros Hsk Hin. apply list_elem_of_fmap in Hin as (y' & Heq & Hy').
      apply list_elem_of_filter in Hy' as [Hsk' Hy'].
      assert (y = y') by (eapply keyed_record; eauto). now subst y'.
  - intros d Hd1 Hd2. simpl.
    rewrite list_lookup_insert_ne by (intros H; apply Hd1; now symmetry).
    now rewrite list_lookup_insert_ne by (intros H; apply Hd2; now symmetry).
  - unfold RefData.referenced. simpl.
    rewrite (foreign_on_insert _ (m_db t) _ recs).
    2: { now rewrite list_lookup_insert_ne
           by (intros H; apply Hne; now symmetry). }
    rewrite (foreign_on_insert _ (Ref.s_primary s) _ precs) by exact Hp.
    rewrite Hf. simpl. rewrite orb_false_r.
    apply bool_decide_eq_false_2. intros Hnil. apply Hnil.
    unfold RefData.referencing, Ref.records_of. simpl.
    rewrite list_lookup_insert_ne by (intros H; apply Hne; now symmetry).
    rewrite list_lookup_insert_eq by exact Hltp.
    subst left. rewrite list_filter_filter.
    apply filter_none. apply Forall_forall. intros x Hx [Hsk Hnotin].
    apply Hnotin, list_elem_of_fmap. exists x. split; [reflexivity |].
    apply list_elem_of_filter. auto.
Qed.

(** * Further properties: writing on the reference engine *)

Lemma first_failure_zero l : Ref.first_failure l = 0 <-> Forall (λ r, r = 0) l.
Proof.
  unfold Ref.first_failure. induction l as [| a l IH]; simpl.
  - split; [constructor | reflexivity].
  - destruct (decide (a = 0)) as [-> | Hne].
    + rewrite filter_cons_False by tauto. rewrite IH.
      split; [now constructor | now inversion 1].
    + rewrite filter_cons_True by exact Hne. simpl.
      split; [contradiction | now inversion 1].
Qed.

Lemma first_failure_in l : Ref.first_failure l <> 0 -> Ref.first_failure l ∈ l.
Proof.
  unfold Ref.first_failure. induction l as [| a l IH]; simpl; [congruence |].
  destruct (decide (a = 0)) as [-> | Hne].
  - rewrite filter_cons_False by tauto. intros H. right. now apply IH.
  - rewrite filter_cons_True by exact Hne. simpl. intros _. left.
Qed.

Lemma unique_status_cases recs k v s :
  (Ref.unique_status recs k v s = EINVAL
   /\ Ref.s_unique s = true
   /\ exists sk, Ref.skey_of s (k, v) = Some sk
        /\ Exists (λ x, x.1 ≠ k /\ Ref.skey_of s x = Some sk) recs)
  \/ (Ref.unique_status recs k v s = 0
      /\ ~ (Ref.s_unique s = true
            /\ exists sk, Ref.skey_of s (k, v) = Some sk
                 /\ Exists (λ x, x.1 ≠ k /\ Ref.skey_of s x = Some sk) recs)).
Proof.
  unfold Ref.unique_status.
  destruct (Ref.skey_of s (k, v)) as [sk |].
  2: { right. split; [reflexivity |]. intros (_ & sk & H & _). discriminate. }
  destruct (Ref.s_unique s); simpl.
  2: { right. split; [reflexivity |]. intros [H _]. discriminate. }
  destruct (decide (Exists (λ x, x.1 ≠ k /\ Ref.skey_of s x = Some sk) recs))
    as [Hex | Hnex].
  - rewrite bool_decide_eq_true_2 by exact Hex. left. eauto.
  - rewrite bool_decide_eq_false_2 by exact Hnex. right.
    split; [reflexivity |]. intros (_ & sk' & [= <-] & H). contradiction.
Qed.

Lemma foreign_status_cases st k v s :
  (Ref.foreign_status st k v s = DB_FOREIGN_CONFLICT
   /\ exists sk m, Ref.skey_of s (k, v) = Some sk /\ Ref.s_foreign s = Some m
                   /\ sk ∉ (Ref.records_of st m).*1)
  \/ (Ref.foreign_status st k v s = 0
      /\ ~ exists sk m, Ref.skey_of s (k, v) = Some sk
             /\ Ref.s_foreign s = Some m /\ sk ∉ (Ref.records_of st m).*1).
Proof.
  unfold Ref.foreign_status.
  destruct (Ref.skey_of s (k, v)) as [sk |].
  2: { right. split; [reflexivity |]. intros (sk & m & H & _). discriminate. }
  destruct (Ref.s_foreign s) as [m |].
  2: { right. split; [reflexivity |].
       intros (sk' & m & _ & H & _). discriminate. }
  destruct (decide (sk ∈ (Ref.records_of st m).*1)) as [Hin | Hnin].
  - rewrite bool_decide_eq_true_2 by exact Hin. right.
    split; [reflexivity |]. intros (sk' & m' & [= <-] & [= <-] & H).
    contradiction.
  - rewrite bool_decide_eq_false_2 by exact Hnin. left.
    split; [reflexivity | exists sk, m; auto].
Qed.

Lemma skey_of_some s k v sk :
  Ref.skey_of s (k, v) = Some sk <-> Ref.s_callback s k v = (0, sk).
Proof.
  unfold Ref.skey_of. simpl. destruct (Ref.s_callback s k v) as [res sk'].
  destruct (Z.eqb_spec res 0) as [-> | Hne].
  - split; intros [= ->]; reflexivity.
  - split; [discriminate | intros [= -> _]; contradiction].
Qed.

(** The write of a new key whose callbacks do not fail. *)
Lemma ref_put_new d t k v (st : Ref.state) recs :
  Ref.dbs st !! d = Some (Ref.Primary recs) -> k ∉ recs.*1 ->
  Forall (λ s, Ref.callback_status k v s = 0) (Ref.secondaries_of st d) ->
  let w := Ref.put d t k v DB_NOOVERWRITE st in
  (w = (0, Ref.set_dbs st (<[d := Ref.Primary (Ref.upsert k v recs)]> (Ref.dbs st)))
   /\ ~ Ref.unique_collision st d k v /\ ~ Ref.foreign_conflict st d k v)
  \/ (w = (EINVAL, st) /\ Ref.unique_collision st d k v)
  \/ (w = (DB_FOREIGN_CONFLICT, st) /\ Ref.foreign_conflict st d k v).
Proof.
  intros Hd Hnew Hclean w. subst w. unfold Ref.put. rewrite Hd.
  rewrite bool_decide_eq_false_2 by exact Hnew.
  set (secs := Ref.secondaries_of st d) in *.
  assert (Hrecs : Ref.records_of st d = recs)
    by (unfold Ref.records_of; now rewrite Hd).
  set (res := Ref.first_failure _).
  destruct (Z.eqb_spec res 0) as [Hz | Hnz]; simpl.
  - left. split; [reflexivity |].
    apply first_failure_zero, Forall_fmap in Hz.
    rewrite Forall_reverse in Hz.
    split; intros Hex; apply Exists_exists in Hex as (s & Hs & Hbad);
      pose proof (proj1 (Forall_forall _ _) Hz s Hs) as Hs0;
      pose proof (proj1 (Forall_forall _ _) Hclean s Hs) as Hc0;
      simpl in Hs0; unfold Ref.secondary_status in Hs0;
      apply first_failure_zero in Hs0;
      apply Forall_cons in Hs0 as [_ Hs1];
      apply Forall_cons in Hs1 as [Hf Hs2];
      apply Forall_cons in Hs2 as [Hu _].
    + destruct (unique_status_cases recs k v s) as [[Hu' _] | [_ Hno]];
        [rewrite Hu in Hu'; discriminate |].
      apply Hno. destruct Hbad as (Huq & sk & Hcb & Hothers).
      split; [exact Huq |]. exists sk.
      split; [now apply skey_of_some |]. now rewrite <- Hrecs.
    + destruct (foreign_status_cases st k v s) as [[Hf' _] | [_ Hno]];
        [rewrite Hf in Hf'; discriminate |].
      now apply Hno.
  - right.
    pose proof (first_failure_in _ Hnz) as Hin. fold res in Hin.
    apply list_elem_of_fmap in Hin as (s & Hres & Hs).
    rewrite elem_of_reverse in Hs.
    pose proof (proj1 (Forall_forall _ _) Hclean s Hs) as Hc0. simpl in Hc0.
    unfold Ref.secondary_status, Ref.first_failure in Hres.
    rewrite Hc0 in Hres. rewrite filter_cons_False in Hres by tauto.
    destruct (foreign_status_cases st k v s) as [[Hf Horphan] | [Hf _]].
    + right. rewrite Hf in Hres. simpl in Hres.
      rewrite Hres. split; [reflexivity |].
      apply Exists_exists. eauto.
    + rewrite Hf in Hres. rewrite filter_cons_False in Hres by tauto.
      destruct (unique_status_cases recs k v s)
        as [(Hu & Huq & sk & Hsk & Hothers) | [Hu _]].
      * left. rewrite Hu in Hres. simpl in Hres.
        rewrite Hres. split; [reflexivity |].
        apply Exists_exists. exists s. split; [exact Hs |].
        split; [exact Huq |]. exists sk.
        split; [now apply skey_of_some |]. now rewrite Hrecs.
      * rewrite Hu in Hres. simpl in Hres. contradiction.
Qed.

(** X19. [insert] on a table of the reference engine whose index callbacks
    do not fail.  It returns exactly when the key is new, no unique index
    already files another record under the derived key, and every derived
    foreign key has its record in the master table; the record is then
    stored at its place.  A key already present throws AlreadyExists; so
    does, for a new key, the collision in a unique index when no master key
    is missing; a missing master key without such a collision throws
    ForeignKeyViolation.  AlreadyExists is thrown only for a present key or
    a collision, ForeignKeyViolation only for a new key with a missing master
    key, no other error is thrown, and a failed insert changes nothing. *)
Theorem insert_on_reference {K D} `{Message K} `{Message D}
    (db : database) (t : table) (key : K) (data : D) (st : Ref.state)
    (recs : list (DBT * DBT)) :
  Ref.dbs st !! m_db t = Some (Ref.Primary recs) ->
  Forall (λ s, Ref.callback_status (serialize key) (serialize data) s = 0)
         (Ref.secondaries_of st (m_db t)) ->
  let k := serialize key in
  let v := serialize data in
  let r := table_insert db t key data st in
  let present := Ref.key_present st (m_db t) k in
  let collides := Ref.unique_collision st (m_db t) k v in
  let orphan := Ref.foreign_conflict st (m_db t) k v in
  (r.1 = Ok tt <-> ~ present /\ ~ collides /\ ~ orphan)
  /\ (r.1 = Throw BDB_ERROR_EXISTS -> present \/ collides)
  /\ (r.1 = Throw BDB_ERROR_FOREIGN_KEY -> ~ present /\ orphan)
  /\ (present -> r.1 = Throw BDB_ERROR_EXISTS)
  /\ (~ present -> collides -> ~ orphan -> r.1 = Throw BDB_ERROR_EXISTS)
  /\ (~ present -> orphan -> ~ collides -> r.1 = Throw BDB_ERROR_FOREIGN_KEY)
  /\ (r.1 = Ok tt \/ r.1 = Throw BDB_ERROR_EXISTS
      \/ r.1 = Throw BDB_ERROR_FOREIGN_KEY)
  /\ (r.1 <> Ok tt -> r.2 = st)
  /\ (r.1 = Ok tt -> Ref.records_of r.2 (m_db t) = Ref.upsert k v recs).
Proof.
  intros Hd Hclean k v r present collides orphan.
  subst r present collides orphan.
  assert (Hrecs : Ref.records_of st (m_db t) = recs)
    by (unfold Ref.records_of; now rewrite Hd).
  unfold Ref.key_present. rewrite Hrecs.
  destruct (decide (k ∈ recs.*1)) as [Hin | Hnew].
  - rewrite (ref_insert_key_present db t key data st)
      by (unfold Ref.key_present; now rewrite Hrecs).
    simpl. repeat split; intros; try discriminate; try tauto; auto.
  - unfold table_insert. cbn [DB_put Ref.engine]. fold k v.
    destruct (ref_put_new (m_db t) (top (m_txns db)) k v st recs Hd Hnew
                Hclean) as [(-> & Hnc & Hno) | [(-> & Hc) | (-> & Ho)]];
      simpl.
    + repeat split; intros; try discriminate; try tauto; auto.
      unfold Ref.records_of. simpl.
      rewrite list_lookup_insert_eq by (eapply lookup_lt_Some; eauto).
      reflexivity.
    + repeat split; intros; try discriminate; try tauto; auto.
    + repeat split; intros; try discriminate; try tauto; auto.
Qed.

(** * Further properties: the files of tables and indexes *)

Lemma list_of_append (s t : string) :
  String.list_ascii_of_string (s +:+ t)
  = String.list_ascii_of_string s ++ String.list_ascii_of_string t.
Proof. induction s as [| c s IH]; simpl; [reflexivity | now rewrite IH]. Qed.

Lemma list_of_string_inj (s t : string) :
  String.list_ascii_of_string s = String.list_ascii_of_string t -> s = t.
Proof.
  intros H. rewrite <- (String.string_of_list_ascii_of_string s),
    <- (String.string_of_list_ascii_of_string t). now rewrite H.
Qed.

(** Names with suffixes of the same length are equal only when the names
    and the suffixes are. *)
Lemma append_suffix_inj (s1 s2 t1 t2 : string) :
  String.length t1 = String.length t2 ->
  (s1 +:+ t1 = s2 +:+ t2)%string -> s1 = s2 /\ t1 = t2.
Proof.
  intros Hlen H. apply (f_equal String.list_ascii_of_string) in H.
  rewrite !list_of_append in H.
  apply app_inj_2 in H as [H1 H2].
  - split; now apply list_of_string_inj.
  - clear H. revert t2 Hlen.
    induction t1 as [| c t1 IH]; intros [| c2 t2]; simpl; try discriminate;
      [reflexivity |].
    intros [= Hl]. f_equal. now apply IH.
Qed.

(** X16. The file of a table determines its name, and so does the file of an
    index; no table shares its file with an index, and no index uses the file
    of the sequences database; a table does exactly when it is named as the
    sequences database is ([SEQ_NAME]), and then it has the database name
    of the sequences too. *)
Theorem file_names_distinct (n1 n2 : string) :
  table_filename n1 <> index_filename n2
  /\ (table_filename n1 = table_filename n2 -> n1 = n2)
  /\ (index_filename n1 = index_filename n2 -> n1 = n2)
  /\ index_filename n1 <> SEQ_FILE
  /\ (table_filename n1 = SEQ_FILE <-> n1 = SEQ_NAME).
Proof.
  unfold table_filename, index_filename.
  assert (Hseq : SEQ_FILE = (SEQ_NAME +:+ ".db")%string) by reflexivity.
  split; [| split; [| split; [| split]]].
  - intros H. apply append_suffix_inj in H as [_ H]; [discriminate H |].
    reflexivity.
  - intros H. now apply append_suffix_inj in H as [H _].
  - intros H. now apply append_suffix_inj in H as [H _].
  - rewrite Hseq. intros H.
    apply append_suffix_inj in H as [_ H]; [discriminate H | reflexivity].
  - rewrite Hseq. split; [| intros ->; reflexivity].
    intros H. now apply append_suffix_inj in H as [H _].
Qed.

(** * Further properties: joining what the constructors build *)

Lemma ref_recordset_index_key db (i : table) (key : DBT) (st : Ref.state) :
  is_Some (Ref.dbs st !! m_db i) ->
  recordset_index_key db i key st
  = (Ok (keyed (length (Ref.cursors st)) key),
     Ref.set_cursors st (Ref.cursors st ++ [Ref.Cursor (m_db i) None])).
Proof.
  intros [x Hx]. unfold recordset_index_key, open_cursor. simpl.
  unfold Ref.cursor_. rewrite Hx. reflexivity.
Qed.

Lemma ref_open_index_keys db tbl srcs : forall h (st : Ref.state),
  indexes_of st tbl srcs ->
  open_index_keys db srcs h st
  = Some (h ++ imap (λ i s, keyed (length (Ref.cursors st) + i) s.2) srcs,
          Ref.set_cursors st
            (Ref.cursors st ++ ((λ s, Ref.Cursor (m_db s.1) None) <$> srcs))).
Proof.
  induction srcs as [| [i key] rest IH]; intros h st Hall.
  - simpl. rewrite !app_nil_r. now destruct st.
  - apply Forall_cons in Hall as [(sec & Hsec & _) Hall]. simpl.
    rewrite ref_recordset_index_key by eauto.
    rewrite IH by exact Hall. simpl. f_equal. f_equal.
    + rewrite <- app_assoc. simpl. rewrite Nat.add_0_r. do 2 f_equal.
      apply imap_ext. intros j s _. simpl. rewrite length_app. simpl.
      f_equal. lia.
    + unfold Ref.set_cursors. simpl. now rewrite <- app_assoc.
Qed.

(** The sources of the recordsets opened on a state with [c0] cursors. *)
Lemma opened_source_of tbl srcs (st : Ref.state) p s :
  indexes_of st tbl srcs -> srcs !! p = Some s ->
  Ref.source_of
    (Ref.set_cursors st
       (Ref.cursors st ++ ((λ s, Ref.Cursor (m_db s.1) None) <$> srcs)))
    (m_db tbl)
    (imap (λ i s, keyed (length (Ref.cursors st) + i) s.2) srcs) p
  = Some ((length (Ref.cursors st) + p)%nat, m_db s.1, s.2).
Proof.
  intros Hall Hp. unfold Ref.source_of.
  rewrite list_lookup_imap, Hp. simpl.
  rewrite lookup_app_r by lia.
  replace (length (Ref.cursors st) + p - length (Ref.cursors st))%nat
    with p by lia.
  rewrite list_lookup_fmap, Hp. simpl.
  unfold indexes_of in Hall. rewrite Forall_lookup in Hall.
  destruct (Hall p s Hp) as (sec & -> & ->).
  now rewrite Nat.eqb_refl.
Qed.

(** X17. Single-key recordsets opened by the constructor over indexes of
    one table can always be joined on the reference engine.  Opening them in
    turn succeeds and gives each a cursor of its own; the constructor of the
    join over them - at least one - returns; and the records the join ranges
    over are the records of the table filed under the key of every recordset
    in its index.  These are the conditions under which a join yields that
    intersection. *)
Theorem opened_recordsets_join (db : database) (tbl : table)
    (srcs : list (table * DBT)) (st : Ref.state) :
  srcs <> [] -> indexes_of st tbl srcs ->
  exists h st1 sources j h' st2,
    open_index_keys db srcs [] st = Some (h, st1)
    /\ mapM (Ref.source_of st1 (m_db tbl) h) (seq 0 (length srcs))
       = Some sources
    /\ Ref.own_cursors sources
    /\ recordset_join tbl (seq 0 (length srcs)) h st1 = (Ok j, h', st2)
    /\ Ref.join_result st1 tbl h (seq 0 (length srcs))
       = filter (λ x, Forall (λ s, x ∈ Ref.dups_of st (m_db s.1) s.2) srcs)
                (Ref.records_of st (m_db tbl)).
Proof.
  intros Hne Hall.
  set (c0 := length (Ref.cursors st)).
  set (h := imap (λ i s, keyed (c0 + i) s.2) srcs).
  set (st1 := Ref.set_cursors st
                (Ref.cursors st ++ ((λ s, Ref.Cursor (m_db s.1) None) <$> srcs))).
  set (sources := imap (λ i (s : table * DBT), ((c0 + i)%nat, m_db s.1, s.2)) srcs).
  assert (Hm : mapM (Ref.source_of st1 (m_db tbl) h) (seq 0 (length srcs))
               = Some sources).
  { apply mapM_Some_2, Forall2_same_length_lookup_2.
    - unfold sources. now rewrite length_seq, length_imap.
    - intros i p x Hi Hx. apply lookup_seq in Hi as [-> Hlt]. simpl.
      unfold sources in Hx. rewrite list_lookup_imap in Hx.
      destruct (srcs !! i) as [s |] eqn:Hs; [| discriminate].
      injection Hx as <-.
      exact (opened_source_of tbl srcs st i s Hall Hs). }
  assert (Hown : Ref.own_cursors sources).
  { intros s s' Hs Hs' Heq. unfold sources in Hs, Hs'.
    apply list_elem_of_lookup in Hs as [i Hi].
    apply list_elem_of_lookup in Hs' as [i' Hi'].
    rewrite list_lookup_imap in Hi, Hi'.
    destruct (srcs !! i) as [x |] eqn:Hx; [| discriminate].
    destruct (srcs !! i') as [x' |] eqn:Hx'; [| discriminate].
    injection Hi as <-. injection Hi' as <-. simpl in Heq.
    assert (i = i') as -> by lia. congruence. }
  destruct (ref_join_sources (m_db tbl) (seq 0 (length srcs)) h st1 true []
              sources Hm) as (h' & Hloop & Hs & [Hdbs Hshape] & _).
  assert (Hjoin : exists j st2,
            recordset_join tbl (seq 0 (length srcs)) h st1 = (Ok j, h', st2)).
  { unfold recordset_join. rewrite Hloop. simpl.
    change (@DB_join Ref.engine) with Ref.join. unfold Ref.join.
    assert (Hall' : forallb (Ref.is_index_cursor (foldl Ref.seek st1 sources)
                               (m_db tbl)) sources.*1.*1 = true).
    { apply forallb_forall. intros c Hc. apply list_elem_of_In in Hc.
      apply list_elem_of_fmap in Hc as ([c' d] & -> & Hc).
      apply list_elem_of_fmap in Hc as ([[c'' d'] k] & [= -> ->] & Hc).
      destruct (sources_origin _ _ _ _ _ _ Hm Hc) as (p & _ & Hp).
      apply source_of_inv in Hp
        as (rs & pos & sec & _ & _ & _ & _ & Hcur & Hdb & Hprim).
      unfold Ref.is_index_cursor. simpl.
      specialize (Hshape c''). rewrite Hcur in Hshape. simpl in Hshape.
      destruct (Ref.cursors (foldl Ref.seek st1 sources) !! c'')
        as [[d2 pos2 | |] |]; try discriminate.
      injection Hshape as ->. rewrite Hdbs, Hdb.
      now apply Nat.eqb_eq. }
    destruct (sources.*1.*1) as [| c cs] eqn:Hcs.
    { exfalso. apply Hne. apply (f_equal length) in Hcs.
      rewrite !length_fmap in Hcs. unfold sources in Hcs.
      rewrite length_imap in Hcs. now destruct srcs. }
    rewrite Hall'. simpl. eauto. }
  destruct Hjoin as (j & st2 & Hj).
  exists h, st1, sources, j, h', st2.
  split; [| split; [exact Hm | split; [exact Hown | split; [exact Hj |]]]].
  - rewrite (ref_open_index_keys db tbl srcs [] st Hall). reflexivity.
  - rewrite (join_result_sources _ _ _ _ _ Hm).
    change (Ref.records_of st1 (m_db tbl)) with (Ref.records_of st (m_db tbl)).
    apply list_filter_iff. intros x. unfold sources.
    rewrite !Forall_lookup. split.
    + intros H i s Hi.
      specialize (H i ((c0 + i)%nat, m_db s.1, s.2)).
      rewrite list_lookup_imap, Hi in H. exact (H eq_refl).
    + intros H i s Hi. rewrite list_lookup_imap in Hi.
      destruct (srcs !! i) as [y |] eqn:Hy; [| discriminate].
      injection Hi as <-. simpl. exact (H i y Hy).
Qed.

(** * Instances of the further properties on the scenario *)

Section FurtherInstances.
Import Scenario.
Local Open Scope string_scope.

(** June is removed from the four months: it is gone for [exists], [select]
    and [update]. *)
Lemma remove_then_absent_june :
  let st := (table_remove db tmonth "June" four_months).2 in
  table_exists db tmonth "June" st = false
  /\ table_select (D:=string) db tmonth "June" st = Throw BDB_ERROR_NOT_FOUND
  /\ table_update db tmonth "June" "Summer,31,6" st
     = (Throw BDB_ERROR_NOT_FOUND, st).
Proof.
  apply (remove_then_absent (E:=Ref.engine) (DD:=RefData.data) ref_del_law
           db tmonth "June" "Summer,31,6" four_months).
  reflexivity.
Defined.

(** A transaction begun on the fresh database is on top of the stack, and
    committing it or rolling it back gives the database back. *)
Lemma begin_then_finalize_restores_nested :
  m_txns nested.1 = [1; 0]%nat
  /\ (commit_transaction nested.1 nested.2).1.2 = db
  /\ (rollback_transaction nested.1 nested.2).1.2 = db.
Proof.
  assert (Hne : m_txns db <> []) by discriminate.
  destruct (begin_then_finalize_restores (E:=Ref.engine) db nested.1 empty
              nested.2 Hne) as [_ H].
  destruct (H eq_refl) as (_ & Hc & Hr & _).
  exact (conj eq_refl (conj Hc Hr)).
Defined.

(** Two transactions are begun, both are resolved, and two more attempts are
    refused: the top-level transaction is still there. *)
Lemma top_level_transaction_stays_refused :
  let '(rs, db', _) :=
    txn_run [Begin; Begin; Commit; Rollback; Rollback; Commit] db empty in
  m_txns db' <> []
  /\ last (m_txns db') = last (m_txns db)
  /\ m_env db' = m_env db /\ m_seq db' = m_seq db
  /\ Forall (λ r, r = Ok tt \/ r = Throw BDB_ERROR_NOT_FOUND
                  \/ r = Throw BDB_ERROR_UNKNOWN) rs.
Proof.
  apply (top_level_transaction_stays (E:=Ref.engine)
           [Begin; Begin; Commit; Rollback; Rollback; Commit] db empty).
  discriminate.
Defined.

(** "Rollback nested transactions": October is inserted, June is removed in
    a nested transaction that is committed, and the outer transaction is
    rolled back - the four months are stored as before. *)
Lemma transactions_are_snapshots_nested_rollback :
  let s := ref_session
             [Transact Begin; Write (Insert tmonth "October" "Autumn,31,10");
              Transact Begin; Write (Remove tmonth "June");
              Transact Commit; Transact Rollback] db four_months in
  Ref.dbs s.2 = Ref.dbs four_months /\ length (m_txns s.1) = 1%nat.
Proof.
  exact (transactions_are_snapshots
           [Transact Begin; Write (Insert tmonth "October" "Autumn,31,10");
            Transact Begin; Write (Remove tmonth "June");
            Transact Commit; Transact Rollback] db four_months 0%nat eq_refl).
Defined.

(** The database is destroyed with two nested transactions open: neither the
    insertion of October nor the removal of June is kept. *)
Lemma close_discards_nested_two_open :
  let s := ref_session
             [Transact Begin; Write (Insert tmonth "October" "Autumn,31,10");
              Transact Begin; Write (Remove tmonth "June")] db four_months in
  let r := database_close {| d_self := s.1; m_sequences := [];
                             m_tables := [] |} s.2 in
  r.1 = Ok tt /\ Ref.dbs r.2 = Ref.dbs four_months.
Proof.
  exact (close_discards_nested
           [Transact Begin; Write (Insert tmonth "October" "Autumn,31,10");
            Transact Begin; Write (Remove tmonth "June")] db four_months
           0%nat [] [] eq_refl).
Defined.

(** "Check recordset gained from index": the index on the season yields the
    months of autumn, spring and summer in turn, then nothing. *)
Lemma fetch_enumerates_range_by_season :
  fetches (K:=string) (D:=string) 6
    {| m_cursor := Some 0%nat; m_key := None; m_type := BDB_RS_DUPLICATES;
       m_isset := false |} two_cursors
  = [Ok (Some ("November", "Autumn,30,11"));
     Ok (Some ("September", "Autumn,30,9"));
     Ok (Some ("April", "Spring,30,4")); Ok (Some ("June", "Summer,30,6"));
     Ok None; Ok None].
Proof.
  assert (Hwf : wf_recordset
                  {| m_cursor := Some 0%nat; m_key := None;
                     m_type := BDB_RS_DUPLICATES; m_isset := true |}).
  { split; [eexists; reflexivity |].
    split; [intros [k Hk]; discriminate | discriminate]. }
  assert (Hnd : BDB_RS_DUPLICATES <> BDB_RS_UNIQUE ->
                NoDup (Ref.keys_of two_cursors 2)).
  { intros _. apply (bool_decide_unpack _). vm_compute. exact I. }
  exact (fetch_enumerates_range (K:=string) (D:=string) 6
           {| m_cursor := Some 0%nat; m_key := None;
              m_type := BDB_RS_DUPLICATES; m_isset := true |}
           two_cursors 0%nat 2%nat None Hwf (or_intror (or_introl eq_refl))
           eq_refl eq_refl Hnd).
Defined.

(** The first fetch of the months of autumn returns a record and leaves the
    recordset well-formed with its flag set. *)
Lemma fetch_outcomes_autumn :
  wf_recordset (fetch (K:=string) (D:=string) autumn two_cursors).1.2
  /\ m_isset (fetch (K:=string) (D:=string) autumn two_cursors).1.2 = true.
Proof.
  assert (Hwf : wf_recordset autumn).
  { split; [eexists; reflexivity |].
    split; [reflexivity | intros _; eexists; reflexivity]. }
  destruct (fetch_outcomes (E:=Ref.engine) (K:=string) (D:=string) autumn
              two_cursors Hwf) as (_ & _ & Hw & _ & Hs & _).
  exact (conj Hw (Hs ("November", "Autumn,30,11") eq_refl)).
Defined.

(** "Try to delete foreign key which is in use": autumn is referenced by
    its months and stays. *)
Lemma remove_on_reference_autumn :
  (table_remove db tseason "Autumn" four_months).1
  = Throw BDB_ERROR_FOREIGN_KEY
  /\ (table_remove db tseason "Autumn" four_months).2 = four_months.
Proof.
  assert (Hall : Forall (λ s, Ref.s_mode s = Ref.FOREIGN_ABORT)
                         (RefData.foreign_on (Ref.dbs four_months)
                                             (m_db tseason)))
    by (vm_compute; repeat constructor).
  destruct (remove_on_reference db tseason "Autumn" four_months
              [("Autumn", ""); ("Spring", ""); ("Summer", "")] eq_refl Hall)
    as (_ & Hfk & _ & Hsame & _).
  split.
  - apply Hfk. split; [constructor | reflexivity].
  - apply Hsame. discriminate.
Defined.

(** "Join several recordsets": the recordsets of autumn and of the
    thirty-day months are opened on the four months and joined. *)
Lemma opened_recordsets_join_autumn_30 :
  exists h st1 sources j h' st2,
    open_index_keys db [(iseason, "Autumn"); (idays, "30")] [] four_months
    = Some (h, st1)
    /\ mapM (Ref.source_of st1 (m_db tmonth) h) (seq 0 2) = Some sources
    /\ Ref.own_cursors sources
    /\ recordset_join tmonth (seq 0 2) h st1 = (Ok j, h', st2)
    /\ Ref.join_result st1 tmonth h (seq 0 2)
       = filter (λ x, Forall (λ s, x ∈ Ref.dups_of four_months (m_db s.1) s.2)
                             [(iseason, "Autumn"); (idays, "30")])
                (Ref.records_of four_months (m_db tmonth)).
Proof.
  apply (opened_recordsets_join db tmonth
           [(iseason, "Autumn"); (idays, "30")] four_months).
  - discriminate.
  - constructor; [eexists; split; reflexivity |].
    constructor; [eexists; split; reflexivity | constructor].
Defined.

(** "Try to insert a record with wrong foreign key": December of a season
    that is no record of the table of seasons. *)
Lemma insert_on_reference_winter :
  (table_insert db tmonth "December" "Winter,31,12" four_months).1
  = Throw BDB_ERROR_FOREIGN_KEY.
Proof.
  assert (Hclean : Forall (λ s, Ref.callback_status (serialize "December")
                                  (serialize "Winter,31,12") s = 0)
                          (Ref.secondaries_of four_months (m_db tmonth)))
    by (vm_compute; repeat constructor).
  destruct (insert_on_reference db tmonth "December" "Winter,31,12"
              four_months _ eq_refl Hclean)
    as (_ & _ & _ & _ & _ & Hfk & _).
  apply Hfk.
  - unfold Ref.key_present. intros Hin.
    apply (bool_decide_pack _) in Hin. vm_compute in Hin. exact Hin.
  - apply Exists_cons_hd. exists "Winter", 0%nat.
    split; [reflexivity |]. split; [reflexivity |].
    intros Hin. apply (bool_decide_pack _) in Hin. vm_compute in Hin.
    exact Hin.
  - intros Hc.
    apply Exists_cons in Hc as [[Hu _] | Hc]; [discriminate |].
    apply Exists_cons in Hc as [[Hu _] | Hc]; [discriminate |].
    apply Exists_cons in Hc as [(_ & sk & Hsk & Hex) | Hc];
      [| inversion Hc].
    injection Hsk as <-.
    repeat (apply Exists_cons in Hex as [[_ Hex] | Hex];
            [discriminate |]).
    inversion Hex.
Defined.

(** A month of a missing season whose ordinal number is taken: the unique
    index, associated last, answers first, and [insert] throws
    AlreadyExists. *)
Example insert_collision_before_orphan :
  (table_insert db tmonth "October" "Winter,31,9" four_months).1
  = Throw BDB_ERROR_EXISTS.
Proof. reflexivity. Qed.



(** "Delete foreign key which is in use, while cascade removal is enabled":
    autumn goes, and its months with it. *)
Lemma remove_cascades_autumn :
  (table_remove db tseason "Autumn" Reopened.cascading).1 = Ok tt
  /\ Ref.records_of (table_remove db tseason "Autumn" Reopened.cascading).2
                    (m_db tseason)
     = [("Spring", ""); ("Summer", "")]
  /\ Ref.records_of (table_remove db tseason "Autumn" Reopened.cascading).2
                    (m_db tmonth)
     = [("April", "Spring,30,4"); ("June", "Summer,30,6")].
Proof.
  assert (Hk : "Autumn" ∈ [("Autumn", ""); ("Spring", ""); ("Summer", "")].*1)
    by (apply (bool_decide_unpack _); vm_compute; exact I).
  assert (Hnd : NoDup [("April", "Spring,30,4"); ("June", "Summer,30,6");
                       ("November", "Autumn,30,11");
                       ("September", "Autumn,30,9")].*1)
    by (apply (bool_decide_unpack _); vm_compute; exact I).
  assert (Hne : (1 <> 0)%nat) by discriminate.
  destruct (remove_cascades db tseason "Autumn" Reopened.cascading
              [("Autumn", ""); ("Spring", ""); ("Summer", "")]
              (Ref.Secondary 1 Reopened.by_season false (Some 0%nat)
                             Ref.FOREIGN_CASCADE)
              [("April", "Spring,30,4"); ("June", "Summer,30,6");
               ("November", "Autumn,30,11"); ("September", "Autumn,30,9")]
              eq_refl Hk eq_refl eq_refl Hne eq_refl eq_refl)
    as (Hok & Hseason & _ & Hmonth & _).
  split; [exact Hok |]. split; [exact Hseason |].
  exact (Hmonth Hnd).
Defined.

(** X23. With a nullify callback that clears the season, the removal of
    autumn returns: the months of autumn stay, with their data rewritten by
    the callback, and the index [season] files them no longer. *)
Example remove_nullifies_autumn :
  (table_remove db tseason "Autumn" Reopened.nullifying).1 = Ok tt
  /\ Ref.records_of (table_remove db tseason "Autumn" Reopened.nullifying).2
                    (m_db tseason)
     = [("Spring", ""); ("Summer", "")]
  /\ Ref.records_of (table_remove db tseason "Autumn" Reopened.nullifying).2
                    (m_db tmonth)
     = [("April", "Spring,30,4"); ("June", "Summer,30,6");
        ("November", ",30,11"); ("September", ",30,9")]
  /\ Ref.keys_of (table_remove db tseason "Autumn" Reopened.nullifying).2
                 (m_db iseason)
     = ["Spring"; "Summer"].
Proof. repeat split; vm_compute; reflexivity. Qed.

(** A database with two nested transactions, a sequence and the table of
    months with its three indexes is destroyed. *)
Lemma database_close_protocol_two_nested :
  Scripted.names
    (@database_close Scripted.engine Scripted.data
       {| d_self := {| m_env := 1%nat; m_seq := 3%nat;
                       m_txns := [9; 8; 2]%nat |};
          m_sequences := [sequence.Sequence (Some 4%nat)];
          m_tables := [{| t_self := Table "month" 5; m_callback := None;
                          m_indexes := [Table "season" 6; Table "days" 7] |}]
       |} (Scripted.start [])).2
  = ["abort"; "abort"; "seq_close"; "close"; "close"; "close"; "close";
     "commit"; "env_close"].
Proof.
  destruct (database_close_protocol
              {| d_self := {| m_env := 1%nat; m_seq := 3%nat;
                              m_txns := [9; 8; 2]%nat |};
                 m_sequences := [sequence.Sequence (Some 4%nat)];
                 m_tables := [{| t_self := Table "month" 5;
                                 m_callback := None;
                                 m_indexes := [Table "season" 6;
                                               Table "days" 7] |}] |}
              [9; 8]%nat 2%nat (Scripted.start []) eq_refl) as [_ Hlog].
  unfold Scripted.names. rewrite Hlog. reflexivity.
Defined.

(** The constructor of [table] on the scripted engine: the open that
    answers [ENOENT], [EEXIST] and [EINVAL]; and the constructor of [index]
    on the open that answers [ENOENT]. *)
Example table_open_translates :
  (@table_open Scripted.engine Scripted.data Scripted.schema db "month" None
     false (Scripted.start [0; ENOENT])).1 = Throw BDB_ERROR_NOT_FOUND
  /\ (@table_open Scripted.engine Scripted.data Scripted.schema db "month"
        None true (Scripted.start [0; EEXIST])).1 = Throw BDB_ERROR_EXISTS
  /\ (@table_open Scripted.engine Scripted.data Scripted.schema db "month"
        None true (Scripted.start [0; EINVAL])).1 = Throw BDB_ERROR_UNKNOWN
  /\ Scripted.names
       (@table_open Scripted.engine Scripted.data Scripted.schema db "month"
          None false (Scripted.start [0; ENOENT])).2
     = ["db_create"; "open"; "close"]
  /\ (@index_open Scripted.engine Scripted.data Scripted.schema db tmonth
        "days" (by_field 1) None None false
        (Scripted.start [0; 0; ENOENT])).1 = Throw BDB_ERROR_UNKNOWN
  /\ Scripted.names
       (@index_open Scripted.engine Scripted.data Scripted.schema db tmonth
          "days" (by_field 1) None None false
          (Scripted.start [0; 0; ENOENT])).2
     = ["db_create"; "set_flags"; "open"; "close"; "close"].
Proof. repeat split; vm_compute; reflexivity. Qed.

End FurtherInstances.
